(** * Link shortener: rate limiter, link registry, redirect resolver and
      click analytics.

    A shallow embedding of the Lambda handlers of [aws-cdk-link-shortener]
    (lambda/create, lambda/redirect, lambda/analytics, the shared rate
    limiter and the shared validation schemas), with the properties the
    specification states about them.

    JavaScript numbers that hold counters and epoch times are integers
    and are modelled as [Z]; where a caller supplies the number (the
    increment of the rate limiter) the safe-integer bound that [marshall]
    and [unmarshall] enforce is part of the model.  The one place where
    the source does real floating-point arithmetic (the percentage of a
    breakdown group) is modelled with binary64 floats.  Strings are
    [string], sequences of code units below 256; objects are records whose
    optional properties are [option] fields, and objects used as tallies
    are lists of own properties, for keys that are not names inherited
    from [Object.prototype].  DynamoDB is the environment: each handler
    threads the tables it touches, and the outcome of every round trip
    (fulfilled, rejected, raced by another writer) is an input. *)

From Stdlib Require Import ZArith List String Ascii Bool Lia Floats Uint63.
From stdpp Require Import base tactics option list gmap strings pretty.

Local Open Scope Z_scope.

(* ===================================================================== *)
(** * Part I: the embedding                                               *)
(* ===================================================================== *)

(** ** JavaScript values *)

Module JS.

(** Truthiness of a possibly missing number: [undefined], [0] (and NaN,
    which no counter or timestamp here can be) are falsy. *)
Definition truthy_num (x : option Z) : bool :=
  match x with
  | Some n => negb (n =? 0)
  | None => false
  end.

(** Truthiness of a possibly missing string: [undefined] and [''] are
    falsy. *)
Definition truthy_str (x : option string) : bool :=
  match x with
  | Some EmptyString => false
  | Some _ => true
  | None => false
  end.

(** [x || d] on a possibly missing number. *)
Definition or_num (x : option Z) (d : Z) : Z :=
  match x with
  | Some n => if n =? 0 then d else n
  | None => d
  end.

(** [x || d] on a possibly missing string. *)
Definition or_str (x : option string) (d : string) : string :=
  match x with
  | Some EmptyString => d
  | Some s => s
  | None => d
  end.

(** [Number.MAX_SAFE_INTEGER] *)
Definition MAX_SAFE_INTEGER : Z := 9007199254740991.

(** An integer that [marshall] writes and [unmarshall] reads back as a
    number.  Beyond the safe integers [marshall] throws, and [unmarshall]
    returns a [BigInt], which arithmetic with a number rejects with a
    [TypeError]. *)
Definition is_safe_integer (n : Z) : bool :=
  (- MAX_SAFE_INTEGER <=? n) && (n <=? MAX_SAFE_INTEGER).

(** An error value: a [ZodError] carries its issue messages, every other
    error its [name] and [message]. *)
Inductive Error :=
| ZodError (issues : list string)
| NamedError (name message : string).

Definition error_name (e : Error) : string :=
  match e with
  | ZodError _ => "ZodError"
  | NamedError n _ => n
  end.

(** The result of evaluating a block that may throw. *)
Inductive Completion (A : Type) :=
| Normal (a : A)
| Throw (e : Error).
Arguments Normal {A} a.
Arguments Throw {A} e.

(** Largest time value a [Date] can hold, in milliseconds. *)
Definition MAX_TIME_VALUE : Z := 8640000000000000.

(** An ISO-8601 string, kept as the instant it prints. *)
Inductive ISOString := ISO (ms : Z).

(** [new Date(t).toISOString()]: throws [RangeError] on an invalid date,
    which is what [new Date(undefined)] is. *)
Definition Date_toISOString (t : option Z) : Completion ISOString :=
  match t with
  | Some ms =>
      if Z.abs ms <=? MAX_TIME_VALUE then Normal (ISO ms)
      else Throw (NamedError "RangeError" "Invalid time value")
  | None => Throw (NamedError "RangeError" "Invalid time value")
  end.

(** *** Floating-point numbers *)

Definition two52 : float := 4503599627370496%float.

(** The number a non-negative integer below 2^53 denotes. *)
Definition of_Z (z : Z) : float := PrimFloat.of_uint63 (Uint63.of_Z z).

(** The integer an integral number denotes. *)
Definition to_Z (x : float) : Z :=
  match Prim2SF x with
  | S754_finite s m e =>
      let v := Z.shiftl (Z.pos m) e in if s then Z.opp v else v
  | _ => 0
  end.

(** [Math.round(x)]: the nearest integer, a tie going up.  Below 2^52 the
    floor of [x] is found by adding and removing 2^52; larger numbers,
    infinities and NaN are returned as they are. *)
Definition Math_round (x : float) : float :=
  if PrimFloat.ltb (PrimFloat.abs x) two52 then
    let r := if PrimFloat.leb 0%float x
             then PrimFloat.sub (PrimFloat.add x two52) two52
             else PrimFloat.add (PrimFloat.sub x two52) two52 in
    let f := if PrimFloat.ltb x r then PrimFloat.sub r 1%float else r in
    if PrimFloat.ltb (PrimFloat.sub x f) 0.5%float then f
    else PrimFloat.add f 1%float
  else x.

(** *** Objects used as string-keyed counters *)

(** The property names an object literal inherits from [Object.prototype].
    Under such a name [o[k]] is never [undefined]: on an object without
    own property [k] it is a built-in function, or the prototype itself
    for [__proto__], which an assignment does not turn into an own
    property either. *)
Definition Object_prototype_names : list string :=
  [ "constructor"; "__defineGetter__"; "__defineSetter__"; "hasOwnProperty";
    "__lookupGetter__"; "__lookupSetter__"; "isPrototypeOf";
    "propertyIsEnumerable"; "toString"; "valueOf"; "__proto__";
    "toLocaleString" ].

Definition inherited (k : string) : bool :=
  existsb (String.eqb k) Object_prototype_names.

(** Own properties in creation order, under keys that are not inherited
    names: for those keys [get] is [o[k]] and [set] is [o[k] = v]. *)
Definition Counts : Type := list (string * Z).

Fixpoint get (o : Counts) (k : string) : option Z :=
  match o with
  | [] => None
  | (k', v) :: rest => if String.eqb k' k then Some v else get rest k
  end.

(** [o[k] = v]: an existing property keeps its place. *)
Fixpoint set (o : Counts) (k : string) (v : Z) : Counts :=
  match o with
  | [] => [(k, v)]
  | (k', v') :: rest =>
      if String.eqb k' k then (k', v) :: rest else (k', v') :: set rest k v
  end.

(** [array.sort(cmp)]: a stable sort, [cmp a b > 0] placing [b] first. *)
Fixpoint sort_insert {A} (cmp : A -> A -> Z) (x : A) (l : list A) : list A :=
  match l with
  | [] => [x]
  | y :: rest =>
      if cmp x y >? 0 then y :: sort_insert cmp x rest else x :: y :: rest
  end.

Fixpoint sort {A} (cmp : A -> A -> Z) (l : list A) : list A :=
  match l with
  | [] => []
  | x :: rest => sort_insert cmp x (sort cmp rest)
  end.

Definition parse_digits (k : string) : option N :=
  fold_left (fun acc c =>
               match acc with
               | Some n =>
                   if (Ascii.leb "0" c && Ascii.leb c "9")%char
                   then Some (n * 10 + (N_of_ascii c - 48))%N
                   else None
               | None => None
               end)
            (list_ascii_of_string k) (Some 0%N).

(** The array index a property key denotes: a canonical decimal numeral
    below 2^32 - 1. *)
Definition array_index (k : string) : option N :=
  match parse_digits k with
  | Some n =>
      if String.eqb (pretty n) k && (n <? 4294967295)%N then Some n else None
  | None => None
  end.

Definition is_index (kv : string * Z) : bool :=
  match array_index (fst kv) with
  | Some _ => true
  | None => false
  end.

Definition index_cmp (a b : string * Z) : Z :=
  Z.of_N (default 0%N (array_index (fst a)))
  - Z.of_N (default 0%N (array_index (fst b))).

(** [Object.entries(o)]: array-index keys in ascending order, then the
    other keys in creation order. *)
Definition entries (o : Counts) : list (string * Z) :=
  sort index_cmp (List.filter is_index o)
  ++ List.filter (fun kv => negb (is_index kv)) o.

End JS.

(** ** Rate limiter (lambda/shared/rate-limiter) *)

Module RateLimiter.

Inductive Role := free | premium | admin.
Inductive Action := create | redirect | analytics.

Record Limit := { requests : Z; window : Z }.

Definition RATE_LIMITS (role : Role) (action : Action) : Limit :=
  match role, action with
  | free, create => {| requests := 10; window := 3600 |}
  | free, redirect => {| requests := 1000; window := 3600 |}
  | free, analytics => {| requests := 50; window := 3600 |}
  | premium, create => {| requests := 100; window := 3600 |}
  | premium, redirect => {| requests := 10000; window := 3600 |}
  | premium, analytics => {| requests := 500; window := 3600 |}
  | admin, create => {| requests := 1000; window := 3600 |}
  | admin, redirect => {| requests := 100000; window := 3600 |}
  | admin, analytics => {| requests := 5000; window := 3600 |}
  end.

Record RateLimitResult := {
  allowed : bool;
  remaining : Z;
  resetTime : Z;
  retryAfter : option Z
}.

Record RateLimitOptions := {
  identifier : string;
  action : Action;
  userRole : option Role;
  increment : option Z
}.

(** One row of the rate-limit table. *)
Record CounterItem := {
  requestCount : Z;
  ttl : Z;
  windowStart : Z;
  windowEnd : Z
}.

(** Whether the store round trip of a call is fulfilled or rejected. *)
Inductive SendOutcome := Fulfilled | Rejected.

Definition action_name (a : Action) : string :=
  match a with
  | create => "create"
  | redirect => "redirect"
  | analytics => "analytics"
  end.

(** [Math.floor(Date.now() / 1000)]. *)
Definition now_seconds (nowMs : Z) : Z := nowMs / 1000.

Definition window_start (lim : Limit) (now : Z) : Z :=
  now - Z.rem now (window lim).

Definition partitionKey (identifier : string) (a : Action) (ws : Z) : string :=
  identifier +:+ ":" +:+ action_name a +:+ ":" +:+ pretty ws.

(** [UpdateItem] with [ADD requestCount :increment SET ttl, windowStart,
    windowEnd] and [ReturnValues: 'ALL_NEW']: one atomic round trip that
    creates the row when it is absent and returns the row as written. *)
Definition UpdateItem_ADD (tbl : gmap string CounterItem) (pk : string)
    (inc ttl' ws we : Z) : CounterItem * gmap string CounterItem :=
  let old := match tbl !! pk with Some it => requestCount it | None => 0 end in
  let it := {| requestCount := old + inc; ttl := ttl';
               windowStart := ws; windowEnd := we |} in
  (it, <[pk := it]> tbl).

(** [checkRateLimit(options)] at clock reading [nowMs], on table [tbl]:
    the result and the table it leaves.  Everything from [marshall] on is
    inside the [try], whose [catch] fails open: an increment [marshall]
    refuses is caught before anything is sent, and a count that comes back
    as a [BigInt] is caught when it is subtracted from the quota, after
    the store has added the increment. *)
Definition checkRateLimit (tbl : gmap string CounterItem) (nowMs : Z)
    (send : SendOutcome) (options : RateLimitOptions)
    : RateLimitResult * gmap string CounterItem :=
  let role := default free (userRole options) in
  let inc := default 1 (increment options) in
  let limit := RATE_LIMITS role (action options) in
  let now := now_seconds nowMs in
  let ws := window_start limit now in
  let we := ws + window limit in
  let pk := partitionKey (identifier options) (action options) ws in
  let fail_open := {| allowed := true; remaining := requests limit;
                      resetTime := we; retryAfter := None |} in
  if negb (JS.is_safe_integer inc) then (fail_open, tbl)
  else
    match send with
    | Fulfilled =>
        let '(item, tbl') := UpdateItem_ADD tbl pk inc (we + 86400) ws we in
        if negb (JS.is_safe_integer (requestCount item)) then (fail_open, tbl')
        else
          let currentCount := JS.or_num (Some (requestCount item)) 0 in
          let allowed := currentCount <=? requests limit in
          let remaining := Z.max 0 (requests limit - currentCount) in
          ({| allowed := allowed; remaining := remaining; resetTime := we;
              retryAfter := if allowed then None else Some (we - now) |}, tbl')
    | Rejected => (fail_open, tbl)
    end.

(** [getRateLimitStatus]: a read that does not increment.  Its [catch]
    returns the optimistic values, also for a stored count that comes back
    as a [BigInt]. *)
Definition getRateLimitStatus (tbl : gmap string CounterItem) (nowMs : Z)
    (send : SendOutcome) (options : RateLimitOptions) : RateLimitResult :=
  let role := default free (userRole options) in
  let limit := RATE_LIMITS role (action options) in
  let now := now_seconds nowMs in
  let ws := window_start limit now in
  let we := ws + window limit in
  let pk := partitionKey (identifier options) (action options) ws in
  let optimistic := {| allowed := true; remaining := requests limit;
                       resetTime := we; retryAfter := None |} in
  match send with
  | Fulfilled =>
      let stored := requestCount <$> tbl !! pk in
      if negb (JS.is_safe_integer (default 0 stored)) then optimistic
      else
        let currentCount := JS.or_num stored 0 in
        let allowed := currentCount <? requests limit in
        {| allowed := allowed;
           remaining := Z.max 0 (requests limit - currentCount);
           resetTime := we;
           retryAfter := if allowed then None else Some (we - now) |}
  | Rejected => optimistic
  end.

(** A sequence of calls by one caller, each at its own clock reading; the
    store applies the increments one after the other. *)
Fixpoint checkRateLimit_all (tbl : gmap string CounterItem)
    (options : RateLimitOptions) (clock : list Z)
    : list RateLimitResult * gmap string CounterItem :=
  match clock with
  | [] => ([], tbl)
  | nowMs :: rest =>
      let '(r, tbl1) := checkRateLimit tbl nowMs Fulfilled options in
      let '(rs, tbl2) := checkRateLimit_all tbl1 options rest in
      (r :: rs, tbl2)
  end.

End RateLimiter.

(** ** Strings *)

Module Text.

Definition is_upper (c : ascii) : bool := (Ascii.leb "A" c && Ascii.leb c "Z")%char.
Definition is_lower (c : ascii) : bool := (Ascii.leb "a" c && Ascii.leb c "z")%char.
Definition is_digit (c : ascii) : bool := (Ascii.leb "0" c && Ascii.leb c "9")%char.

(** The upper-case letters of the Latin-1 supplement: U+00C0 to U+00DE
    without the multiplication sign U+00D7. *)
Definition is_upper_latin1 (c : ascii) : bool :=
  (Ascii.leb "192" c && Ascii.leb c "222")%char && negb (Ascii.eqb c "215").

Definition lower_char (c : ascii) : ascii :=
  if is_upper c || is_upper_latin1 c then ascii_of_nat (nat_of_ascii c + 32)
  else c.

(** [s.toLowerCase()].  A string here holds code units below 256, which
    are lower-cased one by one; code units above them, some of which have
    a lower-case form below 128 (U+212A, the Kelvin sign, becomes [k]),
    are not represented. *)
Fixpoint toLowerCase (s : string) : string :=
  match s with
  | EmptyString => EmptyString
  | String c r => String (lower_char c) (toLowerCase r)
  end.

Definition startsWith (s p : string) : bool := String.prefix p s.

(** [s.includes(needle)]. *)
Definition includes (s needle : string) : bool :=
  match String.index 0 needle s with
  | Some _ => true
  | None => false
  end.

Definition chars (s : string) : list ascii := list_ascii_of_string s.

(** [s.length] as a number. *)
Definition len (s : string) : Z := Z.of_nat (String.length s).

(** [s.split(' ')]. *)
Fixpoint split_space_aux (cur : string) (s : string) : list string :=
  match s with
  | EmptyString => [cur]
  | String c r =>
      if Ascii.eqb c " " then cur :: split_space_aux EmptyString r
      else split_space_aux (cur +:+ String c EmptyString) r
  end.
Definition split_space (s : string) : list string := split_space_aux EmptyString s.

(** [parts.join(' ')]. *)
Definition join_space (parts : list string) : string := String.concat " " parts.

End Text.

(** ** What the handlers take from their runtime *)

(** The parts of a WHATWG [URL] the handlers read. *)
Record URL := { hostname : string; origin : string }.

(** What [ua-parser-js] reports for a user agent. *)
Record UAResult := {
  ua_browser_name : option string;
  ua_browser_version : option string;
  ua_os_name : option string;
  ua_os_version : option string;
  ua_device_type : option string
}.

(** Library functions and process environment of the Lambda runtime.  They
    are not part of the repository; the handlers are modelled over any
    implementation of them. *)
Class Runtime := {
  (** [createHash('sha256').update(s).digest('hex')] *)
  sha256_hex : string -> string;
  (** [new URL(s)]; [None] when the constructor throws *)
  URL_parse : string -> option URL;
  (** [new UAParser(ua).getResult()]; [None] when it throws *)
  UAParser_getResult : option string -> option UAResult;
  (** [process.env.CUSTOM_DOMAIN || process.env.API_DOMAIN] *)
  env_domain : string;
  (** [process.env.IP_SALT || 'default-salt-change-in-production'] *)
  env_ip_salt : string
}.

(** ** Shared validation schemas (lambda/shared/validation) *)

Module Validation.

Definition is_code_char (c : ascii) : bool :=
  Text.is_lower c || Text.is_upper c || Text.is_digit c
  || Ascii.eqb c "-" || Ascii.eqb c "_".

(** [/^[a-zA-Z0-9-_]{3,20}$/.test(code)] *)
Definition code_pattern (code : string) : bool :=
  forallb is_code_char (Text.chars code)
  && (3 <=? Text.len code) && (Text.len code <=? 20).

Definition reservedWords : list string :=
  [ "api"; "www"; "admin"; "root"; "help"; "support"; "contact";
    "about"; "terms"; "privacy"; "login"; "signup"; "auth";
    "health"; "status"; "metrics"; "analytics"; "dashboard";
    "docs"; "documentation"; "blog"; "news"; "static"; "assets";
    "public"; "private"; "test"; "staging"; "dev"; "prod";
    "null"; "undefined"; "true"; "false"; "delete"; "remove" ].

(** [reservedWords.includes(code.toLowerCase())] *)
Definition is_reserved (code : string) : bool :=
  existsb (String.eqb (Text.toLowerCase code)) reservedWords.

(** Issues [ShortCodeSchema] raises for [code], in order. *)
Definition ShortCodeSchema (code : string) : list string :=
  (if code_pattern code then []
   else ["Short code must be 3-20 characters, alphanumeric, hyphens, or underscores only"])
  ++ (if negb (is_reserved code) then []
      else ["Short code cannot be a reserved word"]).

(** [ValidationHelper.validateShortCode(code).isValid] *)
Definition validateShortCode (code : string) : bool :=
  match ShortCodeSchema code with
  | [] => true
  | _ => false
  end.

End Validation.

(** ** Identifier generator (nanoid's [customAlphabet]) *)

Module Nanoid.

(** [(2 << (31 - Math.clz32((n - 1) | 1))) - 1] *)
Definition mask_of (n : Z) : Z :=
  Z.shiftl 2 (Z.log2 (Z.lor (n - 1) 1)) - 1.

(** [Math.ceil((1.6 * mask * size) / n)], in exact arithmetic (15 for the
    56 symbols and 8 characters used here, as in binary64). *)
Definition step_of (mask size n : Z) : nat :=
  Z.to_nat ((16 * mask * size + 10 * n - 1) / (10 * n)).

(** [alphabet[k] || ''] *)
Definition pick (alphabet : string) (k : Z) : string :=
  match String.get (Z.to_nat k) alphabet with
  | Some c => String c EmptyString
  | None => EmptyString
  end.

Section Generator.
Variable alphabet : string.
Variable size : nat.

Let mask : Z := mask_of (Text.len alphabet).

(** One pass over a batch of random bytes, from its last byte down:
    [inl id] when the identifier is complete, [inr id] with what has
    been gathered otherwise. *)
Fixpoint scan (i : nat) (bytes : list Z) (id : string) : string + string :=
  match i with
  | O => inr id
  | S i' =>
      let id' := id +:+ pick alphabet (Z.land (nth i' bytes 0) mask) in
      if Nat.eqb (String.length id') size then inl id'
      else scan i' bytes id'
  end.

(** The generator draws batches of [step] bytes until the identifier is
    complete; [None] when the batches it is given do not suffice. *)
Fixpoint draw (batches : list (list Z)) (id : string)
    : option string * list (list Z) :=
  match batches with
  | [] => (None, [])
  | bytes :: rest =>
      match scan (step_of mask (Z.of_nat size) (Text.len alphabet)) bytes id with
      | inl done => (Some done, rest)
      | inr id' => draw rest id'
      end
  end.

Definition customAlphabet (batches : list (list Z))
    : option string * list (list Z) :=
  draw batches EmptyString.
End Generator.

End Nanoid.

(** ** DynamoDB tables and the handler monad *)

Module Store.

Record Metadata := { title : string; description : string; favicon : string }.

(** An item of the Links table as a handler holds it after [unmarshall]:
    the table is schemaless and reads are projected, so any attribute may
    be missing. *)
Record LinkItem := {
  shortCode : option string;
  originalUrl : option string;
  originalUrlHash : option string;
  createdAt : option Z;
  expiresAt : option Z;
  userId : option string;
  clickCount : option Z;
  lastClickAt : option Z;
  isCustom : option bool;
  metadata : option Metadata
}.

Inductive EventType := SUCCESS | NOT_FOUND | EXPIRED.

(** A row of the Analytics table, keyed by [(shortCode, timestamp)]. *)
Record AnalyticsItem := {
  a_shortCode : string;
  a_timestamp : Z;
  a_eventType : EventType;
  a_userAgent : string;
  a_referer : string;
  a_ipHash : string;
  a_browser : option string;
  a_browserVersion : option string;
  a_os : option string;
  a_osVersion : option string;
  a_device : option string;
  a_country : string;
  a_hourPartition : string;
  a_expiresAt : Z
}.

(** Attributes a secondary index carries. *)
Inductive ProjectionType := KEYS_ONLY | ALL.

(** The projection of [OriginalUrlIndex] in lib/database-stack.ts and in
    local/setup-dynamodb.ts. *)
Definition OriginalUrlIndex_projectionType : ProjectionType := KEYS_ONLY.

(** How one round trip to the store ends: it answers, it rejects with an
    error, or it answers after another request's conditional put of
    [winner] has landed. *)
Inductive Outcome :=
| Answers
| Rejects (e : JS.Error)
| Raced (winner : LinkItem).

Record Reply := { latency : Z; outcome : Outcome }.

Record World := {
  links : list LinkItem;
  urlIndexProjection : ProjectionType;
  analytics : list AnalyticsItem;
  clock : Z;
  script : list Reply;
  entropy : list (list Z)
}.

Definition with_links (l : list LinkItem) (w : World) : World :=
  {| links := l; urlIndexProjection := urlIndexProjection w;
     analytics := analytics w; clock := clock w; script := script w;
     entropy := entropy w |}.

Definition with_analytics (a : list AnalyticsItem) (w : World) : World :=
  {| links := links w; urlIndexProjection := urlIndexProjection w;
     analytics := a; clock := clock w; script := script w;
     entropy := entropy w |}.

Definition with_clock (t : Z) (w : World) : World :=
  {| links := links w; urlIndexProjection := urlIndexProjection w;
     analytics := analytics w; clock := t; script := script w;
     entropy := entropy w |}.

Definition with_script (sc : list Reply) (w : World) : World :=
  {| links := links w; urlIndexProjection := urlIndexProjection w;
     analytics := analytics w; clock := clock w; script := sc;
     entropy := entropy w |}.

Definition with_entropy (e : list (list Z)) (w : World) : World :=
  {| links := links w; urlIndexProjection := urlIndexProjection w;
     analytics := analytics w; clock := clock w; script := script w;
     entropy := e |}.

(** What an [async] block comes to: a value, a thrown error, or no result
    because the random source never yields enough usable bytes. *)
Inductive Result (A : Type) :=
| Ok (a : A)
| Err (e : JS.Error)
| Starved.
Arguments Ok {A} a.
Arguments Err {A} e.
Arguments Starved {A}.

Definition M (A : Type) : Type := World -> Result A * World.

Definition ret {A} (a : A) : M A := fun w => (Ok a, w).

Definition throw {A} (e : JS.Error) : M A := fun w => (Err e, w).

Definition bind {A B} (m : M A) (k : A -> M B) : M B := fun w =>
  match m w with
  | (Ok a, w') => k a w'
  | (Err e, w') => (Err e, w')
  | (Starved, w') => (Starved, w')
  end.

(** [try { m } catch (error) { h error }] *)
Definition try_catch {A} (m : M A) (h : JS.Error -> M A) : M A := fun w =>
  match m w with
  | (Err e, w') => h e w'
  | r => r
  end.

Definition lift {A} (c : JS.Completion A) : M A :=
  match c with
  | JS.Normal a => ret a
  | JS.Throw e => throw e
  end.

(** [Date.now()] *)
Definition Date_now : M Z := fun w => (Ok (clock w), w).

Declare Scope handler_scope.
Delimit Scope handler_scope with handler.
Notation "'let*' x ':=' m 'in' k" := (bind m (fun x => k))
  (at level 10, x name, m at level 100, k at level 200) : handler_scope.
Notation "'let*' ' pat ':=' m 'in' k" :=
  (bind m (fun x => match x with pat => k end))
  (at level 10, pat pattern, m at level 100, k at level 200) : handler_scope.

Definition has_code (code : string) (it : LinkItem) : bool :=
  match shortCode it with
  | Some c => String.eqb c code
  | None => false
  end.

Definition has_hash (hash : string) (it : LinkItem) : bool :=
  match originalUrlHash it with
  | Some h => String.eqb h hash
  | None => false
  end.

(** A put guarded by [attribute_not_exists(shortCode)]: [None] when the
    condition fails. *)
Definition put_if_absent (it : LinkItem) (tbl : list LinkItem)
    : option (list LinkItem) :=
  if existsb (fun row => match shortCode it with
                         | Some c => has_code c row
                         | None => false
                         end) tbl
  then None
  else Some (tbl ++ [it]).

(** The reply the next round trip gets: the head of the script, or a
    prompt answer once the script is exhausted. *)
Definition next_reply (w : World) : Reply :=
  match script w with
  | [] => {| latency := 0; outcome := Answers |}
  | r :: _ => r
  end.

(** The world once that reply has arrived: the clock has advanced by its
    latency. *)
Definition after_reply (w : World) : World :=
  with_clock (clock w + latency (next_reply w)) (with_script (tail (script w)) w).

(** One round trip: the next reply decides how it ends. *)
Definition send {A} (op : M A) : M A := fun w =>
  let w1 := after_reply w in
  match outcome (next_reply w) with
  | Answers => op w1
  | Rejects e => (Err e, w1)
  | Raced winner =>
      op (with_links (default (links w1) (put_if_absent winner (links w1))) w1)
  end.

Definition keys_only (it : LinkItem) : LinkItem :=
  {| shortCode := shortCode it; originalUrl := None;
     originalUrlHash := originalUrlHash it; createdAt := None;
     expiresAt := None; userId := None; clickCount := None;
     lastClickAt := None; isCustom := None; metadata := None |}.

Definition index_view (p : ProjectionType) (it : LinkItem) : LinkItem :=
  match p with
  | KEYS_ONLY => keys_only it
  | ALL => it
  end.

(** [GetItemCommand] on the Links table with a projection expression. *)
Definition GetItem (code : string) (keep : LinkItem -> LinkItem)
    : M (option LinkItem) :=
  send (fun w => (Ok (keep <$> List.find (has_code code) (links w)), w)).

(** [QueryCommand] on [OriginalUrlIndex] with [Limit: 1]: the first item
    of the index under that hash, with the attributes the index carries. *)
Definition Query_OriginalUrlIndex (hash : string) : M (list LinkItem) :=
  send (fun w =>
    (Ok match List.find (has_hash hash) (links w) with
        | Some it => [index_view (urlIndexProjection w) it]
        | None => []
        end, w)).

(** [PutItemCommand] on the Links table with
    [ConditionExpression: 'attribute_not_exists(shortCode)']. *)
Definition PutItem_Links (it : LinkItem) : M unit :=
  send (fun w =>
    match put_if_absent it (links w) with
    | Some tbl => (Ok tt, with_links tbl w)
    | None =>
        (Err (JS.NamedError "ConditionalCheckFailedException"
                "The conditional request failed"), w)
    end).

Definition same_key (x y : AnalyticsItem) : bool :=
  String.eqb (a_shortCode x) (a_shortCode y) && (a_timestamp x =? a_timestamp y).

(** [PutItemCommand] on the Analytics table: the row replaces the one
    with its key, if any. *)
Definition PutItem_Analytics (it : AnalyticsItem) : M unit :=
  send (fun w =>
    (Ok tt,
     with_analytics
       (List.filter (fun x => negb (same_key it x)) (analytics w) ++ [it]) w)).

Definition add_click (ts : Z) (it : LinkItem) : LinkItem :=
  {| shortCode := shortCode it; originalUrl := originalUrl it;
     originalUrlHash := originalUrlHash it; createdAt := createdAt it;
     expiresAt := expiresAt it; userId := userId it;
     clickCount := Some (default 0 (clickCount it) + 1);
     lastClickAt := Some ts; isCustom := isCustom it;
     metadata := metadata it |}.

Definition blank_item (code : string) : LinkItem :=
  {| shortCode := Some code; originalUrl := None; originalUrlHash := None;
     createdAt := None; expiresAt := None; userId := None;
     clickCount := None; lastClickAt := None; isCustom := None;
     metadata := None |}.

(** [UpdateItemCommand] with [ADD clickCount :inc SET lastClickAt =
    :timestamp]; an update of a missing key creates the row. *)
Definition UpdateItem_click (code : string) (ts : Z) : M unit :=
  send (fun w =>
    (Ok tt,
     with_links
       (if existsb (has_code code) (links w)
        then map (fun it => if has_code code it then add_click ts it else it) (links w)
        else links w ++ [add_click ts (blank_item code)]) w)).

End Store.

(** ** Link creation (lambda/create) *)

Module Create.
Import Store.
Local Open Scope handler_scope.

(** The alphabet handed to [customAlphabet]. *)
Definition alphabet : string :=
  "23456789ABCDEFGHJKLMNPQRSTUVWXYZabcdefghijkmnpqrstuvwxyz".

(** [generateShortCode = customAlphabet(alphabet, 8)] *)
Definition generateShortCode : M string := fun w =>
  match Nanoid.customAlphabet alphabet 8 (entropy w) with
  | (Some id, rest) => (Ok id, with_entropy rest w)
  | (None, rest) => (Starved, with_entropy rest w)
  end.

(** The JSON object of a request body; a property is present with the
    type the schema expects, or absent. *)
Record CreateRequest := {
  url : option string;
  customCode : option string;
  expiresIn : option Z;
  userId : option string
}.

(** [event.body]: missing (or empty), not JSON, or a JSON object. *)
Inductive EventBody :=
| NoBody
| BadJson
| JsonBody (r : CreateRequest).

Record Validated := {
  v_url : string;
  v_customCode : option string;
  v_expiresIn : option Z;
  v_userId : option string
}.

Record CreateData := {
  d_shortCode : option string;
  d_shortUrl : string;
  d_originalUrl : option string;
  d_created : bool;
  d_createdAt : JS.ISOString;
  d_clickCount : Z;
  d_expiresAt : option JS.ISOString;
  d_metadata : option Metadata
}.

(** The JSON document of a response body. *)
Inductive Body :=
| SuccessBody (data : CreateData)
| ErrorBody (message : string) (code : Z).

Record Response := {
  statusCode : Z;
  headers : list (string * string);
  body : Body
}.

Definition createSuccessResponse (data : CreateData) : Response :=
  {| statusCode := 201;
     headers := [ ("Content-Type", "application/json");
                  ("Access-Control-Allow-Origin", "*");
                  ("Access-Control-Allow-Methods", "POST, OPTIONS");
                  ("Access-Control-Allow-Headers", "Content-Type") ];
     body := SuccessBody data |}.

Definition createErrorResponse (code : Z) (message : string) : Response :=
  {| statusCode := code;
     headers := [ ("Content-Type", "application/json");
                  ("Access-Control-Allow-Origin", "*") ];
     body := ErrorBody message code |}.

Definition code_regex (code : string) : bool := Validation.code_pattern code.

Section WithRuntime.
Context `{RT : Runtime}.

Definition parses (u : string) : bool :=
  match URL_parse u with
  | Some _ => true
  | None => false
  end.

(** Issues of the [url] property, in the order the checks are declared. *)
Definition url_issues (u : option string) : list string :=
  match u with
  | None => ["Required"]
  | Some u =>
      (if parses u then [] else ["Invalid URL format"])
      ++ (if 10 <=? Text.len u then [] else ["URL must be at least 10 characters"])
      ++ (if Text.len u <=? 2048 then [] else ["URL must be less than 2048 characters"])
      ++ (if Text.startsWith u "http://" || Text.startsWith u "https://" then []
          else ["URL must start with http:// or https://"])
  end.

Definition customCode_issues (c : option string) : list string :=
  match c with
  | None => []
  | Some c =>
      if code_regex c then []
      else ["Custom code must be 3-20 characters, alphanumeric, hyphens, or underscores only"]
  end.

Definition expiresIn_issues (e : option Z) : list string :=
  match e with
  | None => []
  | Some e =>
      (if 3600 <=? e then [] else ["Minimum expiration is 1 hour"])
      ++ (if e <=? 31536000 then [] else ["Maximum expiration is 1 year"])
  end.

(** [CreateLinkSchema.parse(requestBody)] of this handler: the URL checks,
    the custom-code pattern and the expiry bounds. *)
Definition CreateLinkSchema (r : CreateRequest) : JS.Completion Validated :=
  match url_issues (url r) ++ customCode_issues (customCode r)
        ++ expiresIn_issues (expiresIn r) with
  | [] =>
      JS.Normal {| v_url := default EmptyString (url r);
                   v_customCode := customCode r;
                   v_expiresIn := expiresIn r;
                   v_userId := userId r |}
  | issues => JS.Throw (JS.ZodError issues)
  end.

Definition createUrlHash (u : string) : string := sha256_hex u.

Definition createShortUrl (code : option string) : string :=
  "https://" +:+ env_domain +:+ "/" +:+ default "undefined" code.

(** The duplicate-URL lookup: the first item of the index under the hash,
    unless it has expired; [null] on any store error. *)
Definition findExistingLink (urlHash : string) : M (option LinkItem) :=
  try_catch
    (let* items := Query_OriginalUrlIndex urlHash in
     match items with
     | item :: _ =>
         if negb (JS.truthy_num (expiresAt item))
         then ret (Some item)
         else
           let* now := Date_now in
           if default 0 (expiresAt item) >? now then ret (Some item)
           else ret None
     | [] => ret None
     end)
    (fun _ => ret None).

Definition only_shortCode (it : LinkItem) : LinkItem :=
  {| shortCode := shortCode it; originalUrl := None; originalUrlHash := None;
     createdAt := None; expiresAt := None; Store.userId := None;
     clickCount := None; lastClickAt := None; isCustom := None;
     metadata := None |}.

(** The existence probe: a read of the code; [true] on any store error. *)
Definition checkShortCodeExists (code : string) : M bool :=
  try_catch
    (let* item := GetItem code only_shortCode in
     ret (match item with Some _ => true | None => false end))
    (fun _ => ret true).

(** The [for] loop of [generateUniqueShortCode] with [attempts] rounds
    left. *)
Fixpoint generateUniqueShortCode_from (attempts : nat) : M string :=
  match attempts with
  | O =>
      throw (JS.NamedError "Error"
               "Failed to generate unique short code after maximum attempts")
  | S rest =>
      let* code := generateShortCode in
      let* taken := checkShortCodeExists code in
      if taken then generateUniqueShortCode_from rest else ret code
  end.

(** [generateUniqueShortCode(maxAttempts = 5)] *)
Definition generateUniqueShortCode : M string := generateUniqueShortCode_from 5.

Definition skipDomains : list string :=
  [ "api."; "cdn."; "s3.amazonaws.com"; "storage.googleapis.com";
    "github.com/raw" ].

Definition shouldFetchMetadata (u : string) : bool :=
  match URL_parse u with
  | Some parsed =>
      negb (existsb (fun domain => Text.includes (Text.toLowerCase (hostname parsed)) domain)
                    skipDomains)
  | None => false
  end.

Definition fetchUrlMetadata (u : string) : JS.Completion Metadata :=
  match URL_parse u with
  | Some parsed =>
      JS.Normal {| title := "Web Page"; description := "A web page";
                   favicon := origin parsed +:+ "/favicon.ico" |}
  | None => JS.Throw (JS.NamedError "TypeError" "Invalid URL")
  end.

(** The response for a URL that already has a link. *)
Definition existing_response (existingLink : LinkItem) : M Response :=
  let* created := lift (JS.Date_toISOString (createdAt existingLink)) in
  ret (createSuccessResponse
         {| d_shortCode := shortCode existingLink;
            d_shortUrl := createShortUrl (shortCode existingLink);
            d_originalUrl := originalUrl existingLink;
            d_created := false;
            d_createdAt := created;
            d_clickCount := JS.or_num (clickCount existingLink) 0;
            d_expiresAt := None;
            d_metadata := None |}).

(** The rest of the [try] block once the short code is fixed: build the
    item, write it under the not-exists condition, answer. *)
Definition create_link (v : Validated) (urlHash code : string) (custom : bool)
    : M Response :=
  let* now := Date_now in
  let expires :=
    if JS.truthy_num (v_expiresIn v)
    then Some (now + default 0 (v_expiresIn v) * 1000) else None in
  let meta :=
    if shouldFetchMetadata (v_url v)
    then match fetchUrlMetadata (v_url v) with
         | JS.Normal m => Some m
         | JS.Throw _ => None
         end
    else None in
  let linkItem :=
    {| shortCode := Some code; originalUrl := Some (v_url v);
       originalUrlHash := Some urlHash; createdAt := Some now;
       expiresAt := expires;
       Store.userId := if JS.truthy_str (v_userId v) then v_userId v else None;
       clickCount := Some 0; lastClickAt := None; isCustom := Some custom;
       metadata := meta |} in
  let* _ := PutItem_Links linkItem in
  let* created := lift (JS.Date_toISOString (Some now)) in
  let* expiresIso :=
    (if JS.truthy_num expires
     then let* iso := lift (JS.Date_toISOString expires) in ret (Some iso)
     else ret None) in
  ret (createSuccessResponse
         {| d_shortCode := Some code;
            d_shortUrl := createShortUrl (Some code);
            d_originalUrl := Some (v_url v);
            d_created := true;
            d_createdAt := created;
            d_clickCount := 0;
            d_expiresAt := expiresIso;
            d_metadata := meta |}).

(** The [try] block of the handler. *)
Definition try_block (event_body : EventBody) : M Response :=
  match event_body with
  | NoBody => ret (createErrorResponse 400 "Request body is required")
  | BadJson => throw (JS.NamedError "SyntaxError" "Unexpected token in JSON")
  | JsonBody requestBody =>
      let* v := lift (CreateLinkSchema requestBody) in
      let urlHash := createUrlHash (v_url v) in
      let* existingLink := findExistingLink urlHash in
      match existingLink with
      | Some link => existing_response link
      | None =>
          if JS.truthy_str (v_customCode v)
          then
            let code := default EmptyString (v_customCode v) in
            let* customExists := checkShortCodeExists code in
            if customExists
            then ret (createErrorResponse 409 "Custom short code already exists")
            else create_link v urlHash code true
          else
            let* code := generateUniqueShortCode in
            create_link v urlHash code false
      end
  end.

(** The [catch] block of the handler. *)
Definition on_error (error : JS.Error) : M Response :=
  match error with
  | JS.ZodError issues =>
      ret (createErrorResponse 400 (default "undefined" (head issues)))
  | JS.NamedError name _ =>
      if String.eqb name "ConditionalCheckFailedException"
      then ret (createErrorResponse 409 "Short code already exists")
      else ret (createErrorResponse 500 "Internal server error")
  end.

(** The create handler: [try { ... } catch (error) { ... }]. *)
Definition handler (event_body : EventBody) : M Response :=
  try_catch (try_block event_body) on_error.

End WithRuntime.

End Create.

(** ** Redirect resolution and click recording (lambda/redirect) *)

Module Redirect.
Import Store.
Local Open Scope handler_scope.

(** What the handler reads of the API Gateway event. *)
Record Event := {
  pathShortCode : option string;
  header_User_Agent : option string;
  header_Referer : option string;
  header_referer : option string;
  sourceIp : option string
}.

Record AnalyticsEvent := {
  e_shortCode : string;
  e_timestamp : Z;
  e_userAgent : option string;
  e_referer : option string;
  e_ip : option string;
  e_eventType : EventType
}.

Inductive Body :=
| EmptyBody
| NotFoundPage (shortCode : string)
| ExpiredPage
| ErrorBody (message : string) (code : Z).

Record Response := {
  statusCode : Z;
  headers : list (string * string);
  body : Body
}.

Definition createNotFoundResponse (code : string) : Response :=
  {| statusCode := 404;
     headers := [ ("Content-Type", "text/html; charset=utf-8");
                  ("Cache-Control", "no-cache, no-store, must-revalidate");
                  ("X-Short-Code", code) ];
     body := NotFoundPage code |}.

Definition createExpiredResponse : Response :=
  {| statusCode := 410;
     headers := [ ("Content-Type", "text/html; charset=utf-8");
                  ("Cache-Control", "no-cache, no-store, must-revalidate") ];
     body := ExpiredPage |}.

Definition createErrorResponse (code : Z) (message : string) : Response :=
  {| statusCode := code;
     headers := [ ("Content-Type", "application/json");
                  ("Access-Control-Allow-Origin", "*") ];
     body := ErrorBody message code |}.

(** [a || b] on two possibly missing header values. *)
Definition or_header (a b : option string) : option string :=
  if JS.truthy_str a then a else b.

Definition redirect_projection (it : LinkItem) : LinkItem :=
  {| shortCode := None; originalUrl := originalUrl it; originalUrlHash := None;
     createdAt := None; expiresAt := expiresAt it; userId := None;
     clickCount := clickCount it; lastClickAt := lastClickAt it;
     isCustom := None; metadata := None |}.

Section WithRuntime.
Context `{RT : Runtime}.

Definition hashIP (ip : string) : string :=
  String.substring 0 16 (sha256_hex (ip +:+ env_ip_salt)).

Definition getCountryFromIP (ip : option string) : string :=
  if JS.truthy_str ip then "US" else "unknown".

(** The item [trackAnalytics] builds at clock reading [timestamp], which
    it reads on entry. *)
Definition analyticsItem (event : AnalyticsEvent) (timestamp : Z) : AnalyticsItem :=
  let deviceInfo := UAParser_getResult (e_userAgent event) in
  {| a_shortCode := e_shortCode event;
     a_timestamp := timestamp;
     a_eventType := e_eventType event;
     a_userAgent := JS.or_str (e_userAgent event) "unknown";
     a_referer := JS.or_str (e_referer event) "direct";
     a_ipHash := if JS.truthy_str (e_ip event)
                 then hashIP (default EmptyString (e_ip event)) else "unknown";
     a_browser := (fun r => JS.or_str (ua_browser_name r) "unknown") <$> deviceInfo;
     a_browserVersion := (fun r => JS.or_str (ua_browser_version r) "unknown") <$> deviceInfo;
     a_os := (fun r => JS.or_str (ua_os_name r) "unknown") <$> deviceInfo;
     a_osVersion := (fun r => JS.or_str (ua_os_version r) "unknown") <$> deviceInfo;
     a_device := (fun r => JS.or_str (ua_device_type r) "desktop") <$> deviceInfo;
     a_country := getCountryFromIP (e_ip event);
     a_hourPartition := e_shortCode event +:+ "#" +:+ pretty (timestamp / (1000 * 60 * 60));
     a_expiresAt := timestamp / 1000 + 90 * 24 * 60 * 60 |}.

(** The write of [trackAnalytics]: a store error is logged and dropped. *)
Definition storeAnalytics (item : AnalyticsItem) : M unit :=
  try_catch (PutItem_Analytics item) (fun _ => ret tt).

Definition trackAnalytics (event : AnalyticsEvent) : M unit :=
  let* timestamp := Date_now in
  storeAnalytics (analyticsItem event timestamp).

Definition updateClickCount (code : string) : M unit :=
  try_catch
    (let* now := Date_now in UpdateItem_click code now)
    (fun _ => ret tt).

(** [Location: linkItem.originalUrl]: a header whose value is [undefined]
    is not part of the response the runtime serialises. *)
Definition location_header (originalUrl : option string) : list (string * string) :=
  match originalUrl with
  | Some u => [ ("Location", u) ]
  | None => []
  end.

Definition analytics_event (event : Event) (code : string) (now : Z)
    (type : EventType) : AnalyticsEvent :=
  {| e_shortCode := code; e_timestamp := now;
     e_userAgent := header_User_Agent event;
     e_referer := or_header (header_Referer event) (header_referer event);
     e_ip := sourceIp event;
     e_eventType := type |}.

(** The redirect handler. *)
Definition handler (event : Event) : M Response :=
  let* startTime := Date_now in
  if negb (JS.truthy_str (pathShortCode event))
  then ret (createErrorResponse 400 "Short code is required")
  else
    let code := default EmptyString (pathShortCode event) in
    try_catch
      (let* item := GetItem code redirect_projection in
       match item with
       | None =>
           let* now := Date_now in
           let* _ := trackAnalytics (analytics_event event code now NOT_FOUND) in
           ret (createNotFoundResponse code)
       | Some linkItem =>
           let* now := Date_now in
           if JS.truthy_num (expiresAt linkItem)
              && (now >? default 0 (expiresAt linkItem))
           then
             let* now' := Date_now in
             let* _ := trackAnalytics (analytics_event event code now' EXPIRED) in
             ret (createExpiredResponse)
           else
             (* [Promise.all([trackAnalytics(...), updateClickCount(...)])],
                not awaited.  [trackAnalytics] reads the clock, builds its
                item and stops at its first [await]; [updateClickCount]
                then reads the clock and sends its update; the put of
                [trackAnalytics] is sent after it.  Both writes settle
                after the response is fixed, and their outcome is
                dropped. *)
             let* now' := Date_now in
             let* timestamp := Date_now in
             let item :=
               analyticsItem (analytics_event event code now' SUCCESS) timestamp in
             let* responseTime := (let* t := Date_now in ret (t - startTime)) in
             let response :=
               {| statusCode := 301;
                  headers := location_header (originalUrl linkItem)
                             ++ [ ("Cache-Control", "public, max-age=300");
                                  ("X-Response-Time", pretty responseTime +:+ "ms");
                                  ("X-Short-Code", code) ];
                  body := EmptyBody |} in
             let* _ := updateClickCount code in
             let* _ := storeAnalytics item in
             ret response
       end)
      (fun _ => ret (createErrorResponse 500 "Internal server error")).

End WithRuntime.

End Redirect.

(** ** Click analytics (lambda/analytics) *)

Module Analytics.
Import Store.

(** A click event as the aggregator holds it after [unmarshall]. *)
Record ClickEvent := {
  eventType : EventType;
  timestamp : Z;
  ipHash : option string;
  referer : option string;
  country : option string;
  device : option string;
  browser : option string;
  browserVersion : option string
}.

Definition of_item (it : AnalyticsItem) : ClickEvent :=
  {| eventType := a_eventType it; timestamp := a_timestamp it;
     ipHash := Some (a_ipHash it); referer := Some (a_referer it);
     country := Some (a_country it); device := a_device it;
     browser := a_browser it; browserVersion := a_browserVersion it |}.

(** *** Paginated scan of the event log *)

(** What the store answers to the successive [QueryCommand]s of one scan
    (each asked with [Limit: 1000] and the previous [LastEvaluatedKey]):
    pages that carry a continuation key, closed by a page without one, or
    cut short by a rejected query. *)
Inductive Scan :=
| LastPage (Items : option (list ClickEvent))
| Page (Items : option (list ClickEvent)) (next : Scan)
| QueryRejects (e : JS.Error).

Definition too_many (shortCode : string) : string :=
  "Too many events for " +:+ shortCode +:+ ", limiting to 10000".

(** The [do ... while (lastEvaluatedKey)] loop: the events gathered and
    the warnings written, or the error of a rejected query. *)
Fixpoint fetch_pages (shortCode : string) (scan : Scan) (events : list ClickEvent)
    : JS.Completion (list ClickEvent * list string) :=
  match scan with
  | QueryRejects e => JS.Throw e
  | LastPage Items =>
      let events := events ++ default [] Items in
      if Z.of_nat (length events) >? 10000
      then JS.Normal (events, [too_many shortCode])
      else JS.Normal (events, [])
  | Page Items next =>
      let events := events ++ default [] Items in
      if Z.of_nat (length events) >? 10000
      then JS.Normal (events, [too_many shortCode])
      else fetch_pages shortCode next events
  end.

(** [fetchClickEvents]: the events and what [console.warn] received. *)
Definition fetchClickEvents (shortCode : string) (scan : Scan)
    : list ClickEvent * list string :=
  match fetch_pages shortCode scan [] with
  | JS.Normal r => r
  | JS.Throw _ => ([], [])
  end.

(** The pages of a scan. *)
Fixpoint pages (scan : Scan) : list (list ClickEvent) :=
  match scan with
  | LastPage Items => [default [] Items]
  | Page Items next => default [] Items :: pages next
  | QueryRejects _ => []
  end.

(** *** Aggregation *)

Record TimelineEntry := {
  t_timestamp : Z;
  t_clicks : Z;
  t_uniqueClicks : Z;
  t_period : JS.ISOString
}.

Record ReferrerStats := {
  r_referrer : string;
  r_clicks : Z;
  r_percentage : Z
}.

Record CountryStats := {
  c_country : string;
  c_clicks : Z;
  c_percentage : Z
}.

Record DeviceStats := {
  desktop : Z;
  mobile : Z;
  tablet : Z;
  unknown : Z
}.

Record BrowserStats := {
  b_browser : string;
  b_version : string;
  b_clicks : Z;
  b_percentage : Z
}.

Record AnalyticsSummary := {
  s_createdAt : JS.ISOString;
  s_firstClick : option JS.ISOString;
  s_lastClick : option JS.ISOString;
  s_peakHour : option JS.ISOString;
  s_peakClicks : Z;
  s_avgClicksPerHour : Z
}.

Record AnalyticsData := {
  totalClicks : Z;
  uniqueClicks : Z;
  period : string;
  granularity : string;
  timeline : list TimelineEntry;
  referrers : list ReferrerStats;
  countries : list CountryStats;
  devices : DeviceStats;
  browsers : list BrowserStats;
  summary : AnalyticsSummary
}.

(** [new Set(events.map(event => event.ipHash)).size] *)
Definition unique_ips (events : list ClickEvent) : Z :=
  Z.of_nat (length (remove_dups (map ipHash events))).

(** [total > 0 ? Math.round((clicks / total) * 100) : 0] *)
Definition percentage_of (clicks total : Z) : Z :=
  if total >? 0
  then JS.to_Z (JS.Math_round
                  (PrimFloat.mul (PrimFloat.div (JS.of_Z clicks) (JS.of_Z total))
                                 100%float))
  else 0.

(** [counts[key] = (counts[key] || 0) + 1] for a key that is not an
    inherited name ([JS.inherited key = false]).  Under an inherited name
    the old value is a function or an object, the sum is a string, and what
    the breakdown then ranks is no count: the properties of the breakdowns
    are stated for labels that are not inherited names. *)
Definition bump (counts : JS.Counts) (key : string) : JS.Counts :=
  JS.set counts key (JS.or_num (JS.get counts key) 0 + 1).

Definition by_clicks_desc {A} (clicks : A -> Z) (a b : A) : Z := clicks b - clicks a.

Section WithRuntime.
Context `{RT : Runtime}.

Definition referrer_key (event : ClickEvent) : JS.Completion string :=
  match referer event with
  | Some r =>
      if String.eqb r "direct" then JS.Normal "Direct"
      else if JS.truthy_str (Some r)
      then match URL_parse r with
           | Some u => JS.Normal (hostname u)
           | None => JS.Throw (JS.NamedError "TypeError" "Invalid URL")
           end
      else JS.Normal "Unknown"
  | None => JS.Normal "Unknown"
  end.

Fixpoint referrer_counts (events : list ClickEvent) (counts : JS.Counts)
    : JS.Completion JS.Counts :=
  match events with
  | [] => JS.Normal counts
  | event :: rest =>
      match referrer_key event with
      | JS.Normal key => referrer_counts rest (bump counts key)
      | JS.Throw e => JS.Throw e
      end
  end.

Definition calculateReferrerStats (events : list ClickEvent)
    : JS.Completion (list ReferrerStats) :=
  match referrer_counts events [] with
  | JS.Normal referrerCounts =>
      let total := Z.of_nat (length events) in
      JS.Normal
        (firstn 10
           (JS.sort (by_clicks_desc r_clicks)
              (map (fun '(referrer, clicks) =>
                      {| r_referrer := referrer; r_clicks := clicks;
                         r_percentage := percentage_of clicks total |})
                   (JS.entries referrerCounts))))
  | JS.Throw e => JS.Throw e
  end.

End WithRuntime.

Definition country_key (event : ClickEvent) : string :=
  JS.or_str (country event) "Unknown".

Definition calculateCountryStats (events : list ClickEvent) : list CountryStats :=
  let countryCounts := fold_left (fun counts event => bump counts (country_key event)) events [] in
  let total := Z.of_nat (length events) in
  firstn 10
    (JS.sort (by_clicks_desc c_clicks)
       (map (fun '(country, clicks) =>
               {| c_country := country; c_clicks := clicks;
                  c_percentage := percentage_of clicks total |})
            (JS.entries countryCounts))).

Definition with_desktop (n : Z) (s : DeviceStats) : DeviceStats :=
  {| desktop := n; mobile := mobile s; tablet := tablet s; unknown := unknown s |}.
Definition with_mobile (n : Z) (s : DeviceStats) : DeviceStats :=
  {| desktop := desktop s; mobile := n; tablet := tablet s; unknown := unknown s |}.
Definition with_tablet (n : Z) (s : DeviceStats) : DeviceStats :=
  {| desktop := desktop s; mobile := mobile s; tablet := n; unknown := unknown s |}.
Definition with_unknown (n : Z) (s : DeviceStats) : DeviceStats :=
  {| desktop := desktop s; mobile := mobile s; tablet := tablet s; unknown := n |}.

(** The body of the [forEach] of [calculateDeviceStats]. *)
Definition count_device (stats : DeviceStats) (event : ClickEvent) : DeviceStats :=
  let deviceType := Text.toLowerCase (JS.or_str (device event) "unknown") in
  if String.eqb deviceType "mobile" then with_mobile (mobile stats + 1) stats
  else if String.eqb deviceType "tablet" then with_tablet (tablet stats + 1) stats
  else if String.eqb deviceType "desktop" || String.eqb deviceType "pc"
  then with_desktop (desktop stats + 1) stats
  else with_unknown (unknown stats + 1) stats.

Definition calculateDeviceStats (events : list ClickEvent) : DeviceStats :=
  fold_left count_device events
    {| desktop := 0; mobile := 0; tablet := 0; unknown := 0 |}.

Definition browser_key (event : ClickEvent) : string :=
  let browser := JS.or_str (browser event) "Unknown" in
  let version := JS.or_str (browserVersion event) EmptyString in
  if JS.truthy_str (Some version) then browser +:+ " " +:+ version else browser.

Definition calculateBrowserStats (events : list ClickEvent) : list BrowserStats :=
  let browserCounts := fold_left (fun counts event => bump counts (browser_key event)) events [] in
  let total := Z.of_nat (length events) in
  firstn 10
    (JS.sort (by_clicks_desc b_clicks)
       (map (fun '(browserVersion, clicks) =>
               let parts := Text.split_space browserVersion in
               {| b_browser := hd EmptyString parts;
                  b_version := JS.or_str (Some (Text.join_space (tl parts))) "Unknown";
                  b_clicks := clicks;
                  b_percentage := percentage_of clicks total |})
            (JS.entries browserCounts))).

Definition and_then {A B} (c : JS.Completion A) (k : A -> JS.Completion B)
    : JS.Completion B :=
  match c with
  | JS.Normal a => k a
  | JS.Throw e => JS.Throw e
  end.

Record TimeRange := { startTime : Z; endTime : Z }.

(** [calculateTimeRange(period)] at clock reading [now]. *)
Definition calculateTimeRange (now : Z) (period : string) : TimeRange :=
  let endTime := now in
  let startTime :=
    if String.eqb period "1h" then endTime - 60 * 60 * 1000
    else if String.eqb period "24h" then endTime - 24 * 60 * 60 * 1000
    else if String.eqb period "7d" then endTime - 7 * 24 * 60 * 60 * 1000
    else if String.eqb period "30d" then endTime - 30 * 24 * 60 * 60 * 1000
    else endTime - 24 * 60 * 60 * 1000 in
  {| startTime := startTime; endTime := endTime |}.

(** The [for (time = startTime; time < endTime; time += intervalMs)] loop,
    [n] bounding the buckets still to come. *)
Fixpoint timeline_from (n : nat) (events : list ClickEvent)
    (time endTime intervalMs : Z) : JS.Completion (list TimelineEntry) :=
  match n with
  | O => JS.Normal []
  | S n' =>
      if time <? endTime then
        let bucketEvents :=
          List.filter (fun event => (timestamp event >=? time)
                                    && (timestamp event <? time + intervalMs))
                      events in
        and_then (JS.Date_toISOString (Some time)) (fun iso =>
        and_then (timeline_from n' events (time + intervalMs) endTime intervalMs)
          (fun rest =>
             JS.Normal ({| t_timestamp := time;
                           t_clicks := Z.of_nat (length bucketEvents);
                           t_uniqueClicks := unique_ips bucketEvents;
                           t_period := iso |} :: rest)))
      else JS.Normal []
  end.

Definition generateTimeline (events : list ClickEvent) (timeRange : TimeRange)
    (granularity : string) : JS.Completion (list TimelineEntry) :=
  let intervalMs :=
    if String.eqb granularity "hour" then 60 * 60 * 1000 else 24 * 60 * 60 * 1000 in
  timeline_from
    (Z.to_nat ((endTime timeRange - startTime timeRange) / intervalMs + 1))
    events (startTime timeRange) (endTime timeRange) intervalMs.

(** [timeline.reduce((max, entry) => entry.clicks > max.clicks ? entry : max,
    timeline[0] || { clicks: 0, period: '' })], as the peak's period and
    clicks. *)
Definition peak (timeline : list TimelineEntry) : option JS.ISOString * Z :=
  fold_left (fun max entry =>
               if t_clicks entry >? snd max
               then (Some (t_period entry), t_clicks entry) else max)
            timeline
            (match timeline with
             | first :: _ => (Some (t_period first), t_clicks first)
             | [] => (None, 0)
             end).

Definition generateSummary (events : list ClickEvent) (linkCreatedAt : option Z)
    (timeline : list TimelineEntry) : JS.Completion AnalyticsSummary :=
  let sortedEvents := JS.sort (fun a b => timestamp a - timestamp b) events in
  let peakEntry := peak timeline in
  let totalHours := Z.of_nat (length timeline) in
  let avgClicksPerHour :=
    if totalHours >? 0
    then JS.to_Z (JS.Math_round
                    (PrimFloat.div (JS.of_Z (Z.of_nat (length events)))
                                   (JS.of_Z totalHours)))
    else 0 in
  and_then (JS.Date_toISOString linkCreatedAt) (fun created =>
  and_then (match sortedEvents with
            | first :: _ =>
                and_then (JS.Date_toISOString (Some (timestamp first)))
                         (fun iso => JS.Normal (Some iso))
            | [] => JS.Normal None
            end) (fun firstClick =>
  and_then (match last sortedEvents with
            | Some e =>
                and_then (JS.Date_toISOString (Some (timestamp e)))
                         (fun iso => JS.Normal (Some iso))
            | None => JS.Normal None
            end) (fun lastClick =>
  JS.Normal {| s_createdAt := created;
               s_firstClick := firstClick;
               s_lastClick := lastClick;
               s_peakHour := fst peakEntry;
               s_peakClicks := snd peakEntry;
               s_avgClicksPerHour := avgClicksPerHour |}))).

Definition is_success (event : ClickEvent) : bool :=
  match eventType event with
  | SUCCESS => true
  | _ => false
  end.

Section Aggregate.
Context `{RT : Runtime}.

(** [processAnalyticsData]; of [linkMetadata] only [createdAt] is read. *)
Definition processAnalyticsData (events : list ClickEvent)
    (linkCreatedAt : option Z) (period granularity : string)
    (timeRange : TimeRange) : JS.Completion AnalyticsData :=
  let successEvents := List.filter is_success events in
  let uniqueClicks := unique_ips successEvents in
  and_then (generateTimeline successEvents timeRange granularity) (fun timeline =>
  and_then (calculateReferrerStats successEvents) (fun referrers =>
  let countries := calculateCountryStats successEvents in
  let devices := calculateDeviceStats successEvents in
  let browsers := calculateBrowserStats successEvents in
  and_then (generateSummary successEvents linkCreatedAt timeline) (fun summary =>
  JS.Normal {| totalClicks := Z.of_nat (length successEvents);
               uniqueClicks := uniqueClicks;
               period := period;
               granularity := granularity;
               timeline := timeline;
               referrers := referrers;
               countries := countries;
               devices := devices;
               browsers := browsers;
               summary := summary |}))).

End Aggregate.

End Analytics.

(** ** Rate-limit response headers (lambda/shared/rate-limiter) *)

Module RateLimitHeaders.
Import RateLimiter.

(** [createRateLimitHeaders(result)]: the headers in the order they are
    set; [Retry-After] is added when [result.retryAfter] is truthy. *)
Definition createRateLimitHeaders (result : RateLimitResult)
    : list (string * string) :=
  [ ("X-RateLimit-Remaining", pretty (remaining result));
    ("X-RateLimit-Reset", pretty (resetTime result)) ]
  ++ (if JS.truthy_num (retryAfter result)
      then [ ("Retry-After", pretty (default 0 (retryAfter result))) ]
      else []).

End RateLimitHeaders.

(** ** Input sanitizing (lambda/shared/validation, [ValidationHelper]) *)

Module ValidationHelper.

(** White space and line terminators among the code units below 256, which
    is what [trim] removes at both ends. *)
Definition is_space (c : ascii) : bool :=
  existsb (Ascii.eqb c)
    [ "009"; "010"; "011"; "012"; "013"; " "; "160" ]%char.

Fixpoint trimStart (l : list ascii) : list ascii :=
  match l with
  | [] => []
  | c :: rest => if is_space c then trimStart rest else l
  end.

(** [s.trim()] *)
Definition trim (l : list ascii) : list ascii :=
  rev (trimStart (rev (trimStart l))).

(** The character class of the pattern: the angle brackets, the double
    quote (code 34), the single quote and the ampersand. *)
Definition is_dangerous (c : ascii) : bool :=
  existsb (Ascii.eqb c) [ "<"; ">"; "034"; "'"; "&" ]%char.

(** [sanitizeInput(input)]: trim, drop every character of the class,
    keep the first 1000 code units. *)
Definition sanitizeInput (input : string) : string :=
  string_of_list_ascii
    (firstn 1000
       (List.filter (fun c => negb (is_dangerous c))
          (trim (list_ascii_of_string input)))).

End ValidationHelper.

(** ** The analytics handler (lambda/analytics) *)

Module AnalyticsHandler.
Import Store Analytics.
Local Open Scope handler_scope.

(** What the handler reads of the API Gateway event: the path parameter
    and the query parameters its schema has. *)
Record Event := {
  pathShortCode : option string;
  query_period : option string;
  query_granularity : option string;
  query_includeEvents : option string
}.

(** The query parameters after parsing, defaults filled in. *)
Record QueryParams := {
  q_period : string;
  q_granularity : string;
  q_includeEvents : string
}.

Inductive Body :=
| SuccessBody (data : AnalyticsData)
| ErrorBody (message : string) (code : Z).

Record Response := {
  statusCode : Z;
  headers : list (string * string);
  body : Body
}.

Definition createSuccessResponse (data : AnalyticsData) : Response :=
  {| statusCode := 200;
     headers := [ ("Content-Type", "application/json");
                  ("Access-Control-Allow-Origin", "*");
                  ("Access-Control-Allow-Methods", "GET, OPTIONS");
                  ("Access-Control-Allow-Headers", "Content-Type");
                  ("Cache-Control", "no-cache") ];
     body := SuccessBody data |}.

Definition createErrorResponse (statusCode : Z) (message : string) : Response :=
  {| statusCode := statusCode;
     headers := [ ("Content-Type", "application/json");
                  ("Access-Control-Allow-Origin", "*") ];
     body := ErrorBody message statusCode |}.

(** The projection of [checkLinkExists]. *)
Definition exists_projection (it : LinkItem) : LinkItem :=
  {| shortCode := shortCode it; originalUrl := None; originalUrlHash := None;
     createdAt := None; expiresAt := None; userId := None;
     clickCount := None; lastClickAt := None; isCustom := None;
     metadata := None |}.

(** The projection of [fetchLinkMetadata]. *)
Definition metadata_projection (it : LinkItem) : LinkItem :=
  {| shortCode := None; originalUrl := originalUrl it; originalUrlHash := None;
     createdAt := createdAt it; expiresAt := None; userId := userId it;
     clickCount := clickCount it; lastClickAt := lastClickAt it;
     isCustom := None; metadata := metadata it |}.

(** [checkLinkExists]: [false] on any store error. *)
Definition checkLinkExists (shortCode : string) : M bool :=
  try_catch
    (let* item := GetItem shortCode exists_projection in
     ret (match item with Some _ => true | None => false end))
    (fun _ => ret false).

(** [fetchLinkMetadata]: its [catch] logs and throws the error again. *)
Definition fetchLinkMetadata (shortCode : string) : M LinkItem :=
  try_catch
    (let* item := GetItem shortCode metadata_projection in
     match item with
     | Some it => ret it
     | None => throw (JS.NamedError "Error" "Link not found")
     end)
    (fun error => throw error).

Section WithRuntime.
Context `{RT : Runtime}.

(** The message zod gives a value that is none of an enum's options. *)
Variable invalid_enum_value : list string -> string -> string.

(** [z.enum(options).optional()] on a query parameter. *)
Definition enum_issues (options : list string) (x : option string) : list string :=
  match x with
  | Some s =>
      if existsb (String.eqb s) options then []
      else [invalid_enum_value options s]
  | None => []
  end.

(** [AnalyticsQuerySchema.parse(event.queryStringParameters || {})] *)
Definition AnalyticsQuerySchema (event : Event) : JS.Completion QueryParams :=
  match enum_issues ["1h"; "24h"; "7d"; "30d"] (query_period event)
        ++ enum_issues ["hour"; "day"] (query_granularity event)
        ++ enum_issues ["all"; "success"; "failures"] (query_includeEvents event)
  with
  | [] =>
      JS.Normal {| q_period := default "24h" (query_period event);
                   q_granularity := default "hour" (query_granularity event);
                   q_includeEvents := default "all" (query_includeEvents event) |}
  | issues => JS.Throw (JS.ZodError issues)
  end.

(** The [try] block of the handler.  [scan] is what the store answers to
    the event queries of this request; the two reads of the Links table
    take their replies from the world. *)
Definition try_block (shortCode : string) (event : Event) (scan : Scan)
    : M Response :=
  let* queryParams := lift (AnalyticsQuerySchema event) in
  let* linkExists := checkLinkExists shortCode in
  if negb linkExists
  then ret (createErrorResponse 404 "Short link not found")
  else
    let* now := Date_now in
    let timeRange := calculateTimeRange now (q_period queryParams) in
    let clickEvents := fst (fetchClickEvents shortCode scan) in
    let* linkMetadata := fetchLinkMetadata shortCode in
    let* analyticsData :=
      lift (processAnalyticsData clickEvents (createdAt linkMetadata)
              (q_period queryParams) (q_granularity queryParams) timeRange) in
    ret (createSuccessResponse analyticsData).

(** The [catch] block of the handler. *)
Definition on_error (error : JS.Error) : M Response :=
  match error with
  | JS.ZodError issues =>
      ret (createErrorResponse 400
             ("Invalid query parameters: " +:+ default "undefined" (head issues)))
  | JS.NamedError _ _ => ret (createErrorResponse 500 "Internal server error")
  end.

(** The analytics handler.  Its [startTime] only serves the response time
    it logs. *)
Definition handler (event : Event) (scan : Scan) : M Response :=
  if negb (JS.truthy_str (pathShortCode event))
  then ret (createErrorResponse 400 "Short code is required")
  else
    let shortCode := default EmptyString (pathShortCode event) in
    try_catch (try_block shortCode event scan) on_error.

End WithRuntime.

End AnalyticsHandler.

(* ===================================================================== *)
(** * Part II: the vocabulary of the properties                           *)
(* ===================================================================== *)

(** ** Stand-ins used to run the handlers on concrete inputs *)

Module Demo.
Import Store.

(** The text between the scheme and the first slash. *)
Fixpoint until_slash (s : string) : string :=
  match s with
  | EmptyString => EmptyString
  | String c r => if Ascii.eqb c "/" then EmptyString else String c (until_slash r)
  end.

(** A URL with the given scheme and a non-empty host. *)
Definition parse_with (scheme : string) (s : string) : option URL :=
  if String.prefix scheme s
  then let host := until_slash (String.substring (String.length scheme)
                                  (String.length s - String.length scheme) s) in
       match host with
       | EmptyString => None
       | _ => Some {| hostname := host; origin := scheme +:+ host |}
       end
  else None.

(** Accepts [http://host/...] and [https://host/...]. *)
Definition parse_url (s : string) : option URL :=
  match parse_with "https://" s with
  | Some u => Some u
  | None => parse_with "http://" s
  end.

(** A runtime to evaluate with: a tagged copy of the text for the hash, the
    parser above, a fixed user-agent report. *)
#[local] Instance runtime : Runtime := {|
  sha256_hex := fun s => "sha256:" +:+ s;
  URL_parse := parse_url;
  UAParser_getResult := fun _ =>
    Some {| ua_browser_name := Some "Chrome"; ua_browser_version := Some "120.0";
            ua_os_name := Some "Linux"; ua_os_version := None;
            ua_device_type := None |};
  env_domain := "sho.rt";
  env_ip_salt := "salt"
|}.

(** A world with empty tables, a store that answers, and the index as the
    repository defines it. *)
Definition empty_world (now : Z) (random : list (list Z)) : World :=
  {| links := []; urlIndexProjection := OriginalUrlIndex_projectionType;
     analytics := []; clock := now; script := []; entropy := random |}.

(** A batch of fifteen random bytes, all equal to [b]. *)
Definition batch (b : Z) : list Z := repeat b 15.

End Demo.

(** ** Rate limiter *)

Module RateLimiterSpec.
Import RateLimiter.

(** The call made at clock reading [nowMs] falls in the window that starts
    at [ws]. *)
Definition same_window (lim : Limit) (ws : Z) (nowMs : Z) : Prop :=
  window_start lim (now_seconds nowMs) = ws.

(** The counter stored under [pk], 0 when there is no row yet. *)
Definition count_at (tbl : gmap string CounterItem) (pk : string) : Z :=
  match tbl !! pk with Some it => requestCount it | None => 0 end.

(** A free-tier caller creating links: quota 10 per hour. *)
Definition demo_options : RateLimitOptions :=
  {| identifier := "5f4dcc3b5aa765d6"; action := create;
     userRole := None; increment := None |}.

(** Eleven calls, one second apart, inside one window. *)
Definition demo_clock : list Z :=
  map (fun i => 1700000000000 + 1000 * Z.of_nat i) (seq 0 11).

End RateLimiterSpec.

(** ** Identifier generator *)

Module IdentifierSpec.
Import Store Create.

(** [c] is a symbol of the generator's alphabet. *)
Definition in_alphabet (c : ascii) : Prop := In c (Text.chars alphabet).

Definition digits_and_letters : string :=
  "0123456789ABCDEFGHIJKLMNOPQRSTUVWXYZabcdefghijklmnopqrstuvwxyz".

(** Digits and letters without the characters of [left_out]. *)
Definition without (left_out : list ascii) : list ascii :=
  List.filter (fun c => negb (existsb (Ascii.eqb c) left_out))
              (Text.chars digits_and_letters).

End IdentifierSpec.

(** ** Counters and sums *)

Module CountingSpec.

(** The sum of [f] over a list. *)
Fixpoint total_of {A} (f : A -> Z) (l : list A) : Z :=
  match l with
  | [] => 0
  | x :: rest => f x + total_of f rest
  end.

(** The shape the three breakdowns share: tally, one row per entry, sort
    by clicks, keep ten. *)
Definition ranked {S : Type} (mk : string * Z -> S) (clicks : S -> Z)
    (keys : list string) : list S :=
  firstn 10
    (JS.sort (Analytics.by_clicks_desc clicks)
       (map mk (JS.entries (fold_left Analytics.bump keys [])))).

(** [percentage] is an integer nearest to the share [clicks / total], in
    percent. *)
Definition nearest_share (total clicks percentage : Z) : Prop :=
  Z.abs (2 * total * percentage - 200 * clicks) <= total.

End CountingSpec.

(** ** Rounding of a share *)

Module RoundingSpec.
Import Analytics CountingSpec.

(** The most events one scan of the event log returns: ten pages of a
    thousand, and the page that crosses the cap. *)
Definition scan_bound : Z := 11000.

(** [percentage_of c t] on machine integers is an integer nearest to the
    share of [c] in [t]: it is the quotient of [200 c + t] by [2 t], or,
    when that division is exact (a tie), one less. *)
Definition share_ok (c t : int) : bool :=
  let p := JS.Math_round
             (PrimFloat.mul (PrimFloat.div (PrimFloat.of_uint63 c)
                                           (PrimFloat.of_uint63 t))
                            100%float) in
  let n := Uint63.add (Uint63.mul 200 c) t in
  let d := Uint63.mul 2 t in
  let q := Uint63.div n d in
  PrimFloat.Leibniz.eqb p (PrimFloat.of_uint63 q)
  || (Uint63.eqb (Uint63.mod n d) 0
      && PrimFloat.Leibniz.eqb p (PrimFloat.of_uint63 (Uint63.sub q 1))).

(** [share_ok c' t] for the [n] counts from [c] on. *)
Fixpoint counts_ok (n : nat) (c t : int) : bool :=
  match n with
  | O => true
  | S n' => if share_ok c t then counts_ok n' (Uint63.add c 1) t else false
  end.

(** [share_ok c t'] for the [n] totals from [t] on and every count from 0
    to the total, [m] being [t + 1]. *)
Fixpoint totals_ok (n m : nat) (t : int) : bool :=
  match n with
  | O => true
  | S n' => if counts_ok m 0 t then totals_ok n' (S m) (Uint63.add t 1) else false
  end.

End RoundingSpec.

(** ** Click analytics *)

Module AnalyticsSpec.
Import Store Analytics.

Definition click (type : EventType) (t : Z) (where_from who : string) : ClickEvent :=
  {| eventType := type; timestamp := t; ipHash := Some who;
     referer := Some "direct"; country := Some where_from;
     device := Some "Mobile"; browser := Some "Chrome";
     browserVersion := Some "120.0" |}.

(** [n] pages of 1000 events that carry a continuation key, then a last
    page of 1000. *)
Fixpoint full_pages (n : nat) : Scan :=
  match n with
  | O => LastPage (Some (repeat (click SUCCESS 0 "US" "a1") 1000))
  | S k => Page (Some (repeat (click SUCCESS 0 "US" "a1") 1000)) (full_pages k)
  end.

Definition device_total (s : DeviceStats) : Z :=
  desktop s + mobile s + tablet s + unknown s.

Definition demo_events : list ClickEvent :=
  [ click SUCCESS 1700000000000 "US" "a1";
    click NOT_FOUND 1700000100000 "US" "a2";
    click SUCCESS 1700000200000 "DE" "a1";
    {| eventType := SUCCESS; timestamp := 1700000300000; ipHash := Some "a3";
       referer := Some "https://news.example/item"; country := None;
       device := None; browser := Some "Firefox"; browserVersion := None |} ].

Definition demo_range : TimeRange := calculateTimeRange 1700003600000 "1h".

End AnalyticsSpec.

(** ** Percentages of the breakdowns *)

Module BreakdownSpec.
Import Store Analytics CountingSpec.

(** What the three kinds of breakdown rows have in common. *)
Record Row := { row_clicks : Z; row_percentage : Z }.

Definition referrer_row (r : ReferrerStats) : Row :=
  {| row_clicks := r_clicks r; row_percentage := r_percentage r |}.
Definition country_row (c : CountryStats) : Row :=
  {| row_clicks := c_clicks c; row_percentage := c_percentage c |}.
Definition browser_row (b : BrowserStats) : Row :=
  {| row_clicks := b_clicks b; row_percentage := b_percentage b |}.

Definition percent_sum (rows : list Row) : Z := total_of row_percentage rows.
Definition click_sum (rows : list Row) : Z := total_of row_clicks rows.

(** Number of distinct labels. *)
Definition distinct (labels : list string) : nat := length (remove_dups labels).

(** What holds of the rows of one breakdown over [total] events carrying
    [groups] distinct labels: at most ten rows; their clicks add up to at
    most [total], and to [total] when no group was cut; every percentage
    is an integer nearest to its own share; and so the percentages add up
    to 100 within half a point per row. *)
Definition sums_within_rounding (total : Z) (groups : nat) (rows : list Row) : Prop :=
  (length rows <= 10)%nat
  /\ click_sum rows <= total
  /\ ((groups <= 10)%nat -> click_sum rows = total)
  /\ Forall (fun r => nearest_share total (row_clicks r) (row_percentage r)) rows
  /\ 2 * percent_sum rows <= 200 + Z.of_nat (length rows)
  /\ percent_sum rows <= 105
  /\ (0 < total -> (groups <= 10)%nat ->
      200 - Z.of_nat (length rows) <= 2 * percent_sum rows
      /\ 95 <= percent_sum rows).

Definition country_of_entry (kv : string * Z) (total : Z) : CountryStats :=
  {| c_country := fst kv; c_clicks := snd kv;
     c_percentage := percentage_of (snd kv) total |}.

Definition browser_of_entry (kv : string * Z) (total : Z) : BrowserStats :=
  {| b_browser := hd EmptyString (Text.split_space (fst kv));
     b_version := JS.or_str (Some (Text.join_space (tl (Text.split_space (fst kv))))) "Unknown";
     b_clicks := snd kv;
     b_percentage := percentage_of (snd kv) total |}.

Section Referrers.
Context `{RT : Runtime}.

(** The referrer label of an event whose referer parses. *)
Definition referrer_label (event : ClickEvent) : string :=
  match referrer_key event with
  | JS.Normal key => key
  | JS.Throw _ => EmptyString
  end.

Definition referrer_of_entry (kv : string * Z) (total : Z) : ReferrerStats :=
  {| r_referrer := fst kv; r_clicks := snd kv;
     r_percentage := percentage_of (snd kv) total |}.

(** No label of the events is a property name an object literal inherits:
    the tallies of the three breakdowns then hold numbers only. *)
Definition own_labels (events : list ClickEvent) : Prop :=
  Forall (fun event => JS.inherited (referrer_label event) = false
                       /\ JS.inherited (country_key event) = false
                       /\ JS.inherited (browser_key event) = false) events.

End Referrers.

(** One SUCCESS event from each of the given countries. *)
Definition one_click_each (where_from : list string) : list ClickEvent :=
  map (fun c => AnalyticsSpec.click SUCCESS 1700000000000 c "a1") where_from.

Definition aggregate (events : list ClickEvent) : JS.Completion AnalyticsData :=
  processAnalyticsData (RT := Demo.runtime) events (Some 1690000000000)
    "1h" "hour" AnalyticsSpec.demo_range.

End BreakdownSpec.

(** ** Running handlers *)

Module RunSpec.
Import Store.

(** A store that answers every round trip at once. *)
Definition quiet (w : World) : Prop := script w = [].

End RunSpec.

(** ** Redirect resolution *)

Module RedirectSpec.
Import Store Redirect.

(** Whether the store takes the next write: it does unless it rejects. *)
Definition put_lands (w : World) : bool :=
  match outcome (next_reply w) with
  | Rejects _ => false
  | _ => true
  end.

Definition old_link : LinkItem :=
  {| shortCode := Some "old123"; originalUrl := Some "https://example.com/sale";
     originalUrlHash := Some "sha256:https://example.com/sale";
     createdAt := Some 1590000000000; expiresAt := Some 1600000000000;
     userId := None; clickCount := Some 2; lastClickAt := None;
     isCustom := Some false; metadata := None |}.

(** A link stored with an expiry of 0. *)
Definition epoch_link : LinkItem :=
  {| shortCode := Some "epoch0"; originalUrl := Some "https://example.com/sale";
     originalUrlHash := Some "sha256:https://example.com/sale";
     createdAt := Some 1590000000000; expiresAt := Some 0;
     userId := None; clickCount := Some 2; lastClickAt := None;
     isCustom := Some false; metadata := None |}.

Definition world_with (rows : list LinkItem) (now : Z) : World :=
  with_links rows (Demo.empty_world now []).

Definition visit (code : string) : Event :=
  {| pathShortCode := Some code; header_User_Agent := Some "Mozilla/5.0";
     header_Referer := None; header_referer := None;
     sourceIp := Some "203.0.113.7" |}.

End RedirectSpec.

(** ** Link creation *)

Module CreateSpec.
Import Store Create.

Definition present {A} (x : option A) : bool :=
  match x with
  | Some _ => true
  | None => false
  end.

(** What [findExistingLink] makes of the item the index returns, at clock
    reading [now]. *)
Definition still_valid (now : Z) (item : LinkItem) : option LinkItem :=
  if negb (JS.truthy_num (expiresAt item)) then Some item
  else if default 0 (expiresAt item) >? now then Some item
  else None.

Section WithRuntime.
Context `{RT : Runtime}.

(** The item [create_link] writes at clock reading [now]. *)
Definition new_item (v : Validated) (urlHash code : string) (custom : bool)
    (now : Z) : LinkItem :=
  {| shortCode := Some code; originalUrl := Some (v_url v);
     originalUrlHash := Some urlHash; createdAt := Some now;
     expiresAt := if JS.truthy_num (v_expiresIn v)
                  then Some (now + default 0 (v_expiresIn v) * 1000) else None;
     Store.userId := if JS.truthy_str (v_userId v) then v_userId v else None;
     clickCount := Some 0; lastClickAt := None; isCustom := Some custom;
     metadata := if shouldFetchMetadata (v_url v)
                 then match fetchUrlMetadata (v_url v) with
                      | JS.Normal m => Some m
                      | JS.Throw _ => None
                      end
                 else None |}.

(** How the [try] block gets to the write: a custom code found free, or a
    generated one. *)
Definition reaches_write (v : Validated) (w1 : World) (code : string)
    (custom : bool) (w2 : World) : Prop :=
  (JS.truthy_str (v_customCode v) = true
   /\ code = default EmptyString (v_customCode v) /\ custom = true
   /\ checkShortCodeExists code w1 = (Ok false, w2))
  \/ (JS.truthy_str (v_customCode v) = false /\ custom = false
      /\ generateUniqueShortCode w1 = (Ok code, w2)).

(** The response that reports an existing link. *)
Definition existing_data (link : LinkItem) (created : JS.ISOString) : CreateData :=
  {| d_shortCode := shortCode link;
     d_shortUrl := createShortUrl (shortCode link);
     d_originalUrl := originalUrl link;
     d_created := false;
     d_createdAt := created;
     d_clickCount := JS.or_num (clickCount link) 0;
     d_expiresAt := None;
     d_metadata := None |}.

End WithRuntime.

(** [collisions n w w']: starting in [w], [n] codes in a row are drawn and
    reported taken by the existence probe, which leaves the world [w']. *)
Inductive collisions : nat -> World -> World -> Prop :=
| collisions_O (w : World) : collisions 0 w w
| collisions_S (n : nat) (w w1 w2 w3 : World) (code : string) :
    generateShortCode w = (Ok code, w1) ->
    checkShortCodeExists code w1 = (Ok true, w2) ->
    collisions n w2 w3 ->
    collisions (S n) w w3.

Definition request (u : string) (custom : option string) (expires : option Z)
    : EventBody :=
  JsonBody {| url := Some u; customCode := custom; expiresIn := expires;
              userId := None |}.

Definition noon : Z := 1700000000000.

Definition example_com : Validated :=
  {| v_url := "https://example.com"; v_customCode := None;
     v_expiresIn := None; v_userId := None |}.

(** A link under the code that a batch of zero bytes spells. *)
Definition link_22222222 : LinkItem :=
  {| shortCode := Some "22222222"; originalUrl := Some "https://other.example";
     originalUrlHash := Some "sha256:https://other.example";
     createdAt := Some 1690000000000; expiresAt := None; Store.userId := None;
     clickCount := Some 0; lastClickAt := None; isCustom := Some false;
     metadata := None |}.

Definition world (rows : list LinkItem) (index : ProjectionType) (now : Z)
    (replies : list Reply) (random : list (list Z)) : World :=
  {| links := rows; urlIndexProjection := index; analytics := [];
     clock := now; script := replies; entropy := random |}.

Definition answers : Reply := {| latency := 2; outcome := Answers |}.

Definition unavailable : JS.Error :=
  JS.NamedError "ServiceUnavailable" "Service Unavailable".

(** Every code the generator draws is taken: five probes collide. *)
Definition crowded : World :=
  world [link_22222222] OriginalUrlIndex_projectionType noon []
        (repeat (Demo.batch 0) 5).

(** The crowded world with [left] batches of random bytes left. *)
Definition drawn (left : nat) : World :=
  with_entropy (repeat (Demo.batch 0) left) crowded.

(** Another request creates the drawn code between the probe and the
    write. *)
Definition racing : World :=
  world [] OriginalUrlIndex_projectionType noon
        [answers; answers; {| latency := 2; outcome := Raced link_22222222 |}]
        (repeat (Demo.batch 0) 5).

Definition hour_later : Z := noon + 3600000.
Definition two_hours_later : Z := noon + 7200000.

End CreateSpec.

(** ** Quotas and response headers *)

Module QuotaSpec.
Import RateLimiter RateLimiterSpec.

(** The quota that applies to a call. *)
Definition limit_of (options : RateLimitOptions) : Limit :=
  RATE_LIMITS (default free (userRole options)) (action options).

(** The weight of a call: [increment], 1 when it is left out. *)
Definition weight (options : RateLimitOptions) : Z := default 1 (increment options).

(** The key of the counter a call made in the window starting at [ws]
    reads and writes. *)
Definition key_of (options : RateLimitOptions) (ws : Z) : string :=
  partitionKey (identifier options) (action options) ws.

(** Within the safe integers, where a count is a number on both sides of
    the store. *)
Definition safe (n : Z) : Prop :=
  - JS.MAX_SAFE_INTEGER <= n <= JS.MAX_SAFE_INTEGER.

(** What the [catch] of [checkRateLimit] returns at clock reading [nowMs]. *)
Definition fail_open (options : RateLimitOptions) (nowMs : Z) : RateLimitResult :=
  {| allowed := true;
     remaining := requests (limit_of options);
     resetTime := window_start (limit_of options) (now_seconds nowMs)
                  + window (limit_of options);
     retryAfter := None |}.

(** The header names of a response. *)
Definition header_names (headers : list (string * string)) : list string :=
  map fst headers.

(** A bulk upload by a free-tier caller: each call weighs 5. *)
Definition bulk_options : RateLimitOptions :=
  {| identifier := "5f4dcc3b5aa765d6"; action := create;
     userRole := Some free; increment := Some 5 |}.

Definition three_calls : list Z :=
  [1700000000000; 1700000001000; 1700000002000].

End QuotaSpec.

(** ** Shared validation *)

Module ValidationSpec.

(** The two codes differ at most in the case of their letters. *)
Definition same_letters (a b : string) : Prop :=
  Text.toLowerCase a = Text.toLowerCase b.

(** Every character is an ASCII one (a code unit below 128). *)
Definition ascii_only (s : string) : Prop :=
  Forall (fun c => (nat_of_ascii c < 128)%nat) (Text.chars s).

(** Nothing to trim at either end. *)
Definition trimmed (l : list ascii) : Prop :=
  match l with
  | [] => True
  | c :: _ => ValidationHelper.is_space c = false
  end
  /\ match last l with
     | Some c => ValidationHelper.is_space c = false
     | None => True
     end.

End ValidationSpec.

(** ** What a handler run guarantees *)

Module GuaranteeSpec.
Import Store.

(** Every run of [m] leaves a world related by [R] to the one it started
    in, and a value it returns satisfies [Q]. *)
Definition guarantees {A} (R : World -> World -> Prop) (Q : A -> Prop)
    (m : M A) : Prop :=
  forall (w : World) (r : Result A) (w' : World),
    m w = (r, w') ->
    R w w' /\ match r with Ok a => Q a | _ => True end.

Definition anything {A} : A -> Prop := fun _ => True.

(** The short codes of a table, in row order. *)
Definition codes (tbl : list LinkItem) : list string := omap shortCode tbl.

(** No two rows under one short code. *)
Definition unique_codes (w : World) : Prop := NoDup (codes (links w)).

(** What a visitor of a link depends on. *)
Definition target (it : LinkItem) : option string * option string * option Z :=
  (shortCode it, originalUrl it, expiresAt it).

(** The links table has grown at its end only, the analytics table is
    as it was, and short codes are unique if they were. *)
Definition only_appends (w w' : World) : Prop :=
  (exists added, links w' = links w ++ added)
  /\ analytics w' = analytics w
  /\ (unique_codes w -> unique_codes w').

(** Every link that was there still is, under its code, with its URL and
    its expiry, and short codes are unique if they were. *)
Definition keeps_targets (w w' : World) : Prop :=
  (exists added, map target (links w') = map target (links w) ++ added)
  /\ (unique_codes w -> unique_codes w').

(** A response of the create handler: 201 with the link, or an error
    whose body repeats the status code. *)
Definition create_response (resp : Create.Response) : Prop :=
  match Create.body resp with
  | Create.SuccessBody _ => Create.statusCode resp = 201
  | Create.ErrorBody _ code =>
      code = Create.statusCode resp /\ In code [400; 409; 500]
  end.

(** A response of the redirect handler. *)
Definition redirect_response (resp : Redirect.Response) : Prop :=
  match Redirect.body resp with
  | Redirect.EmptyBody => Redirect.statusCode resp = 301
  | Redirect.NotFoundPage _ => Redirect.statusCode resp = 404
  | Redirect.ExpiredPage => Redirect.statusCode resp = 410
  | Redirect.ErrorBody _ code =>
      code = Redirect.statusCode resp /\ In code [400; 500]
  end.

End GuaranteeSpec.

(** ** Resolving a stored link *)

Module ResolveSpec.
Import Store Redirect.

(** The link is still served at clock reading [now]: it has no expiry, a
    zero one, or one that has not passed. *)
Definition active (now : Z) (item : LinkItem) : Prop :=
  match expiresAt item with
  | Some e => e = 0 \/ now <= e
  | None => True
  end.

(** The redirect to [location] for [code], answered after [responseTime]
    milliseconds. *)
Definition redirect_to (location code : string) (responseTime : Z) : Response :=
  {| statusCode := 301;
     headers := [ ("Location", location);
                  ("Cache-Control", "public, max-age=300");
                  ("X-Response-Time", pretty responseTime +:+ "ms");
                  ("X-Short-Code", code) ];
     body := EmptyBody |}.

(** The redirect for a row whose URL is [location], if it has one. *)
Definition redirect_with (location : option string) (code : string)
    (responseTime : Z) : Response :=
  {| statusCode := 301;
     headers := location_header location
                ++ [ ("Cache-Control", "public, max-age=300");
                     ("X-Response-Time", pretty responseTime +:+ "ms");
                     ("X-Short-Code", code) ];
     body := EmptyBody |}.

(** The SUCCESS event of a visit whose lookup is answered at clock reading
    [now], as [trackAnalytics] stores it. *)
Definition success_item `{RT : Runtime} (event : Event) (code : string) (now : Z)
    : AnalyticsItem :=
  analyticsItem (analytics_event event code now SUCCESS) now.

(** The row under [code], if any. *)
Definition row_of (code : string) (w : World) : option LinkItem :=
  List.find (has_code code) (links w).

(** A request without a usable short code in its path. *)
Definition no_code : Event :=
  {| pathShortCode := None; header_User_Agent := Some "Mozilla/5.0";
     header_Referer := None; header_referer := None;
     sourceIp := Some "203.0.113.7" |}.

Definition fresh_link : LinkItem :=
  {| shortCode := Some "abc12345"; originalUrl := Some "https://example.com/docs";
     originalUrlHash := Some "sha256:https://example.com/docs";
     createdAt := Some 1699990000000; expiresAt := Some 1700000000000;
     userId := None; clickCount := Some 4; lastClickAt := None;
     isCustom := Some false; metadata := None |}.

Definition failing : Reply :=
  {| latency := 3;
     outcome := Rejects (JS.NamedError "ServiceUnavailable" "Service Unavailable") |}.

End ResolveSpec.

(** ** Registering a link *)

Module RegistrySpec.
Import Store Create.

Section WithRuntime.
Context `{RT : Runtime}.

(** The issues the handler's schema raises for a request body, in the
    order of its properties. *)
Definition issues_of (r : CreateRequest) : list string :=
  url_issues (url r) ++ customCode_issues (customCode r)
  ++ expiresIn_issues (expiresIn r).

End WithRuntime.

(** The existence probe for a custom code does not report it free: the
    store answers and has a row under the code, or the probe fails. *)
Definition probe_refuses (code : string) (w : World) : Prop :=
  (outcome (next_reply w) = Answers
   /\ CreateSpec.present (List.find (has_code code) (links w)) = true)
  \/ exists e, outcome (next_reply w) = Rejects e.

(** A request for a custom code with an expiry of two hours. *)
Definition promo : EventBody :=
  CreateSpec.request "https://example.com/sale" (Some "promo24") (Some 7200).

(** The world a run of the create handler on [promo] leaves, read at a
    later time. *)
Definition after_promo (later : Z) : World :=
  with_clock later
    (snd (handler (RT := Demo.runtime) promo (Demo.empty_world CreateSpec.noon []))).

End RegistrySpec.

(** ** Reading and bucketing the event log *)

Module EventLogSpec.
Import Store Analytics.

(** The scan runs to a page without continuation key; no query of it is
    rejected. *)
Fixpoint completes (scan : Scan) : bool :=
  match scan with
  | LastPage _ => true
  | Page _ next => completes next
  | QueryRejects _ => false
  end.

(** All events the store hands out in the course of a scan. *)
Definition handed_out (scan : Scan) : list ClickEvent := concat (pages scan).

(** The bucket width of a granularity, in milliseconds. *)
Definition interval_of (granularity : string) : Z :=
  if String.eqb granularity "hour" then 60 * 60 * 1000 else 24 * 60 * 60 * 1000.

(** Events stamped within [[from, to)]. *)
Definition within (from to : Z) (events : list ClickEvent) : list ClickEvent :=
  List.filter (fun event => (timestamp event >=? from) && (timestamp event <? to))
              events.

(** Two full pages of 1000 events and a rejected third query. *)
Definition cut_short : Scan :=
  Page (Some (repeat (AnalyticsSpec.click SUCCESS 0 "US" "a1") 1000))
    (Page (Some (repeat (AnalyticsSpec.click SUCCESS 0 "US" "a1") 1000))
       (QueryRejects (JS.NamedError "ServiceUnavailable" "Service Unavailable"))).

End EventLogSpec.

(** ** Ranking of the breakdowns *)

Module RankingSpec.
Import Store Analytics.

(** Every element is related by [le] to all that follow it. *)
Fixpoint ordered (le : Z -> Z -> Prop) (l : list Z) : Prop :=
  match l with
  | [] => True
  | x :: rest => Forall (le x) rest /\ ordered le rest
  end.

Definition ascending (l : list Z) : Prop := ordered Z.le l.
Definition descending (l : list Z) : Prop := ordered (fun x y => y <= x) l.

(** How many of the labels are [k]. *)
Definition occurrences (k : string) (keys : list string) : Z :=
  Z.of_nat (length (List.filter (String.eqb k) keys)).

(** A breakdown of events by [label]: the rows are in descending order
    of clicks, no two rows share a label, each row counts exactly the
    events that carry its label, and a label without a row has no more
    events than any row shown. *)
Definition ranks {S : Type} (label : S -> string) (clicks : S -> Z)
    (labels : list string) (rows : list S) : Prop :=
  descending (map clicks rows)
  /\ NoDup (map label rows)
  /\ (forall row, In row rows ->
        clicks row = occurrences (label row) labels /\ 0 < clicks row)
  /\ (forall k, In k labels ->
        In k (map label rows)
        \/ forall row, In row rows -> occurrences k labels <= clicks row).

(** Twelve countries, the last two seen twice. *)
Definition twelve_countries : list ClickEvent :=
  BreakdownSpec.one_click_each
    ["AT"; "BE"; "CH"; "DE"; "ES"; "FR"; "GB"; "IT"; "NL"; "NO"; "PL"; "SE";
     "PL"; "SE"].

End RankingSpec.

(** ** Summary of an aggregation *)

Module SummarySpec.
Import Store Analytics.

(** [t] is the stamp of one of the events and no event is stamped
    earlier. *)
Definition earliest (t : Z) (events : list ClickEvent) : Prop :=
  In t (map timestamp events) /\ forall event, In event events -> t <= timestamp event.

(** [t] is the stamp of one of the events and no event is stamped
    later. *)
Definition latest (t : Z) (events : list ClickEvent) : Prop :=
  In t (map timestamp events) /\ forall event, In event events -> timestamp event <= t.

(** A referer that is neither empty nor [direct] and that the URL parser
    refuses. *)
Definition unparsable `{RT : Runtime} (r : string) : Prop :=
  r <> EmptyString /\ r <> "direct"%string /\ URL_parse r = None.

(** An event the aggregation can digest: its stamp is a valid date and
    its referer is missing, empty, [direct], or a URL the parser accepts. *)
Definition digestible `{RT : Runtime} (event : ClickEvent) : Prop :=
  Z.abs (timestamp event) <= JS.MAX_TIME_VALUE
  /\ match referer event with
     | Some r => r = EmptyString \/ r = "direct"%string \/ is_Some (URL_parse r)
     | None => True
     end.

(** A visit that names a referring page by something that is not a URL. *)
Definition odd_visit (code : string) : Redirect.Event :=
  {| Redirect.pathShortCode := Some code;
     Redirect.header_User_Agent := Some "Mozilla/5.0";
     Redirect.header_Referer := Some "example.com/page";
     Redirect.header_referer := None;
     Redirect.sourceIp := Some "203.0.113.7" |}.

End SummarySpec.

(** ** Answers of the analytics handler *)

Module ReportSpec.
Import Store Analytics AnalyticsHandler.

(** The existence probe does not find the link: the store answers and has
    no row under the code, or the read fails. *)
Definition probe_misses (code : string) (w : World) : Prop :=
  (outcome (next_reply w) = Answers /\ List.find (has_code code) (links w) = None)
  \/ exists e, outcome (next_reply w) = Rejects e.

(** The store answers the next two reads and has [item] under the code. *)
Definition link_is_read (code : string) (item : LinkItem) (w : World) : Prop :=
  outcome (next_reply w) = Answers
  /\ outcome (next_reply (after_reply w)) = Answers
  /\ List.find (has_code code) (links w) = Some item.

(** A report without a click. *)
Definition no_clicks (data : AnalyticsData) : Prop :=
  totalClicks data = 0 /\ uniqueClicks data = 0
  /\ referrers data = [] /\ countries data = [] /\ browsers data = []
  /\ Forall (fun entry => t_clicks entry = 0) (timeline data).

(** A request for the default report. *)
Definition plain_request (code : string) : Event :=
  {| pathShortCode := Some code; query_period := None;
     query_granularity := None; query_includeEvents := None |}.

(** The issues the handler's schema raises for the query parameters, in
    the order of its properties. *)
Definition query_issues (invalid_enum_value : list string -> string -> string)
    (event : Event) : list string :=
  enum_issues invalid_enum_value ["1h"; "24h"; "7d"; "30d"] (query_period event)
  ++ enum_issues invalid_enum_value ["hour"; "day"] (query_granularity event)
  ++ enum_issues invalid_enum_value ["all"; "success"; "failures"]
       (query_includeEvents event).

(** A wording for an enum mismatch, to evaluate with. *)
Definition enum_message (options : list string) (received : string) : string :=
  "Invalid enum value, received '" +:+ received +:+ "'".

End ReportSpec.

(* ===================================================================== *)
(** * Part III: properties                                                *)
(* ===================================================================== *)

(** ** Rate limiter *)

Module RateLimiterFacts.
Import RateLimiter RateLimiterSpec.

Lemma or_num_Some (n : Z) : JS.or_num (Some n) 0 = n.
Proof. unfold JS.or_num. destruct (Z.eqb_spec n 0); congruence. Qed.

Lemma is_safe_integer_spec (n : Z) :
  JS.is_safe_integer n = true
  <-> - JS.MAX_SAFE_INTEGER <= n <= JS.MAX_SAFE_INTEGER.
Proof. unfold JS.is_safe_integer. rewrite andb_true_iff, !Z.leb_le. tauto. Qed.

(** A fulfilled call with the default increment, while the counter stays
    within the safe integers. *)
Lemma checkRateLimit_one (tbl : gmap string CounterItem) (nowMs ws : Z)
    (options : RateLimitOptions) :
  let lim := RATE_LIMITS (default free (userRole options)) (action options) in
  let pk := partitionKey (identifier options) (action options) ws in
  increment options = None ->
  same_window lim ws nowMs ->
  0 <= count_at tbl pk < JS.MAX_SAFE_INTEGER ->
  allowed (fst (checkRateLimit tbl nowMs Fulfilled options))
  = (count_at tbl pk + 1 <=? requests lim)
  /\ count_at (snd (checkRateLimit tbl nowMs Fulfilled options)) pk
     = count_at tbl pk + 1
  /\ forall pk', pk' <> pk ->
       snd (checkRateLimit tbl nowMs Fulfilled options) !! pk' = tbl !! pk'.
Proof.
  intros lim pk Hinc Hw Hc.
  unfold checkRateLimit. rewrite Hinc. cbn [default]. cbv zeta.
  unfold same_window in Hw. fold lim. rewrite Hw. fold pk.
  rewrite (proj2 (is_safe_integer_spec 1)) by (unfold JS.MAX_SAFE_INTEGER; lia).
  cbn [negb]. unfold UpdateItem_ADD. cbv zeta. cbn [requestCount].
  fold (count_at tbl pk).
  rewrite (proj2 (is_safe_integer_spec (count_at tbl pk + 1)))
    by (unfold JS.MAX_SAFE_INTEGER in *; lia).
  cbn [negb fst snd allowed]. rewrite or_num_Some.
  split; [reflexivity|]. split.
  - unfold count_at at 1. by rewrite lookup_insert_eq.
  - intros pk' Hne. by rewrite lookup_insert_ne.
Qed.

(** Every call of a run inside one window reads the counter it has just
    incremented: the [i]-th call sees [c + i]. *)
Lemma checkRateLimit_all_allowed (options : RateLimitOptions) (ws : Z) :
  increment options = None ->
  forall (clock : list Z) (tbl : gmap string CounterItem),
    let lim := RATE_LIMITS (default free (userRole options)) (action options) in
    let pk := partitionKey (identifier options) (action options) ws in
    Forall (same_window lim ws) clock ->
    0 <= count_at tbl pk ->
    count_at tbl pk + Z.of_nat (length clock) <= JS.MAX_SAFE_INTEGER ->
    map allowed (fst (checkRateLimit_all tbl options clock))
    = map (fun i => count_at tbl pk + Z.of_nat i <=? requests lim)
          (seq 1 (length clock)).
Proof.
  intros Hinc clock. induction clock as [|t clock IH]; intros tbl lim pk Hw Hc Hmax;
    [done|].
  inversion Hw as [|? ? Ht Hrest]; subst.
  cbn [length] in Hmax.
  destruct (checkRateLimit_one tbl t ws options Hinc Ht ltac:(fold pk; lia))
    as (Hallowed & Hcount & _).
  fold lim pk in Hallowed, Hcount.
  cbn [checkRateLimit_all].
  destruct (checkRateLimit tbl t Fulfilled options) as [r tbl1] eqn:E1.
  destruct (checkRateLimit_all tbl1 options clock) as [rs tbl2] eqn:E2.
  cbn [fst snd] in Hallowed, Hcount.
  cbn [fst map length seq]. rewrite Hallowed.
  f_equal.
  change rs with (fst (rs, tbl2)). rewrite <- E2.
  cbv zeta in IH. rewrite IH; [|exact Hrest|fold pk; lia|fold pk; lia].
  fold pk. rewrite Hcount.
  rewrite <- (seq_shift (length clock) 1), map_map.
  apply map_ext. intros i. f_equal. lia.
Qed.

(** Every call of such a run is counted, the rejected ones too. *)
Lemma checkRateLimit_all_counted (options : RateLimitOptions) (ws : Z) :
  increment options = None ->
  forall (clock : list Z) (tbl : gmap string CounterItem),
    let pk := partitionKey (identifier options) (action options) ws in
    Forall (same_window
              (RATE_LIMITS (default free (userRole options)) (action options)) ws)
           clock ->
    0 <= count_at tbl pk ->
    count_at tbl pk + Z.of_nat (length clock) <= JS.MAX_SAFE_INTEGER ->
    count_at (snd (checkRateLimit_all tbl options clock)) pk
    = count_at tbl pk + Z.of_nat (length clock).
Proof.
  intros Hinc clock. induction clock as [|t clock IH]; intros tbl pk Hw Hc Hmax.
  - cbn. lia.
  - inversion Hw as [|? ? Ht Hrest]; subst.
    cbn [length] in Hmax.
    destruct (checkRateLimit_one tbl t ws options Hinc Ht ltac:(fold pk; lia))
      as (_ & Hcount & _).
    fold pk in Hcount.
    cbn [checkRateLimit_all].
    destruct (checkRateLimit tbl t Fulfilled options) as [r tbl1] eqn:E1.
    destruct (checkRateLimit_all tbl1 options clock) as [rs tbl2] eqn:E2.
    cbn [snd] in Hcount. cbn [snd length].
    change tbl2 with (snd (rs, tbl2)). rewrite <- E2.
    cbv zeta in IH. rewrite IH; [|exact Hrest|fold pk; lia|fold pk; lia].
    fold pk. lia.
Qed.

Lemma quota_bound (role : Role) (a : Action) : requests (RATE_LIMITS role a) <= 100000.
Proof. destruct role, a; cbn; lia. Qed.

Lemma quota_positive (role : Role) (a : Action) : 0 < requests (RATE_LIMITS role a).
Proof. destruct role, a; reflexivity. Qed.

(** C1: on a fresh window with quota N, N+1 calls of [checkRateLimit] by
    the same caller (default increment, store answering) are allowed for
    the first N and rejected for the (N+1)-th: the quota is compared with
    the value the atomic add returns, and the rejected call is counted
    like the others. *)
Theorem C1_quota_then_one_rejection
    (tbl : gmap string CounterItem) (options : RateLimitOptions)
    (ws : Z) (clock : list Z) :
  let lim := RATE_LIMITS (default free (userRole options)) (action options) in
  let N := Z.to_nat (requests lim) in
  increment options = None ->
  tbl !! partitionKey (identifier options) (action options) ws = None ->
  Forall (same_window lim ws) clock ->
  length clock = S N ->
  map allowed (fst (checkRateLimit_all tbl options clock))
  = replicate N true ++ [false]
  /\ count_at (snd (checkRateLimit_all tbl options clock))
              (partitionKey (identifier options) (action options) ws)
     = requests lim + 1.
Proof.
  intros lim N Hinc Hfresh Hw Hlen.
  pose proof (quota_positive (default free (userRole options)) (action options)) as Hq.
  pose proof (quota_bound (default free (userRole options)) (action options)) as Hb.
  fold lim in Hq, Hb.
  assert (Hzero : count_at tbl (partitionKey (identifier options) (action options) ws)
                  = 0) by (unfold count_at; by rewrite Hfresh).
  assert (Hmax : count_at tbl (partitionKey (identifier options) (action options) ws)
                 + Z.of_nat (length clock) <= JS.MAX_SAFE_INTEGER).
  { rewrite Hzero, Hlen. unfold N, JS.MAX_SAFE_INTEGER. lia. }
  split.
  2: { rewrite (checkRateLimit_all_counted options ws Hinc clock tbl Hw
                  ltac:(lia) Hmax), Hlen, Hzero. unfold N. lia. }
  rewrite (checkRateLimit_all_allowed options ws Hinc clock tbl Hw ltac:(lia) Hmax).
  rewrite Hzero, Hlen. fold lim.
  pose proof (quota_positive (default free (userRole options)) (action options)) as Hpos.
  fold lim in Hpos.
  replace (S N) with (N + 1)%nat by lia.
  rewrite seq_app, map_app. cbn [seq map]. f_equal.
  - apply list_eq_same_length with N.
    + by rewrite length_replicate.
    + by rewrite length_map, length_seq.
    + intros i x y Hi Hx Hy.
      apply lookup_replicate in Hy as [-> _].
      rewrite list_lookup_fmap in Hx.
      rewrite lookup_seq_lt in Hx by lia. cbn in Hx. injection Hx as <-.
      apply Z.leb_le. lia.
  - f_equal. apply Z.leb_gt. lia.
Qed.

Lemma C1_quota_then_one_rejection_witness :
  map allowed (fst (checkRateLimit_all ∅ demo_options demo_clock))
  = replicate 10 true ++ [false]
  /\ count_at (snd (checkRateLimit_all ∅ demo_options demo_clock))
              "5f4dcc3b5aa765d6:create:1699999200"
     = 11.
Proof.
  apply (C1_quota_then_one_rejection ∅ demo_options 1699999200 demo_clock).
  - reflexivity.
  - apply lookup_empty.
  - repeat constructor.
  - reflexivity.
Defined.

End RateLimiterFacts.

(** ** Identifier generator *)

Module IdentifierFacts.
Import Store Create IdentifierSpec.

Lemma chars_app (a b : string) :
  Text.chars (a +:+ b) = Text.chars a ++ Text.chars b.
Proof.
  unfold Text.chars. induction a as [|c a IH]; [done|].
  change (String c a +:+ b) with (String c (a +:+ b)).
  cbn [list_ascii_of_string]. by rewrite IH.
Qed.

Lemma get_chars (s : string) : forall (n : nat) (c : ascii),
  String.get n s = Some c -> In c (Text.chars s).
Proof.
  induction s as [|d s IH]; intros n c Hget; cbn in Hget; [done|].
  destruct n as [|n].
  - injection Hget as ->. by left.
  - right. by apply (IH n).
Qed.

Lemma pick_chars (A : string) (k : Z) :
  Forall (fun c => In c (Text.chars A)) (Text.chars (Nanoid.pick A k)).
Proof.
  unfold Nanoid.pick. destruct (String.get (Z.to_nat k) A) as [c|] eqn:E; cbn.
  - constructor; [by apply get_chars with (Z.to_nat k) | constructor].
  - constructor.
Qed.

Lemma scan_chars (A : string) (size : nat) (bytes : list Z) :
  forall (i : nat) (id : string),
    Forall (fun c => In c (Text.chars A)) (Text.chars id) ->
    match Nanoid.scan A size i bytes id with
    | inl r => Forall (fun c => In c (Text.chars A)) (Text.chars r)
               /\ String.length r = size
    | inr r => Forall (fun c => In c (Text.chars A)) (Text.chars r)
    end.
Proof.
  induction i as [|i IH]; intros id Hid; cbn [Nanoid.scan]; [done|].
  set (id' := id +:+ _).
  assert (Hid' : Forall (fun c => In c (Text.chars A)) (Text.chars id')).
  { unfold id'. rewrite chars_app. apply Forall_app. split; [done | apply pick_chars]. }
  destruct (Nat.eqb_spec (String.length id') size) as [Hlen|Hlen].
  - by split.
  - by apply IH.
Qed.

Lemma draw_chars (A : string) (size : nat) :
  forall (batches : list (list Z)) (id r : string) (rest : list (list Z)),
    Forall (fun c => In c (Text.chars A)) (Text.chars id) ->
    Nanoid.draw A size batches id = (Some r, rest) ->
    Forall (fun c => In c (Text.chars A)) (Text.chars r) /\ String.length r = size.
Proof.
  induction batches as [|bytes batches IH]; intros id r rest Hid Hdraw;
    cbn [Nanoid.draw] in Hdraw; [done|].
  pose proof (scan_chars A size bytes
                (Nanoid.step_of (Nanoid.mask_of (Text.len A)) (Z.of_nat size) (Text.len A))
                id Hid) as Hscan.
  destruct (Nanoid.scan A size _ bytes id) as [r'|id'].
  - injection Hdraw as <- <-. done.
  - by apply (IH id' r rest).
Qed.

(** C9, as stated, fails: the alphabet handed to the generator has 56
    symbols, not 57, and leaves out the lower-case o, which the stated
    alphabet (digits and letters minus 0, 1, I, O, l) contains. *)
Lemma C9_alphabet_is_not_the_57_symbols :
  length (without ["0"; "1"; "I"; "O"; "l"]%char) = 57%nat
  /\ length (Text.chars alphabet) <> 57%nat
  /\ Text.chars alphabet <> without ["0"; "1"; "I"; "O"; "l"]%char
  /\ In "o"%char (without ["0"; "1"; "I"; "O"; "l"]%char)
  /\ ~ In "o"%char (Text.chars alphabet).
Proof.
  split; [reflexivity|]. split; [by vm_compute|]. split; [by vm_compute|].
  split.
  - vm_compute. tauto.
  - vm_compute. intros H. repeat (destruct H as [H|H]; [discriminate H|]). exact H.
Qed.

(** C9, amended: every generated short code has 8 characters, each drawn
    from a fixed 56-symbol alphabet: the digits and letters minus 0, 1, I,
    O, l and o. *)
Theorem C9_codes_over_56_symbols (w w' : World) (code : string) :
  generateShortCode w = (Ok code, w') ->
  String.length code = 8%nat
  /\ Forall in_alphabet (Text.chars code)
  /\ length (Text.chars alphabet) = 56%nat
  /\ Text.chars alphabet = without ["0"; "1"; "I"; "O"; "l"; "o"]%char.
Proof.
  intros Hgen. unfold generateShortCode, Nanoid.customAlphabet in Hgen.
  destruct (Nanoid.draw alphabet 8 (entropy w) "") as [[r|] rest] eqn:Hdraw;
    [|discriminate Hgen].
  injection Hgen as -> _.
  apply draw_chars in Hdraw as [Hchars Hlen]; [|constructor].
  repeat split; done.
Qed.

Lemma C9_codes_over_56_symbols_witness :
  generateShortCode (Demo.empty_world 0 [Demo.batch 200])
  = (Ok "AAAAAAAA"%string, Demo.empty_world 0 [])
  /\ String.length "AAAAAAAA" = 8%nat
  /\ Forall in_alphabet (Text.chars "AAAAAAAA").
Proof.
  split; [vm_compute; reflexivity|].
  pose proof (C9_codes_over_56_symbols (Demo.empty_world 0 [Demo.batch 200])
                (Demo.empty_world 0 []) "AAAAAAAA") as H.
  split; apply H; vm_compute; reflexivity.
Defined.

End IdentifierFacts.

(** ** Counters, sorting and sums *)

Module CountingFacts.
Import CountingSpec.

Lemma total_of_app {A} (f : A -> Z) (l k : list A) :
  total_of f (l ++ k) = total_of f l + total_of f k.
Proof. induction l as [|x l IH]; cbn; [done | rewrite IH; lia]. Qed.

Lemma total_of_perm {A} (f : A -> Z) (l k : list A) :
  Permutation l k -> total_of f l = total_of f k.
Proof. induction 1; cbn; lia. Qed.

Lemma total_of_map {A B} (g : A -> B) (f : B -> Z) (l : list A) :
  total_of f (map g l) = total_of (fun x => f (g x)) l.
Proof. induction l as [|x l IH]; cbn; [done | by rewrite IH]. Qed.

Lemma total_of_ext {A} (f g : A -> Z) (l : list A) :
  (forall x, f x = g x) -> total_of f l = total_of g l.
Proof. intros E. induction l as [|x l IH]; cbn; [done | by rewrite E, IH]. Qed.

Lemma total_of_nonneg {A} (f : A -> Z) (l : list A) :
  Forall (fun x => 0 <= f x) l -> 0 <= total_of f l.
Proof. induction 1; cbn; lia. Qed.

Lemma total_of_firstn {A} (f : A -> Z) (n : nat) (l : list A) :
  Forall (fun x => 0 <= f x) l -> total_of f (firstn n l) <= total_of f l.
Proof.
  intros H. revert n. induction H as [|x l Hx Hl IH]; intros [|n]; cbn; try lia.
  - pose proof (total_of_nonneg f l Hl). lia.
  - specialize (IH n). lia.
Qed.

Lemma sort_insert_perm {A} (cmp : A -> A -> Z) (x : A) (l : list A) :
  Permutation (JS.sort_insert cmp x l) (x :: l).
Proof.
  induction l as [|y l IH]; cbn; [done|].
  destruct (cmp x y >? 0); [|done].
  rewrite IH. apply perm_swap.
Qed.

Lemma sort_perm {A} (cmp : A -> A -> Z) (l : list A) :
  Permutation (JS.sort cmp l) l.
Proof.
  induction l as [|x l IH]; cbn; [done|].
  rewrite sort_insert_perm. by constructor.
Qed.

Lemma filter_split_perm {A} (p : A -> bool) (l : list A) :
  Permutation (List.filter p l ++ List.filter (fun x => negb (p x)) l) l.
Proof.
  induction l as [|x l IH]; cbn; [done|].
  destruct (p x); cbn.
  - by constructor.
  - rewrite <- Permutation_middle. by constructor.
Qed.

Lemma entries_perm (o : JS.Counts) : Permutation (JS.entries o) o.
Proof.
  unfold JS.entries. rewrite sort_perm. apply filter_split_perm.
Qed.

Lemma or_num_default (x : option Z) : JS.or_num x 0 = default 0 x.
Proof. destruct x as [n|]; cbn; [|done]. by destruct (Z.eqb_spec n 0). Qed.

Lemma total_set (o : JS.Counts) (k : string) (v : Z) :
  total_of snd (JS.set o k v) = total_of snd o - default 0 (JS.get o k) + v.
Proof.
  induction o as [|[k' v'] o IH]; cbn; [lia|].
  destruct (String.eqb k' k); cbn; lia.
Qed.

Lemma total_bump (o : JS.Counts) (k : string) :
  total_of snd (Analytics.bump o k) = total_of snd o + 1.
Proof. unfold Analytics.bump. rewrite total_set, or_num_default. lia. Qed.

(** A tally holds one click per key it was given. *)
Lemma total_tally (keys : list string) :
  forall o : JS.Counts,
    total_of snd (fold_left Analytics.bump keys o)
    = total_of snd o + Z.of_nat (length keys).
Proof.
  induction keys as [|k keys IH]; intros o; cbn [fold_left length]; [lia|].
  rewrite IH, total_bump. lia.
Qed.

Lemma get_nonneg (o : JS.Counts) (k : string) :
  Forall (fun kv => 0 <= snd kv) o -> 0 <= default 0 (JS.get o k).
Proof.
  induction 1 as [|[k' v'] o Hx Ho IH]; cbn; [done|].
  destruct (String.eqb k' k); cbn in *; done.
Qed.

Lemma set_nonneg (o : JS.Counts) (k : string) (v : Z) :
  0 <= v -> Forall (fun kv => 0 <= snd kv) o ->
  Forall (fun kv => 0 <= snd kv) (JS.set o k v).
Proof.
  intros Hv. induction 1 as [|[k' v'] o Hx Ho IH]; cbn.
  - by repeat constructor.
  - destruct (String.eqb k' k); constructor; done.
Qed.

Lemma tally_nonneg (keys : list string) :
  forall o : JS.Counts,
    Forall (fun kv => 0 <= snd kv) o ->
    Forall (fun kv => 0 <= snd kv) (fold_left Analytics.bump keys o).
Proof.
  induction keys as [|k keys IH]; intros o Ho; cbn [fold_left]; [done|].
  apply IH. apply set_nonneg; [|done].
  rewrite or_num_default. pose proof (get_nonneg o k Ho). lia.
Qed.

Lemma set_keys (o : JS.Counts) (k : string) (v : Z) :
  map fst (JS.set o k v)
  = if decide (k ∈ map fst o) then map fst o else map fst o ++ [k].
Proof.
  induction o as [|[k' v'] o IH]; cbn.
  - rewrite decide_False; [done | apply not_elem_of_nil].
  - destruct (String.eqb_spec k' k) as [->|Hne]; cbn.
    + rewrite decide_True; [done | by left].
    + rewrite IH. destruct (decide (k ∈ map fst o)) as [Hin|Hnin].
      * rewrite decide_True; [done | by right].
      * rewrite decide_False; [done|].
        intros Hin. apply elem_of_cons in Hin as [->|Hin]; done.
Qed.

(** The keys of a tally are the distinct keys it was given. *)
Lemma tally_keys (keys : list string) :
  forall o : JS.Counts,
    NoDup (map fst o) ->
    NoDup (map fst (fold_left Analytics.bump keys o))
    /\ forall k, k ∈ map fst (fold_left Analytics.bump keys o)
                 <-> k ∈ map fst o \/ k ∈ keys.
Proof.
  induction keys as [|k keys IH]; intros o Ho; cbn [fold_left].
  - split; [done|]. intros k. rewrite elem_of_nil. tauto.
  - assert (Hset : NoDup (map fst (Analytics.bump o k))
                   /\ forall x, x ∈ map fst (Analytics.bump o k)
                                <-> x ∈ map fst o \/ x = k).
    { unfold Analytics.bump. rewrite set_keys.
      destruct (decide (k ∈ map fst o)) as [Hin|Hnin].
      - split; [done|]. intros x. split; [tauto|]. intros [H| ->]; done.
      - split.
        + apply NoDup_app. repeat split; [done| |apply NoDup_singleton].
          intros x Hx Hk. apply list_elem_of_singleton in Hk as ->. done.
        + intros x. rewrite elem_of_app, list_elem_of_singleton. tauto. }
    destruct Hset as [Hnd Hel].
    destruct (IH _ Hnd) as [Hnd' Hel'].
    split; [done|]. intros x. rewrite Hel', Hel, elem_of_cons. tauto.
Qed.

Lemma tally_length (keys : list string) :
  length (fold_left Analytics.bump keys []) = length (remove_dups keys).
Proof.
  destruct (tally_keys keys [] (NoDup_nil_2)) as [Hnd Hel].
  rewrite <- (length_map fst).
  apply Permutation_length, NoDup_Permutation; [done | apply NoDup_remove_dups|].
  intros k. rewrite Hel, elem_of_remove_dups, elem_of_nil. tauto.
Qed.

Lemma fold_left_keys {A} (key : A -> string) (l : list A) :
  forall o : JS.Counts,
    fold_left (fun counts x => Analytics.bump counts (key x)) l o
    = fold_left Analytics.bump (map key l) o.
Proof. induction l as [|x l IH]; intros o; cbn; [done | apply IH]. Qed.

Section Ranked.
Context {S : Type} (mk : string * Z -> S) (clicks : S -> Z).
Hypothesis clicks_mk : forall kv, clicks (mk kv) = snd kv.
Variable keys : list string.

Lemma ranked_length : (length (ranked mk clicks keys) <= 10)%nat.
Proof. unfold ranked. rewrite length_firstn. lia. Qed.

Lemma unranked_clicks :
  total_of clicks
    (JS.sort (Analytics.by_clicks_desc clicks)
       (map mk (JS.entries (fold_left Analytics.bump keys []))))
  = Z.of_nat (length keys).
Proof.
  rewrite (total_of_perm _ _ _ (sort_perm _ _)), total_of_map.
  rewrite (total_of_ext _ snd) by apply clicks_mk.
  rewrite (total_of_perm _ _ _ (entries_perm _)), total_tally. cbn. lia.
Qed.

Lemma ranked_clicks_le :
  total_of clicks (ranked mk clicks keys) <= Z.of_nat (length keys).
Proof.
  rewrite <- unranked_clicks. apply total_of_firstn.
  eapply Permutation_Forall; [symmetry; apply sort_perm|].
  apply Forall_map.
  eapply Permutation_Forall; [symmetry; apply entries_perm|].
  eapply Forall_impl; [apply tally_nonneg; constructor|].
  intros kv Hkv. cbn. by rewrite clicks_mk.
Qed.

Lemma ranked_clicks_eq :
  (length (remove_dups keys) <= 10)%nat ->
  total_of clicks (ranked mk clicks keys) = Z.of_nat (length keys).
Proof.
  intros Hd. rewrite <- unranked_clicks. unfold ranked.
  rewrite firstn_all2; [done|].
  rewrite (Permutation_length (sort_perm _ _)), length_map.
  rewrite (Permutation_length (entries_perm _)), tally_length. done.
Qed.

End Ranked.

Lemma rounding_sum {S} (clicks pct : S -> Z) (total : Z) (l : list S) :
  Forall (fun s => nearest_share total (clicks s) (pct s)) l ->
  Z.abs (2 * total * total_of pct l - 200 * total_of clicks l)
  <= Z.of_nat (length l) * total.
Proof.
  unfold nearest_share. induction 1 as [|s l Hs Hl IH]; cbn [total_of length].
  - lia.
  - lia.
Qed.

End CountingFacts.

(** ** Rounding of a share *)

Module RoundingFacts.
Import Analytics CountingSpec RoundingSpec.

Lemma wB_value : wB = 9223372036854775808.
Proof. reflexivity. Qed.

Lemma to_Z_small (z : Z) : 0 <= z < wB -> Uint63.to_Z (Uint63.of_Z z) = z.
Proof. intros Hz. rewrite Uint63.of_Z_spec. by apply Z.mod_small. Qed.

Lemma counts_ok_sound (t : int) (n : nat) :
  forall c : int,
    Uint63.to_Z c%uint63 + Z.of_nat n < wB ->
    counts_ok n c t = true ->
    forall c' : int,
      Uint63.to_Z c%uint63 <= Uint63.to_Z c'%uint63 < Uint63.to_Z c%uint63 + Z.of_nat n -> share_ok c' t = true.
Proof.
  induction n as [|n IH]; intros c Hb Hok c' Hc'; [lia|].
  cbn [counts_ok] in Hok.
  destruct (share_ok c t) eqn:Hshare; [|discriminate].
  pose proof (Uint63.to_Z_bounded c) as Hcb.
  assert (Hnext : Uint63.to_Z (Uint63.add c 1) = Uint63.to_Z c%uint63 + 1).
  { rewrite Uint63.add_spec. change (Uint63.to_Z 1%uint63) with 1. apply Z.mod_small. lia. }
  destruct (Z.eq_dec (Uint63.to_Z c'%uint63) (Uint63.to_Z c%uint63)) as [Heq|Hne].
  - apply Uint63.to_Z_inj in Heq. by subst c'.
  - apply (IH (Uint63.add c 1)); [lia|exact Hok|lia].
Qed.

Lemma totals_ok_sound (n : nat) :
  forall (m : nat) (t : int),
    Z.of_nat m = Uint63.to_Z t%uint63 + 1 ->
    Uint63.to_Z t%uint63 + Z.of_nat n + 1 < wB ->
    totals_ok n m t = true ->
    forall t' c' : int,
      Uint63.to_Z t%uint63 <= Uint63.to_Z t'%uint63 < Uint63.to_Z t%uint63 + Z.of_nat n ->
      Uint63.to_Z c'%uint63 <= Uint63.to_Z t'%uint63 ->
      share_ok c' t' = true.
Proof.
  induction n as [|n IH]; intros m t Hm Hb Hok t' c' Ht' Hc'; [lia|].
  cbn [totals_ok] in Hok.
  destruct (counts_ok m 0 t) eqn:Hrow; [|discriminate].
  pose proof (Uint63.to_Z_bounded t) as Htb.
  pose proof (Uint63.to_Z_bounded c') as Hcb.
  assert (Hnext : Uint63.to_Z (Uint63.add t 1) = Uint63.to_Z t%uint63 + 1).
  { rewrite Uint63.add_spec. change (Uint63.to_Z 1%uint63) with 1. apply Z.mod_small. lia. }
  destruct (Z.eq_dec (Uint63.to_Z t'%uint63) (Uint63.to_Z t%uint63)) as [Heq|Hne].
  - apply Uint63.to_Z_inj in Heq. subst t'.
    apply (counts_ok_sound t m 0%uint63); [change (Uint63.to_Z 0%uint63) with 0; lia|exact Hrow|].
    change (Uint63.to_Z 0%uint63) with 0. lia.
  - apply (IH (S m) (Uint63.add t 1)); [lia|lia|exact Hok|lia|exact Hc'].
Qed.

(** Every share of a total up to [scan_bound], evaluated. *)
Lemma totals_ok_scan : totals_ok (Z.to_nat scan_bound) 2 1 = true.
Proof. vm_compute. reflexivity. Qed.

Lemma small_numbers :
  forallb (fun z => JS.to_Z (PrimFloat.of_uint63 (Uint63.of_Z z)) =? z)
          (map Z.of_nat (seq 0 101)) = true.
Proof. vm_compute. reflexivity. Qed.

Lemma to_Z_of_uint63 (q : int) :
  Uint63.to_Z q%uint63 <= 100 -> JS.to_Z (PrimFloat.of_uint63 q) = Uint63.to_Z q%uint63.
Proof.
  intros Hq. pose proof (Uint63.to_Z_bounded q) as Hb.
  pose proof small_numbers as Hall.
  rewrite forallb_forall in Hall.
  specialize (Hall (Uint63.to_Z q%uint63)).
  rewrite Uint63.of_to_Z in Hall. apply Z.eqb_eq, Hall.
  apply in_map_iff. exists (Z.to_nat (Uint63.to_Z q%uint63)). split; [lia|].
  apply in_seq. lia.
Qed.

(** [Math.round] of the binary64 quotient gives an integer nearest to the
    share, for every count within a total up to [scan_bound]. *)
Lemma percentage_of_nearest (clicks total : Z) :
  0 < total <= scan_bound ->
  0 <= clicks <= total ->
  nearest_share total clicks (percentage_of clicks total).
Proof.
  unfold scan_bound. intros Ht Hc.
  pose proof wB_value as HwB.
  assert (Hpt : Uint63.to_Z (Uint63.of_Z total) = total) by (apply to_Z_small; lia).
  assert (Hpc : Uint63.to_Z (Uint63.of_Z clicks) = clicks) by (apply to_Z_small; lia).
  assert (Hrows : Z.of_nat (Z.to_nat 11000) = 11000) by (apply Z2Nat.id; lia).
  pose proof (totals_ok_sound (Z.to_nat 11000) 2 1%uint63 eq_refl
                ltac:(change (Uint63.to_Z 1%uint63) with 1; lia) totals_ok_scan
                (Uint63.of_Z total) (Uint63.of_Z clicks)) as Hok.
  change (Uint63.to_Z 1%uint63) with 1 in Hok.
  specialize (Hok ltac:(lia) ltac:(lia)).
  unfold percentage_of.
  destruct (Z.gtb_spec total 0) as [_|]; [|lia].
  unfold JS.of_Z.
  unfold share_ok in Hok. cbv zeta in Hok.
  set (p := JS.Math_round _) in *.
  set (c := Uint63.of_Z clicks) in *. set (t := Uint63.of_Z total) in *.
  assert (Hn : Uint63.to_Z (Uint63.add (Uint63.mul 200 c) t) = 200 * clicks + total).
  { rewrite Uint63.add_spec, Uint63.mul_spec, Hpt, Hpc.
    change (Uint63.to_Z 200%uint63) with 200.
    rewrite (Z.mod_small (200 * clicks)) by lia. apply Z.mod_small. lia. }
  assert (Hd : Uint63.to_Z (Uint63.mul 2 t) = 2 * total).
  { rewrite Uint63.mul_spec, Hpt. change (Uint63.to_Z 2%uint63) with 2.
    apply Z.mod_small. lia. }
  assert (Hq : Uint63.to_Z (Uint63.div (Uint63.add (Uint63.mul 200 c) t) (Uint63.mul 2 t))
               = (200 * clicks + total) / (2 * total)).
  { by rewrite Uint63.div_spec, Hn, Hd. }
  set (q := Uint63.div _ _) in *.
  pose proof (Z.div_mod (200 * clicks + total) (2 * total) ltac:(lia)) as Hdm.
  pose proof (Z.mod_pos_bound (200 * clicks + total) (2 * total) ltac:(lia)) as Hmb.
  assert (Hq100 : 0 <= Uint63.to_Z q%uint63 <= 100).
  { rewrite Hq. split; [apply Z.div_pos; lia|].
    assert ((200 * clicks + total) / (2 * total) < 101)
      by (apply Z.div_lt_upper_bound; lia).
    lia. }
  unfold nearest_share.
  apply orb_true_iff in Hok as [Hp|Hp].
  - apply FloatAxioms.Leibniz.eqb_spec in Hp. rewrite Hp.
    rewrite to_Z_of_uint63 by lia. rewrite Hq. lia.
  - apply andb_true_iff in Hp as [Htie Hp].
    apply FloatAxioms.Leibniz.eqb_spec in Hp. rewrite Hp.
    apply Uint63.eqb_spec in Htie.
    assert (Hmod : (200 * clicks + total) mod (2 * total) = 0).
    { rewrite <- Hn, <- Hd, <- Uint63.mod_spec, Htie. reflexivity. }
    assert (Hq1 : 1 <= Uint63.to_Z q%uint63) by (rewrite Hq; nia).
    assert (Hsub : Uint63.to_Z (Uint63.sub q 1) = Uint63.to_Z q%uint63 - 1).
    { rewrite Uint63.sub_spec. change (Uint63.to_Z 1%uint63) with 1. apply Z.mod_small. lia. }
    rewrite to_Z_of_uint63 by lia. rewrite Hsub, Hq. lia.
Qed.

End RoundingFacts.

(** ** Click analytics *)

Module AnalyticsFacts.
Import Store Analytics AnalyticsSpec.

(** With pages of at most 1000 events, the loop stops within one page of
    the threshold. *)
Lemma fetch_pages_bound (shortCode : string) :
  forall (scan : Scan) (events result : list ClickEvent) (warnings : list string),
    Forall (fun page => Z.of_nat (length page) <= 1000) (pages scan) ->
    Z.of_nat (length events) <= 10000 ->
    fetch_pages shortCode scan events = JS.Normal (result, warnings) ->
    Z.of_nat (length result) <= 11000.
Proof.
  induction scan as [Items|Items next IH|e];
    intros events result warnings Hpages Hlen Hrun; cbn in Hrun, Hpages.
  - apply Forall_cons in Hpages as [Hpage _].
    destruct (_ >? _); injection Hrun as <- _; rewrite length_app; lia.
  - apply Forall_cons in Hpages as [Hpage Hrest].
    destruct (Z.gtb_spec (Z.of_nat (length (events ++ default [] Items))) 10000)
      as [Hgt|Hle].
    + injection Hrun as <- _. rewrite length_app. lia.
    + apply (IH _ _ _ Hrest) in Hrun; [done | lia].
  - discriminate Hrun.
Qed.

(** C5 at its failing input: eleven pages of 1000 events with a
    continuation key each.  The threshold is tested after a page has been
    appended and the list is not cut, so the scan returns 11000 events
    while warning that it limits to 10000. *)
Theorem C5_scan_returns_11000_events :
  Z.of_nat (length (fst (fetchClickEvents "abc123" (full_pages 11)))) = 11000
  /\ snd (fetchClickEvents "abc123" (full_pages 11))
     = ["Too many events for abc123, limiting to 10000"].
Proof. split; vm_compute; reflexivity. Qed.

Lemma count_device_total (s : DeviceStats) (event : ClickEvent) :
  device_total (count_device s event) = device_total s + 1.
Proof.
  unfold count_device, device_total.
  repeat match goal with |- context [if ?b then _ else _] => destruct b end;
    cbn; lia.
Qed.

Lemma fold_count_device_total (events : list ClickEvent) :
  forall s : DeviceStats,
    device_total (fold_left count_device events s)
    = device_total s + Z.of_nat (length events).
Proof.
  induction events as [|event events IH]; intros s; cbn [fold_left length].
  - lia.
  - rewrite IH, count_device_total. lia.
Qed.

Lemma calculateDeviceStats_total (events : list ClickEvent) :
  device_total (calculateDeviceStats events) = Z.of_nat (length events).
Proof. unfold calculateDeviceStats. by rewrite fold_count_device_total. Qed.

Section Aggregation.
Context `{RT : Runtime}.

(** What [processAnalyticsData] puts in the fields the breakdown claims
    are about. *)
Lemma processAnalyticsData_fields (events : list ClickEvent)
    (linkCreatedAt : option Z) (period granularity : string)
    (timeRange : TimeRange) (data : AnalyticsData) :
  processAnalyticsData events linkCreatedAt period granularity timeRange
  = JS.Normal data ->
  let successEvents := List.filter is_success events in
  totalClicks data = Z.of_nat (length successEvents)
  /\ calculateReferrerStats successEvents = JS.Normal (referrers data)
  /\ countries data = calculateCountryStats successEvents
  /\ devices data = calculateDeviceStats successEvents
  /\ browsers data = calculateBrowserStats successEvents.
Proof.
  unfold processAnalyticsData, and_then. intros H.
  destruct (generateTimeline _ _ _) as [tl|]; [|discriminate H].
  destruct (calculateReferrerStats _) as [refs|]; [|discriminate H].
  destruct (generateSummary _ _ _) as [sm|]; [|discriminate H].
  injection H as <-. cbn. done.
Qed.

(** C10: in every aggregation result the four device buckets add up to
    [totalClicks], the number of SUCCESS events aggregated: each of them
    is counted in exactly one bucket. *)
Theorem C10_device_buckets_sum_to_totalClicks (events : list ClickEvent)
    (linkCreatedAt : option Z) (period granularity : string)
    (timeRange : TimeRange) (data : AnalyticsData) :
  processAnalyticsData events linkCreatedAt period granularity timeRange
  = JS.Normal data ->
  desktop (devices data) + mobile (devices data) + tablet (devices data)
  + unknown (devices data) = totalClicks data
  /\ totalClicks data = Z.of_nat (length (List.filter is_success events)).
Proof.
  intros H. apply processAnalyticsData_fields in H as (Htotal & _ & _ & Hdev & _).
  split; [|done].
  rewrite Htotal, Hdev. apply calculateDeviceStats_total.
Qed.

End Aggregation.

Lemma C10_device_buckets_sum_to_totalClicks_witness :
  exists data,
    processAnalyticsData (RT := Demo.runtime) demo_events (Some 1690000000000)
      "1h" "hour" demo_range = JS.Normal data
    /\ devices data = {| desktop := 0; mobile := 2; tablet := 0; unknown := 1 |}
    /\ desktop (devices data) + mobile (devices data) + tablet (devices data)
       + unknown (devices data) = totalClicks data.
Proof.
  eexists. split; [vm_compute; reflexivity|]. split; [reflexivity|].
  eapply (C10_device_buckets_sum_to_totalClicks (RT := Demo.runtime)
            demo_events (Some 1690000000000) "1h" "hour" demo_range).
  vm_compute. reflexivity.
Defined.

End AnalyticsFacts.

(** ** Percentages of the breakdowns *)

Module BreakdownFacts.
Import Store Analytics CountingSpec CountingFacts BreakdownSpec.

Lemma total_of_bounds {A} (f : A -> Z) (l : list A) :
  Forall (fun x => 0 <= f x) l ->
  forall x, In x l -> 0 <= f x <= total_of f l.
Proof.
  induction 1 as [|y l Hy Hl IH]; intros x Hin; [done|].
  pose proof (total_of_nonneg f l Hl) as Hsum.
  cbn [total_of]. destruct Hin as [->|Hin]; [lia|].
  specialize (IH x Hin). lia.
Qed.

(** A row of a breakdown is made from an entry of the tally, and counts
    between 0 and all of the events. *)
Lemma ranked_rows {S} (mk : string * Z -> S) (clicks : S -> Z)
    (keys : list string) :
  (forall kv, clicks (mk kv) = snd kv) ->
  forall s, In s (ranked mk clicks keys) ->
    (exists kv, s = mk kv) /\ 0 <= clicks s <= Z.of_nat (length keys).
Proof.
  intros Hmk s Hin. unfold ranked in Hin.
  set (rows := JS.sort (by_clicks_desc clicks)
                 (map mk (JS.entries (fold_left bump keys [])))) in *.
  assert (Hrow : In s rows).
  { rewrite <- (firstn_skipn 10 rows). apply in_or_app. by left. }
  assert (Hnonneg : Forall (fun x => 0 <= clicks x) rows).
  { eapply Permutation_Forall; [symmetry; apply sort_perm|].
    apply Forall_map.
    eapply Permutation_Forall; [symmetry; apply entries_perm|].
    eapply Forall_impl; [apply tally_nonneg; constructor|].
    intros kv Hkv. cbn. by rewrite Hmk. }
  split.
  - assert (Hperm : Permutation rows (map mk (JS.entries (fold_left bump keys []))))
      by apply sort_perm.
    apply list_elem_of_In in Hrow. rewrite Hperm in Hrow.
    apply list_elem_of_In, in_map_iff in Hrow as (kv & <- & _). by exists kv.
  - rewrite <- (unranked_clicks mk clicks Hmk keys).
    by apply total_of_bounds.
Qed.

Lemma ranked_within_rounding {S} (mk : string * Z -> S) (clicks pct : S -> Z)
    (row : S -> Row) (keys : list string) :
  (forall kv, clicks (mk kv) = snd kv) ->
  (forall kv, pct (mk kv) = percentage_of (snd kv) (Z.of_nat (length keys))) ->
  (forall s, row_clicks (row s) = clicks s) ->
  (forall s, row_percentage (row s) = pct s) ->
  Z.of_nat (length keys) <= RoundingSpec.scan_bound ->
  sums_within_rounding (Z.of_nat (length keys)) (distinct keys)
    (map row (ranked mk clicks keys)).
Proof.
  intros Hmk Hpct Hc Hp Hbound. unfold sums_within_rounding, click_sum, percent_sum.
  rewrite length_map, !total_of_map.
  rewrite (total_of_ext (fun x => row_clicks (row x)) clicks) by apply Hc.
  rewrite (total_of_ext (fun x => row_percentage (row x)) pct) by apply Hp.
  pose proof (ranked_length mk clicks keys) as Hlen.
  pose proof (ranked_clicks_le mk clicks Hmk keys) as Hle.
  split; [done|]. split; [done|].
  split; [apply (ranked_clicks_eq mk clicks Hmk keys)|].
  assert (Hnear' : Forall (fun s => nearest_share (Z.of_nat (length keys)) (clicks s) (pct s))
                          (ranked mk clicks keys)).
  { apply List.Forall_forall. intros s Hin.
    destruct (ranked_rows mk clicks keys Hmk s Hin) as ([kv ->] & Hrange).
    rewrite Hpct, Hmk. rewrite Hmk in Hrange.
    destruct keys as [|k keys'] eqn:Hkeys; [done|]. rewrite <- Hkeys in *.
    apply RoundingFacts.percentage_of_nearest; [|exact Hrange].
    split; [rewrite Hkeys; cbn [length]; lia|exact Hbound]. }
  split.
  { apply Forall_map. eapply Forall_impl; [exact Hnear'|].
    intros s. cbn. by rewrite Hc, Hp. }
  apply rounding_sum in Hnear'.
  set (T := Z.of_nat (length keys)) in *.
  set (k := Z.of_nat (length (ranked mk clicks keys))) in *.
  set (P := total_of pct (ranked mk clicks keys)) in *.
  set (C := total_of clicks (ranked mk clicks keys)) in *.
  assert (Hk : 0 <= k <= 10) by (unfold k; lia).
  assert (HT : 0 <= T) by (unfold T; lia).
  destruct (Z.eq_dec T 0) as [HT0|HT0].
  - assert (Hnil : ranked mk clicks keys = []).
    { unfold T in HT0. destruct keys; [reflexivity | cbn in HT0; lia]. }
    unfold P, k. rewrite Hnil. cbn. repeat split; lia.
  - assert (Hup : 2 * P <= 200 + k) by nia.
    split; [done|]. split; [lia|].
    intros _ Hd. apply (ranked_clicks_eq mk clicks Hmk keys) in Hd. fold C T in Hd.
    assert (Hlow : 200 - k <= 2 * P) by nia.
    split; [done | lia].
Qed.

Lemma aggregated_bound (events : list ClickEvent) {A} (key : ClickEvent -> A) :
  Z.of_nat (length events) <= RoundingSpec.scan_bound ->
  Z.of_nat (length (map key (List.filter is_success events)))
  <= RoundingSpec.scan_bound.
Proof.
  intros Hlen. rewrite length_map.
  pose proof (filter_length_le is_success events). lia.
Qed.

Lemma calculateCountryStats_ranked (events : list ClickEvent) :
  calculateCountryStats events
  = ranked (fun kv => country_of_entry kv (Z.of_nat (length events))) c_clicks
           (map country_key events).
Proof.
  unfold calculateCountryStats, ranked. rewrite fold_left_keys.
  do 2 f_equal. apply map_ext. by intros [k c].
Qed.

Lemma calculateBrowserStats_ranked (events : list ClickEvent) :
  calculateBrowserStats events
  = ranked (fun kv => browser_of_entry kv (Z.of_nat (length events))) b_clicks
           (map browser_key events).
Proof.
  unfold calculateBrowserStats, ranked. rewrite fold_left_keys.
  do 2 f_equal. apply map_ext. by intros [k c].
Qed.

Section Referrers.
Context `{RT : Runtime}.

Lemma referrer_counts_tally (events : list ClickEvent) :
  forall o counts : JS.Counts,
    referrer_counts events o = JS.Normal counts ->
    counts = fold_left bump (map referrer_label events) o.
Proof.
  induction events as [|event events IH]; intros o counts H; cbn in H.
  - by injection H as <-.
  - cbn [map fold_left].
    destruct (referrer_key event) as [key|] eqn:E; [|discriminate H].
    replace (referrer_label event) with key
      by (unfold referrer_label; by rewrite E).
    by apply IH.
Qed.

Lemma calculateReferrerStats_ranked (events : list ClickEvent)
    (stats : list ReferrerStats) :
  calculateReferrerStats events = JS.Normal stats ->
  stats = ranked (fun kv => referrer_of_entry kv (Z.of_nat (length events))) r_clicks
                 (map referrer_label events).
Proof.
  unfold calculateReferrerStats, ranked. intros H.
  destruct (referrer_counts events []) as [counts|] eqn:E; [|discriminate H].
  injection H as <-. apply referrer_counts_tally in E as ->.
  do 2 f_equal. apply map_ext. by intros [k c].
Qed.

(** C2, amended: in the result of aggregating at most 11000 events (the
    most one scan returns) whose labels are not names an object literal
    inherits, each breakdown (referrer, country, browser) has at most ten
    groups whose clicks add up to at most [totalClicks], and to exactly
    [totalClicks] when there are at most ten distinct values.  Each
    percentage is rounded on its own: it is an integer nearest to its
    group's share, so the percentages of the [k] returned groups sum to
    at most [100 + k/2] (hence at most 105) and, when there are at most
    ten distinct values among at least one event, to at least [100 - k/2]
    (hence at least 95). *)
Theorem C2_percentages_sum_within_rounding (events : list ClickEvent)
    (linkCreatedAt : option Z) (period granularity : string)
    (timeRange : TimeRange) (data : AnalyticsData) :
  processAnalyticsData events linkCreatedAt period granularity timeRange
  = JS.Normal data ->
  Z.of_nat (length events) <= RoundingSpec.scan_bound ->
  own_labels (List.filter is_success events) ->
  let aggregated := List.filter is_success events in
  sums_within_rounding (totalClicks data)
    (distinct (map referrer_label aggregated)) (map referrer_row (referrers data))
  /\ sums_within_rounding (totalClicks data)
       (distinct (map country_key aggregated)) (map country_row (countries data))
  /\ sums_within_rounding (totalClicks data)
       (distinct (map browser_key aggregated)) (map browser_row (browsers data)).
Proof.
  intros H Hbound _ aggregated.
  apply AnalyticsFacts.processAnalyticsData_fields in H
    as (Htotal & Hrefs & Hcountries & _ & Hbrowsers).
  fold aggregated in Htotal, Hrefs, Hcountries, Hbrowsers.
  apply calculateReferrerStats_ranked in Hrefs.
  rewrite Htotal, Hrefs, Hcountries, Hbrowsers,
    calculateCountryStats_ranked, calculateBrowserStats_ranked.
  split; [|split].
  - rewrite <- (length_map referrer_label aggregated).
    apply ranked_within_rounding with (pct := r_percentage); try done.
    by apply aggregated_bound.
  - rewrite <- (length_map country_key aggregated).
    apply ranked_within_rounding with (pct := c_percentage); try done.
    by apply aggregated_bound.
  - rewrite <- (length_map browser_key aggregated).
    apply ranked_within_rounding with (pct := b_percentage); try done.
    by apply aggregated_bound.
Qed.

End Referrers.

(** C2, as stated, fails both ways.  Eight events from eight countries
    give eight groups of 12.5 percent, each rounded to 13: the country
    percentages sum to 104.  Three events from three countries give three
    groups of 33: the percentages sum to 99 although no group is cut. *)
Lemma C2_percentages_need_not_sum_to_100 :
  (exists data,
     aggregate (one_click_each ["AT"; "BE"; "CH"; "DE"; "ES"; "FR"; "GB"; "IT"])
     = JS.Normal data
     /\ length (countries data) = 8%nat
     /\ percent_sum (map country_row (countries data)) = 104)
  /\ (exists data,
        aggregate (one_click_each ["AT"; "BE"; "CH"]) = JS.Normal data
        /\ length (countries data) = 3%nat
        /\ percent_sum (map country_row (countries data)) = 99).
Proof.
  split; eexists; (split; [vm_compute; reflexivity|]); split; reflexivity.
Qed.

Lemma C2_percentages_sum_within_rounding_witness :
  exists data,
    aggregate (one_click_each ["AT"; "BE"; "CH"; "DE"; "ES"; "FR"; "GB"; "IT"])
    = JS.Normal data
    /\ percent_sum (map country_row (countries data)) <= 105
    /\ 95 <= percent_sum (map country_row (countries data)).
Proof.
  eexists. split; [vm_compute; reflexivity|].
  pose proof (C2_percentages_sum_within_rounding (RT := Demo.runtime)
                (one_click_each ["AT"; "BE"; "CH"; "DE"; "ES"; "FR"; "GB"; "IT"])
                (Some 1690000000000) "1h" "hour" AnalyticsSpec.demo_range _
                ltac:(vm_compute; reflexivity)
                ltac:(vm_compute; discriminate)
                ltac:(vm_compute; repeat constructor))
    as (_ & Hcountries & _).
  destruct Hcountries as (_ & _ & _ & _ & _ & Hup & Hlow).
  split; [exact Hup|]. apply Hlow; [reflexivity | vm_compute; lia].
Defined.

End BreakdownFacts.

(** ** Running handlers *)

Module RunFacts.
Import Store RunSpec.

Lemma bind_Ok {A B} (m : M A) (k : A -> M B) (w w' : World) (a : A) :
  m w = (Ok a, w') -> bind m k w = k a w'.
Proof. unfold bind. by intros ->. Qed.

Lemma bind_Err {A B} (m : M A) (k : A -> M B) (w w' : World) (e : JS.Error) :
  m w = (Err e, w') -> bind m k w = (Err e, w').
Proof. unfold bind. by intros ->. Qed.

Lemma try_catch_Ok {A} (m : M A) (h : JS.Error -> M A) (w w' : World) (a : A) :
  m w = (Ok a, w') -> try_catch m h w = (Ok a, w').
Proof. unfold try_catch. by intros ->. Qed.

Lemma try_catch_Err {A} (m : M A) (h : JS.Error -> M A) (w w' : World) (e : JS.Error) :
  m w = (Err e, w') -> try_catch m h w = h e w'.
Proof. unfold try_catch. by intros ->. Qed.

Lemma send_answers {A} (op : M A) (w : World) :
  outcome (next_reply w) = Answers -> send op w = op (after_reply w).
Proof. unfold send. by intros ->. Qed.

Lemma send_rejects {A} (op : M A) (w : World) (e : JS.Error) :
  outcome (next_reply w) = Rejects e -> send op w = (Err e, after_reply w).
Proof. unfold send. by intros ->. Qed.

Lemma quiet_answers (w : World) : quiet w -> outcome (next_reply w) = Answers.
Proof. unfold quiet, next_reply. by intros ->. Qed.

Lemma quiet_after_reply (w : World) : quiet w -> after_reply w = w.
Proof.
  unfold quiet, after_reply, next_reply, with_clock, with_script.
  destruct w as [l p a c sc en]; cbn. intros ->. cbn. f_equal. lia.
Qed.

Lemma GetItem_answers (code : string) (keep : LinkItem -> LinkItem) (w : World) :
  outcome (next_reply w) = Answers ->
  GetItem code keep w
  = (Ok (keep <$> List.find (has_code code) (links w)), after_reply w).
Proof. intros H. unfold GetItem. by rewrite send_answers. Qed.

Lemma GetItem_rejects (code : string) (keep : LinkItem -> LinkItem) (w : World)
    (e : JS.Error) :
  outcome (next_reply w) = Rejects e ->
  GetItem code keep w = (Err e, after_reply w).
Proof. intros H. unfold GetItem. by rewrite (send_rejects _ _ e). Qed.

End RunFacts.

(** ** Redirect resolution *)

Module RedirectFacts.
Import Store Redirect RunSpec RunFacts RedirectSpec.

Section WithRuntime.
Context `{RT : Runtime}.

(** [trackAnalytics] never throws; the store permitting, it leaves one
    row with the event's type and short code, stamped with the clock. *)
Lemma trackAnalytics_records (ev : AnalyticsEvent) (w : World) :
  exists w',
    trackAnalytics ev w = (Ok tt, w')
    /\ (put_lands w = true ->
        exists row,
          analytics w' = List.filter (fun x => negb (same_key row x)) (analytics w) ++ [row]
          /\ a_eventType row = e_eventType ev
          /\ a_shortCode row = e_shortCode ev
          /\ a_timestamp row = clock w)
    /\ (put_lands w = false -> analytics w' = analytics w).
Proof.
  unfold trackAnalytics, storeAnalytics, put_lands, PutItem_Analytics, try_catch,
    bind, Date_now, send.
  destruct (outcome (next_reply w)) as [|e|winner]; cbn.
  - eexists. split; [reflexivity|]. split; [|done].
    intros _. eexists. split; [reflexivity|]. done.
  - eexists. split; [reflexivity|]. split; [done|]. done.
  - eexists. split; [reflexivity|]. split; [|done].
    intros _. eexists. split; [reflexivity|]. done.
Qed.

(** The write of [trackAnalytics] never throws; the store permitting, it
    leaves the item as the last row. *)
Lemma storeAnalytics_records (item : AnalyticsItem) (w : World) :
  exists w',
    storeAnalytics item w = (Ok tt, w')
    /\ (put_lands w = true ->
        analytics w'
        = List.filter (fun x => negb (same_key item x)) (analytics w) ++ [item])
    /\ (put_lands w = false -> analytics w' = analytics w).
Proof.
  unfold storeAnalytics, put_lands, PutItem_Analytics, try_catch, send.
  destruct (outcome (next_reply w)) as [|e|winner]; cbn;
    eexists; (split; [reflexivity|]); split; done.
Qed.

(** A rejected lookup is answered with a server error. *)
Lemma lookup_rejected (event : Event) (code : string) (w : World) (e : JS.Error) :
  pathShortCode event = Some code ->
  code <> EmptyString ->
  outcome (next_reply w) = Rejects e ->
  handler event w
  = (Ok (createErrorResponse 500 "Internal server error"), after_reply w).
Proof.
  intros Hpath Hcode Hrej.
  unfold handler. unfold Date_now at 1. unfold bind at 1.
  rewrite Hpath. destruct code as [|c code]; [done|].
  cbn [JS.truthy_str negb].
  change (default EmptyString (Some (String c code))) with (String c code).
  erewrite try_catch_Err; [reflexivity|].
  apply bind_Err. by apply GetItem_rejects.
Qed.

(** C7, amended: resolving a short code whose [expiresAt] is not 0 and
    lies in the past answers 410 with the static expiry page, which is
    neither the 404 of a missing code nor a redirect (no [Location]
    header, no destination in the body), and the only analytics row the
    request can add is an EXPIRED one: it is added whenever the store
    takes the write, and no SUCCESS row is added in any case. *)
Theorem C7_expired_link (event : Event) (code : string) (w : World)
    (item : LinkItem) (e : Z) :
  pathShortCode event = Some code ->
  code <> EmptyString ->
  outcome (next_reply w) = Answers ->
  List.find (has_code code) (links w) = Some item ->
  expiresAt item = Some e ->
  e <> 0 ->
  e < clock (after_reply w) ->
  exists w',
    handler event w = (Ok createExpiredResponse, w')
    /\ statusCode createExpiredResponse = 410
    /\ statusCode createExpiredResponse <> statusCode (createNotFoundResponse code)
    /\ (forall h, In h (headers createExpiredResponse) -> fst h <> "Location")
    /\ body createExpiredResponse = ExpiredPage
    /\ (put_lands (after_reply w) = true ->
        exists row, last (analytics w') = Some row
                    /\ a_eventType row = EXPIRED /\ a_shortCode row = code)
    /\ (forall row, In row (analytics w') ->
                    In row (analytics w) \/ a_eventType row = EXPIRED).
Proof.
  intros Hpath Hcode Hanswers Hfind Hexp He0 Hpast.
  destruct (trackAnalytics_records
              (analytics_event event code (clock (after_reply w)) EXPIRED)
              (after_reply w)) as (w' & Hrun & Hput & Hnoput).
  exists w'. split.
  - unfold handler. unfold Date_now at 1. unfold bind at 1.
    rewrite Hpath. destruct code as [|c code]; [done|].
    cbn [JS.truthy_str negb].
    change (default EmptyString (Some (String c code))) with (String c code).
    apply try_catch_Ok.
    rewrite (bind_Ok _ _ _ _ _ (GetItem_answers _ _ _ Hanswers)).
    rewrite Hfind. cbn [fmap option_fmap option_map].
    unfold Date_now at 1. unfold bind at 1.
    cbn [redirect_projection expiresAt]. rewrite Hexp.
    change (default 0 (Some e)) with e. cbn [JS.truthy_num].
    destruct (Z.eqb_spec e 0) as [|_]; [done|]. cbn [negb andb].
    destruct (Z.gtb_spec (clock (after_reply w)) e) as [_|Hle]; [|lia].
    unfold Date_now at 1. unfold bind at 1.
    by rewrite (bind_Ok _ _ _ _ _ Hrun).
  - split; [reflexivity|]. split; [done|]. split.
    { intros h Hin. cbn in Hin. destruct Hin as [<-|[<-|[]]]; done. }
    split; [reflexivity|]. split.
    + intros Hl. destruct (Hput Hl) as (row & Hrows & Htype & Hcode' & _).
      exists row. rewrite Hrows, last_snoc. done.
    + intros row Hin.
      destruct (put_lands (after_reply w)) eqn:Hl.
      * destruct (Hput eq_refl) as (row' & Hrows & Htype & _).
        rewrite Hrows in Hin. apply in_app_or in Hin as [Hin|[<-|[]]].
        -- left. apply filter_In in Hin as [Hin _]. exact Hin.
        -- by right.
      * left. rewrite (Hnoput eq_refl) in Hin. exact Hin.
Qed.

End WithRuntime.

Lemma C7_expired_link_witness :
  exists w',
    handler (RT := Demo.runtime) (visit "old123") (world_with [old_link] 1700000000000)
    = (Ok createExpiredResponse, w')
    /\ exists row, last (analytics w') = Some row /\ a_eventType row = EXPIRED.
Proof.
  destruct (C7_expired_link (RT := Demo.runtime) (visit "old123")
              "old123" (world_with [old_link] 1700000000000) old_link 1600000000000)
    as (w' & Hrun & _ & _ & _ & _ & Hrow & _);
    [reflexivity | discriminate | reflexivity | reflexivity | reflexivity
    | discriminate | reflexivity |].
  exists w'. split; [exact Hrun|].
  destruct (Hrow eq_refl) as (row & Hlast & Htype & _).
  exists row. split; [exact Hlast | exact Htype].
Defined.

(** C7, as stated, fails for a stored [expiresAt] of 0, which lies in the
    past at every clock reading after the epoch: the guard
    [linkItem.expiresAt && Date.now() > linkItem.expiresAt] is falsy, so
    the link is served with a 301 to its URL and the event recorded is a
    SUCCESS one. *)
Lemma C7_zero_expiry_is_served :
  expiresAt epoch_link = Some 0
  /\ 0 < clock (world_with [epoch_link] 1700000000000)
  /\ exists resp w',
       handler (RT := Demo.runtime) (visit "epoch0")
         (world_with [epoch_link] 1700000000000)
       = (Ok resp, w')
       /\ statusCode resp = 301
       /\ In ("Location"%string, "https://example.com/sale"%string) (headers resp)
       /\ body resp = EmptyBody
       /\ exists row, last (analytics w') = Some row /\ a_eventType row = SUCCESS.
Proof.
  split; [reflexivity|]. split; [reflexivity|].
  eexists _, _. split; [vm_compute; reflexivity|].
  split; [reflexivity|]. split; [by left|]. split; [reflexivity|].
  eexists. split; reflexivity.
Qed.

End RedirectFacts.

(** ** Link creation *)

Module CreateFacts.
Import Store Create RunSpec RunFacts CreateSpec.

Section WithRuntime.
Context `{RT : Runtime}.

Lemma findExistingLink_answers (hash : string) (w : World) :
  outcome (next_reply w) = Answers ->
  findExistingLink hash w
  = (Ok match List.find (has_hash hash) (links w) with
        | Some it => still_valid (clock (after_reply w))
                       (index_view (urlIndexProjection w) it)
        | None => None
        end, after_reply w).
Proof.
  intros H. unfold findExistingLink, Query_OriginalUrlIndex, try_catch, bind.
  rewrite send_answers by done. cbn [links after_reply].
  change (links (after_reply w)) with (links w).
  change (urlIndexProjection (after_reply w)) with (urlIndexProjection w).
  destruct (List.find (has_hash hash) (links w)) as [it|]; [|reflexivity].
  unfold still_valid.
  destruct (negb (JS.truthy_num (expiresAt (index_view (urlIndexProjection w) it))));
    [reflexivity|].
  unfold Date_now.
  destruct (_ >? _); reflexivity.
Qed.

(** A rejected duplicate lookup is taken for "no such link". *)
Lemma findExistingLink_rejected (hash : string) (w : World) (e : JS.Error) :
  outcome (next_reply w) = Rejects e ->
  findExistingLink hash w = (Ok None, after_reply w).
Proof.
  intros H. unfold findExistingLink, Query_OriginalUrlIndex, try_catch, bind.
  by rewrite (send_rejects _ _ e).
Qed.

Lemma checkShortCodeExists_answers (code : string) (w : World) :
  outcome (next_reply w) = Answers ->
  checkShortCodeExists code w
  = (Ok (present (List.find (has_code code) (links w))), after_reply w).
Proof.
  intros H. unfold checkShortCodeExists, try_catch, bind.
  rewrite GetItem_answers by done.
  by destruct (List.find (has_code code) (links w)).
Qed.

(** A rejected existence probe is taken for "the code exists". *)
Lemma checkShortCodeExists_rejected (code : string) (w : World) (e : JS.Error) :
  outcome (next_reply w) = Rejects e ->
  checkShortCodeExists code w = (Ok true, after_reply w).
Proof.
  intros H. unfold checkShortCodeExists, try_catch, bind.
  by rewrite (GetItem_rejects _ _ _ e).
Qed.

Lemma find_existsb (code : string) (tbl : list LinkItem) :
  existsb (has_code code) tbl = present (List.find (has_code code) tbl).
Proof.
  induction tbl as [|it tbl IH]; cbn; [done|].
  by destruct (has_code code it).
Qed.

Lemma put_if_absent_code (it : LinkItem) (code : string) (tbl : list LinkItem) :
  shortCode it = Some code ->
  put_if_absent it tbl
  = if present (List.find (has_code code) tbl) then None else Some (tbl ++ [it]).
Proof.
  intros H. unfold put_if_absent. rewrite H.
  change (existsb _ tbl) with (existsb (has_code code) tbl).
  by rewrite find_existsb.
Qed.

(** A rejected write surfaces from [create_link] as the store's error. *)
Lemma create_link_rejected (v : Validated) (urlHash code : string)
    (custom : bool) (w : World) (e : JS.Error) :
  outcome (next_reply w) = Rejects e ->
  create_link v urlHash code custom w = (Err e, after_reply w).
Proof.
  intros H. unfold create_link, PutItem_Links, bind, Date_now.
  by rewrite (send_rejects _ _ e).
Qed.

(** A write that loses the race for its short code fails its condition. *)
Lemma create_link_raced (v : Validated) (urlHash code : string)
    (custom : bool) (w : World) (winner : LinkItem) :
  outcome (next_reply w) = Raced winner ->
  shortCode winner = Some code ->
  exists w',
    create_link v urlHash code custom w
    = (Err (JS.NamedError "ConditionalCheckFailedException"
              "The conditional request failed"), w')
    /\ entropy w' = entropy w.
Proof.
  intros H Hc. unfold create_link, PutItem_Links, bind, Date_now, send.
  rewrite H. cbn [links with_links].
  change (links (after_reply w)) with (links w).
  set (tbl := default (links w) (put_if_absent winner (links w))).
  assert (Htaken : present (List.find (has_code code) tbl) = true).
  { unfold tbl. rewrite (put_if_absent_code _ code) by done.
    destruct (present (List.find (has_code code) (links w))) eqn:E; cbn; [done|].
    rewrite <- find_existsb, existsb_app, find_existsb, E. cbn.
    unfold has_code. by rewrite Hc, String.eqb_refl. }
  rewrite (put_if_absent_code _ code) by done. rewrite Htaken.
  eexists. split; reflexivity.
Qed.

Lemma create_link_written (v : Validated) (urlHash code : string)
    (custom : bool) (w : World) :
  outcome (next_reply w) = Answers ->
  List.find (has_code code) (links w) = None ->
  Z.abs (clock w) <= JS.MAX_TIME_VALUE ->
  JS.truthy_num (v_expiresIn v) = false ->
  exists data,
    create_link v urlHash code custom w
    = (Ok (createSuccessResponse data),
       with_links (links w ++ [new_item v urlHash code custom (clock w)])
                  (after_reply w))
    /\ d_shortCode data = Some code
    /\ d_created data = true.
Proof.
  intros H Hfree Hclock Hexp.
  unfold create_link, PutItem_Links, bind, Date_now.
  rewrite send_answers by done.
  change (links (after_reply w)) with (links w).
  rewrite (put_if_absent_code _ code) by done. rewrite Hfree. cbn [present].
  rewrite Hexp. cbn [JS.truthy_num].
  unfold JS.Date_toISOString.
  destruct (Z.leb_spec (Z.abs (clock w)) JS.MAX_TIME_VALUE) as [_|Hgt]; [|lia].
  cbn [lift ret]. eexists. split.
  - unfold new_item. rewrite Hexp. reflexivity.
  - done.
Qed.

Lemma try_block_write (req : CreateRequest) (v : Validated) (w w1 w2 : World)
    (code : string) (custom : bool) :
  CreateLinkSchema req = JS.Normal v ->
  findExistingLink (createUrlHash (v_url v)) w = (Ok None, w1) ->
  reaches_write v w1 code custom w2 ->
  try_block (JsonBody req) w
  = create_link v (createUrlHash (v_url v)) code custom w2.
Proof.
  intros Hv Hfind Hreach. unfold try_block. rewrite Hv. cbn [lift].
  unfold bind at 1. cbn [ret].
  rewrite (bind_Ok _ _ _ _ _ Hfind).
  destruct Hreach as [(Hc & -> & -> & Hprobe)|(Hc & -> & Hgen)]; rewrite Hc.
  - by rewrite (bind_Ok _ _ _ _ _ Hprobe).
  - by rewrite (bind_Ok _ _ _ _ _ Hgen).
Qed.


(** C3 fails on the create handler: its own schema checks the custom code
    against the pattern only.  A custom code that the shared
    [ShortCodeSchema] rejects as a reserved word passes validation, and
    with no link under the URL or the code the handler writes a link
    under the reserved word and answers 201. *)
Theorem C3_reserved_word_is_written (u c : string) (w : World) :
  Validation.is_reserved c = true ->
  code_regex c = true ->
  url_issues (Some u) = [] ->
  quiet w ->
  List.find (has_hash (createUrlHash u)) (links w) = None ->
  List.find (has_code c) (links w) = None ->
  Z.abs (clock w) <= JS.MAX_TIME_VALUE ->
  Validation.validateShortCode c = false
  /\ exists data item,
       handler (JsonBody {| url := Some u; customCode := Some c;
                            expiresIn := None; userId := None |}) w
       = (Ok (createSuccessResponse data), with_links (links w ++ [item]) w)
       /\ statusCode (createSuccessResponse data) = 201
       /\ d_created data = true
       /\ d_shortCode data = Some c
       /\ shortCode item = Some c.
Proof.
  intros Hres Hre Hurl Hq Hhash Hcode Hclock. split.
  { unfold Validation.validateShortCode, Validation.ShortCodeSchema.
    rewrite Hres. cbn. by destruct (Validation.code_pattern c). }
  set (req := {| url := Some u; customCode := Some c; expiresIn := None; userId := None |}).
  set (v := {| v_url := u; v_customCode := Some c; v_expiresIn := None; v_userId := None |}).
  assert (Hv : CreateLinkSchema req = JS.Normal v).
  { unfold CreateLinkSchema, req. cbn [url customCode expiresIn userId].
    rewrite Hurl. unfold customCode_issues. rewrite Hre. reflexivity. }
  assert (Hne : JS.truthy_str (Some c) = true).
  { destruct c; [|done]. by vm_compute in Hre. }
  pose proof (quiet_answers w Hq) as Hans.
  assert (Hfind : findExistingLink (createUrlHash (v_url v)) w = (Ok None, w)).
  { rewrite findExistingLink_answers by done.
    rewrite quiet_after_reply by done. cbn [v_url v]. by rewrite Hhash. }
  assert (Hreach : reaches_write v w c true w).
  { left. repeat split; [done|].
    rewrite checkShortCodeExists_answers by done.
    rewrite quiet_after_reply by done. by rewrite Hcode. }
  destruct (create_link_written v (createUrlHash (v_url v)) c true w Hans Hcode Hclock eq_refl)
    as (data & Hrun & Hd1 & Hd2).
  rewrite quiet_after_reply in Hrun by done.
  exists data, (new_item v (createUrlHash (v_url v)) c true (clock w)).
  split; [|done].
  unfold handler. apply try_catch_Ok.
  by rewrite (try_block_write req v w w w c true Hv Hfind Hreach).
Qed.

End WithRuntime.

Lemma C3_reserved_word_is_written_witness :
  Validation.validateShortCode "admin" = false
  /\ exists data item,
       handler (RT := Demo.runtime) (request "https://example.com" (Some "admin") None)
               (Demo.empty_world 1700000000000 [])
       = (Ok (createSuccessResponse data),
          with_links [item] (Demo.empty_world 1700000000000 []))
       /\ statusCode (createSuccessResponse data) = 201
       /\ d_created data = true
       /\ d_shortCode data = Some "admin"
       /\ shortCode item = Some "admin".
Proof.
  apply (C3_reserved_word_is_written (RT := Demo.runtime)
           "https://example.com" "admin" (Demo.empty_world 1700000000000 []));
    try reflexivity.
  vm_compute. discriminate.
Defined.

Section Retries.
Context `{RT : Runtime}.

Lemma collisions_skip (n : nat) (w w' : World) :
  collisions n w w' ->
  forall m : nat,
    generateUniqueShortCode_from (n + m) w = generateUniqueShortCode_from m w'.
Proof.
  induction 1 as [w|n w w1 w2 w3 code Hgen Hprobe Hrest IH]; intros m; [done|].
  cbn [Nat.add generateUniqueShortCode_from].
  rewrite (bind_Ok _ _ _ _ _ Hgen), (bind_Ok _ _ _ _ _ Hprobe). apply IH.
Qed.

Lemma exhausted (w w' : World) :
  collisions 5 w w' ->
  generateUniqueShortCode w
  = (Err (JS.NamedError "Error"
            "Failed to generate unique short code after maximum attempts"), w').
Proof.
  intros H. unfold generateUniqueShortCode.
  change 5%nat with (5 + 0)%nat. by rewrite (collisions_skip 5 w w' H 0).
Qed.

Lemma free_code_after (n : nat) (w w2 w3 w4 : World) (code : string) :
  (n < 5)%nat ->
  collisions n w w2 ->
  generateShortCode w2 = (Ok code, w3) ->
  checkShortCodeExists code w3 = (Ok false, w4) ->
  generateUniqueShortCode w = (Ok code, w4).
Proof.
  intros Hn Hcol Hgen Hprobe. unfold generateUniqueShortCode.
  replace 5%nat with (n + S (4 - n))%nat by lia.
  rewrite (collisions_skip n w w2 Hcol). cbn [generateUniqueShortCode_from].
  by rewrite (bind_Ok _ _ _ _ _ Hgen), (bind_Ok _ _ _ _ _ Hprobe).
Qed.

(** C4, amended: without a custom code the handler draws a code and probes
    for it with a read, at most 5 times; a probe that reports the code
    taken is the retry signal.  When all 5 probes collide it gives up with
    a generic error, answered 500.  The first code found free is the one
    written, and a conditional-write failure of that write is not a retry
    signal: it is answered 409 without drawing another code. *)
Theorem C4_retries_on_probe_collisions (req : CreateRequest) (v : Validated)
    (w w1 : World) :
  CreateLinkSchema req = JS.Normal v ->
  JS.truthy_str (v_customCode v) = false ->
  findExistingLink (createUrlHash (v_url v)) w = (Ok None, w1) ->
  (forall w2,
      collisions 5 w1 w2 ->
      handler (JsonBody req) w
      = (Ok (createErrorResponse 500 "Internal server error"), w2))
  /\ (forall n code w2 w3 w4,
         (n < 5)%nat ->
         collisions n w1 w2 ->
         generateShortCode w2 = (Ok code, w3) ->
         checkShortCodeExists code w3 = (Ok false, w4) ->
         try_block (JsonBody req) w
         = create_link v (createUrlHash (v_url v)) code false w4)
  /\ (forall code w4 winner,
         generateUniqueShortCode w1 = (Ok code, w4) ->
         outcome (next_reply w4) = Raced winner ->
         shortCode winner = Some code ->
         exists w5,
           handler (JsonBody req) w
           = (Ok (createErrorResponse 409 "Short code already exists"), w5)
           /\ entropy w5 = entropy w4).
Proof.
  intros Hv Hc Hfind. split; [|split].
  - intros w2 Hcol.
    assert (Hrun : try_block (JsonBody req) w
                   = (Err (JS.NamedError "Error"
                             "Failed to generate unique short code after maximum attempts"),
                      w2)).
    { unfold try_block. rewrite Hv. cbn [lift]. unfold bind at 1. cbn [ret].
      rewrite (bind_Ok _ _ _ _ _ Hfind), Hc.
      apply bind_Err. by apply exhausted. }
    unfold handler. by rewrite (try_catch_Err _ _ _ _ _ Hrun).
  - intros n code w2 w3 w4 Hn Hcol Hgen Hprobe.
    apply (try_block_write req v w w1 w4 code false Hv Hfind).
    right. repeat split; [done|]. by apply (free_code_after n w1 w2 w3 w4).
  - intros code w4 winner Hgen Hrace Hwin.
    destruct (create_link_raced v (createUrlHash (v_url v)) code false w4 winner
                Hrace Hwin) as (w5 & Hrun & Hent).
    exists w5. split; [|done].
    assert (Hreach : reaches_write v w1 code false w4) by (right; by repeat split).
    rewrite <- (try_block_write req v w w1 w4 code false Hv Hfind Hreach) in Hrun.
    unfold handler. by rewrite (try_catch_Err _ _ _ _ _ Hrun).
Qed.

(** C8, amended: a store error on the redirect resolver's link lookup, or
    on the link-creation write (a failed condition apart, which is a
    conflict), is answered with a 500 server error.  The create path's
    duplicate-URL lookup is not such a path: a store error there is
    swallowed and creation goes on as if no link existed. *)
Theorem C8_store_errors_on_the_critical_path :
  (forall (event : Redirect.Event) (code : string) (w : World) (e : JS.Error),
      Redirect.pathShortCode event = Some code ->
      code <> EmptyString ->
      outcome (next_reply w) = Rejects e ->
      Redirect.handler event w
      = (Ok (Redirect.createErrorResponse 500 "Internal server error"),
         after_reply w))
  /\ (forall (req : CreateRequest) (v : Validated) (w w1 w2 : World)
             (code name message : string) (custom : bool),
         CreateLinkSchema req = JS.Normal v ->
         findExistingLink (createUrlHash (v_url v)) w = (Ok None, w1) ->
         reaches_write v w1 code custom w2 ->
         outcome (next_reply w2) = Rejects (JS.NamedError name message) ->
         name <> "ConditionalCheckFailedException" ->
         handler (JsonBody req) w
         = (Ok (createErrorResponse 500 "Internal server error"), after_reply w2))
  /\ (forall (hash : string) (w : World) (e : JS.Error),
         outcome (next_reply w) = Rejects e ->
         findExistingLink hash w = (Ok None, after_reply w)).
Proof.
  split; [|split].
  - intros event code w e Hpath Hcode Hrej.
    by apply (RedirectFacts.lookup_rejected event code w e).
  - intros req v w w1 w2 code name message custom Hv Hfind Hreach Hrej Hname.
    pose proof (create_link_rejected v (createUrlHash (v_url v)) code custom w2 _ Hrej)
      as Hrun.
    rewrite <- (try_block_write req v w w1 w2 code custom Hv Hfind Hreach) in Hrun.
    unfold handler. rewrite (try_catch_Err _ _ _ _ _ Hrun).
    cbn [on_error]. apply String.eqb_neq in Hname. by rewrite Hname.
  - intros. by apply (findExistingLink_rejected _ _ e).
Qed.

End Retries.

Section Idempotence.
Context `{RT : Runtime}.

Lemma handler_success (ev : EventBody) (w w1 : World) (resp : Response)
    (data : CreateData) :
  handler ev w = (Ok resp, w1) ->
  body resp = SuccessBody data ->
  try_block ev w = (Ok resp, w1).
Proof.
  unfold handler, try_catch. intros Hrun Hbody.
  destruct (try_block ev w) as [[r|e|] w']; [done| |done].
  exfalso. unfold on_error in Hrun.
  destruct e as [issues|name message].
  - injection Hrun as <- _. discriminate Hbody.
  - destruct (String.eqb name _); injection Hrun as <- _; discriminate Hbody.
Qed.

Lemma existing_response_run (link : LinkItem) (w : World) :
  existing_response link w
  = match JS.Date_toISOString (createdAt link) with
    | JS.Normal created => (Ok (createSuccessResponse (existing_data link created)), w)
    | JS.Throw e => (Err e, w)
    end.
Proof.
  unfold existing_response, bind.
  by destruct (JS.Date_toISOString (createdAt link)).
Qed.






Lemma find_snoc {A} (p : A -> bool) (l : list A) (x : A) :
  List.find p (l ++ [x])
  = match List.find p l with
    | Some y => Some y
    | None => if p x then Some x else None
    end.
Proof.
  induction l as [|y l IH]; cbn; [done|]. by destruct (p y).
Qed.


End Idempotence.

(** *** Concrete runs *)

(** C4, as stated, fails: a conditional-write failure is not a retry
    signal.  The first code drawn passes the probe, another request
    creates it before the write, the write fails its condition, and the
    handler answers 409 at once: one batch of random bytes is used, four
    are left. *)
Lemma C4_conditional_write_failure_is_not_retried :
  exists w',
    handler (RT := Demo.runtime) (request "https://example.com" None None) racing
    = (Ok (createErrorResponse 409 "Short code already exists"), w')
    /\ length (entropy racing) = 5%nat
    /\ length (entropy w') = 4%nat.
Proof. eexists. split; [vm_compute; reflexivity|]. split; reflexivity. Qed.

Lemma C4_retries_on_probe_collisions_witness :
  handler (RT := Demo.runtime) (request "https://example.com" None None) crowded
  = (Ok (createErrorResponse 500 "Internal server error"),
     with_entropy [] crowded).
Proof.
  apply (proj1 (C4_retries_on_probe_collisions (RT := Demo.runtime)
                  {| url := Some "https://example.com"; customCode := None;
                     expiresIn := None; userId := None |}
                  example_com crowded crowded
                  ltac:(vm_compute; reflexivity) ltac:(vm_compute; reflexivity)
                  ltac:(vm_compute; reflexivity))).
  apply (collisions_S 4 crowded (drawn 4) (drawn 4) _ "22222222");
    [vm_compute; reflexivity | vm_compute; reflexivity |].
  apply (collisions_S 3 (drawn 4) (drawn 3) (drawn 3) _ "22222222");
    [vm_compute; reflexivity | vm_compute; reflexivity |].
  apply (collisions_S 2 (drawn 3) (drawn 2) (drawn 2) _ "22222222");
    [vm_compute; reflexivity | vm_compute; reflexivity |].
  apply (collisions_S 1 (drawn 2) (drawn 1) (drawn 1) _ "22222222");
    [vm_compute; reflexivity | vm_compute; reflexivity |].
  apply (collisions_S 0 (drawn 1) (drawn 0) (drawn 0) _ "22222222");
    [vm_compute; reflexivity | vm_compute; reflexivity |].
  apply collisions_O.
Defined.

(** C8, as stated, fails on the create path's duplicate-URL lookup: the
    query is rejected, the handler takes that for "no existing link",
    creates one and answers 201. *)
Lemma C8_duplicate_lookup_error_is_swallowed :
  exists data w',
    handler (RT := Demo.runtime) (request "https://example.com" None None)
      (world [] OriginalUrlIndex_projectionType noon
             [{| latency := 2; outcome := Rejects unavailable |}]
             [Demo.batch 0])
    = (Ok (createSuccessResponse data), w')
    /\ statusCode (createSuccessResponse data) = 201
    /\ d_created data = true
    /\ length (links w') = 1%nat.
Proof.
  do 2 eexists. split; [vm_compute; reflexivity|]. by repeat split.
Qed.

Lemma C8_store_errors_on_the_critical_path_witness :
  Redirect.handler (RT := Demo.runtime) (RedirectSpec.visit "abc123")
    (world [] OriginalUrlIndex_projectionType noon
           [{| latency := 2; outcome := Rejects unavailable |}] [])
  = (Ok (Redirect.createErrorResponse 500 "Internal server error"),
     world [] OriginalUrlIndex_projectionType (noon + 2) [] [])
  /\ handler (RT := Demo.runtime) (request "https://example.com" None None)
       (world [] OriginalUrlIndex_projectionType noon
              [answers; answers; {| latency := 2; outcome := Rejects unavailable |}]
              [Demo.batch 0])
     = (Ok (createErrorResponse 500 "Internal server error"),
        world [] OriginalUrlIndex_projectionType (noon + 6) [] []).
Proof.
  destruct (C8_store_errors_on_the_critical_path (RT := Demo.runtime))
    as (Hlookup & Hwrite & _).
  split.
  - apply (Hlookup (RedirectSpec.visit "abc123") "abc123"
             (world [] OriginalUrlIndex_projectionType noon
                    [{| latency := 2; outcome := Rejects unavailable |}] [])
             unavailable);
      [reflexivity | discriminate | reflexivity].
  - apply (Hwrite {| url := Some "https://example.com"; customCode := None;
                     expiresIn := None; userId := None |}
                  example_com
                  (world [] OriginalUrlIndex_projectionType noon
                         [answers; answers;
                          {| latency := 2; outcome := Rejects unavailable |}]
                         [Demo.batch 0])
                  (world [] OriginalUrlIndex_projectionType (noon + 2)
                         [answers; {| latency := 2; outcome := Rejects unavailable |}]
                         [Demo.batch 0])
                  (world [] OriginalUrlIndex_projectionType (noon + 4)
                         [{| latency := 2; outcome := Rejects unavailable |}] [])
                  "22222222" "ServiceUnavailable" "Service Unavailable" false);
      [reflexivity | reflexivity | | reflexivity | discriminate].
    right. repeat split; reflexivity.
Defined.



End CreateFacts.

(** ** Quotas and response headers *)

Module QuotaFacts.
Import RateLimiter RateLimiterSpec RateLimitHeaders QuotaSpec RateLimiterFacts.

(** A fulfilled call in the window starting at [ws]: what it returns and
    what it stores. *)
Lemma safe_spec (n : Z) : JS.is_safe_integer n = true <-> safe n.
Proof. apply is_safe_integer_spec. Qed.

(** The paths of a call in the window starting at [ws]. *)
Lemma checkRateLimit_paths (tbl : gmap string CounterItem) (nowMs ws : Z)
    (send : SendOutcome) (options : RateLimitOptions) :
  same_window (limit_of options) ws nowMs ->
  let lim := limit_of options in
  let c := count_at tbl (key_of options ws) + weight options in
  let stored :=
    <[key_of options ws :=
        {| requestCount := c; ttl := ws + window lim + 86400;
           windowStart := ws; windowEnd := ws + window lim |}]> tbl in
  checkRateLimit tbl nowMs send options
  = if negb (JS.is_safe_integer (weight options))
    then (fail_open options nowMs, tbl)
    else match send with
         | Fulfilled =>
             if negb (JS.is_safe_integer c) then (fail_open options nowMs, stored)
             else ({| allowed := c <=? requests lim;
                      remaining := Z.max 0 (requests lim - c);
                      resetTime := ws + window lim;
                      retryAfter := if c <=? requests lim then None
                                    else Some (ws + window lim - now_seconds nowMs) |},
                   stored)
         | Rejected => (fail_open options nowMs, tbl)
         end.
Proof.
  intros Hw. unfold same_window in Hw.
  unfold checkRateLimit, fail_open, UpdateItem_ADD, key_of, weight, count_at.
  cbv zeta. fold (limit_of options). rewrite Hw.
  destruct (JS.is_safe_integer (default 1 (increment options))); cbn [negb];
    [|reflexivity].
  destruct send; [|reflexivity].
  cbn [requestCount].
  destruct (JS.is_safe_integer _); cbn [negb]; [|reflexivity].
  by rewrite or_num_Some.
Qed.

(** A fulfilled call in the window starting at [ws], within the safe
    integers: what it returns and what it stores. *)
Lemma checkRateLimit_fulfilled (tbl : gmap string CounterItem) (nowMs ws : Z)
    (options : RateLimitOptions) :
  same_window (limit_of options) ws nowMs ->
  let lim := limit_of options in
  let c := count_at tbl (key_of options ws) + weight options in
  safe (weight options) ->
  safe c ->
  checkRateLimit tbl nowMs Fulfilled options
  = ({| allowed := c <=? requests lim;
        remaining := Z.max 0 (requests lim - c);
        resetTime := ws + window lim;
        retryAfter := if c <=? requests lim then None
                      else Some (ws + window lim - now_seconds nowMs) |},
     <[key_of options ws :=
         {| requestCount := c; ttl := ws + window lim + 86400;
            windowStart := ws; windowEnd := ws + window lim |}]> tbl).
Proof.
  intros Hw lim c Hk Hc.
  rewrite (checkRateLimit_paths tbl nowMs ws Fulfilled options Hw). cbv zeta.
  fold lim c.
  rewrite (proj2 (safe_spec _) Hk), (proj2 (safe_spec _) Hc). reflexivity.
Qed.

Lemma count_at_insert (tbl : gmap string CounterItem) (pk : string) (it : CounterItem) :
  count_at (<[pk := it]> tbl) pk = requestCount it.
Proof. unfold count_at. by rewrite lookup_insert_eq. Qed.

Lemma window_rem (lim : Limit) (now : Z) :
  0 < window lim ->
  0 < window_start lim now + window lim - now
  /\ (0 <= now -> window_start lim now + window lim - now <= window lim).
Proof.
  intros Hpos. unfold window_start.
  pose proof (Z.rem_bound_abs now (window lim) ltac:(lia)) as Habs.
  split.
  - lia.
  - intros Hnow. pose proof (Z.rem_nonneg now (window lim) ltac:(lia) Hnow). lia.
Qed.

Lemma window_positive (role : Role) (a : Action) : 0 < window (RATE_LIMITS role a).
Proof. destruct role, a; reflexivity. Qed.

(** X1: calls of one caller inside one window share one counter, whatever
    they weigh, as long as the increment and the counter stay within the
    safe integers: from a stored count [c], the [i]-th call with increment
    [k] is allowed exactly when [c + i * k] is within the quota, it reports
    [max 0 (quota - (c + i * k))] as remaining, and after [n] calls the
    counter holds [c + n * k]. *)
Theorem weighted_calls_share_the_quota (tbl : gmap string CounterItem)
    (options : RateLimitOptions) (ws : Z) (clock : list Z) :
  Forall (same_window (limit_of options) ws) clock ->
  let q := requests (limit_of options) in
  let c := count_at tbl (key_of options ws) in
  let k := weight options in
  safe k ->
  safe c ->
  safe (c + Z.of_nat (length clock) * k) ->
  map allowed (fst (checkRateLimit_all tbl options clock))
  = map (fun i => c + Z.of_nat i * k <=? q) (seq 1 (length clock))
  /\ map remaining (fst (checkRateLimit_all tbl options clock))
     = map (fun i => Z.max 0 (q - (c + Z.of_nat i * k))) (seq 1 (length clock))
  /\ count_at (snd (checkRateLimit_all tbl options clock)) (key_of options ws)
     = c + Z.of_nat (length clock) * k.
Proof.
  cbv zeta. revert tbl.
  induction clock as [|nowMs rest IH]; intros tbl Hall Hk Hc Hend.
  - cbn. repeat split; lia.
  - apply Forall_cons in Hall as [Hnow Hrest].
    cbn [length] in Hend.
    assert (Hnext : safe (count_at tbl (key_of options ws) + weight options)).
    { unfold safe in *. nia. }
    cbn [checkRateLimit_all].
    rewrite (checkRateLimit_fulfilled tbl nowMs ws options Hnow Hk Hnext). cbv zeta.
    set (tbl1 := <[key_of options ws := _]> tbl).
    assert (Hc1 : count_at tbl1 (key_of options ws)
                  = count_at tbl (key_of options ws) + weight options).
    { unfold tbl1. by rewrite count_at_insert. }
    specialize (IH tbl1 Hrest Hk).
    rewrite Hc1 in IH.
    specialize (IH Hnext).
    assert (Hlast : safe (count_at tbl (key_of options ws) + weight options
                          + Z.of_nat (length rest) * weight options)).
    { unfold safe in *. lia. }
    specialize (IH Hlast).
    destruct (checkRateLimit_all tbl1 options rest) as [rs tbl2] eqn:E.
    cbn [fst snd] in IH |- *.
    destruct IH as (IHa & IHr & IHc).
    cbn [map allowed remaining length seq].
    rewrite IHa, IHr, IHc.
    rewrite <- (seq_shift (length rest) 1), !map_map.
    repeat split.
    + f_equal; [f_equal; lia|].
      apply map_ext. intros i. f_equal. lia.
    + f_equal; [f_equal; lia|].
      apply map_ext. intros i. f_equal. lia.
    + lia.
Qed.

Lemma weighted_calls_share_the_quota_witness :
  map allowed (fst (checkRateLimit_all ∅ bulk_options three_calls))
  = [true; true; false]
  /\ map remaining (fst (checkRateLimit_all ∅ bulk_options three_calls))
     = [5; 0; 0].
Proof.
  pose proof (weighted_calls_share_the_quota ∅ bulk_options 1699999200 three_calls)
    as H.
  cbv zeta in H.
  destruct H as (Ha & Hr & _).
  - repeat constructor.
  - vm_compute. split; discriminate.
  - vm_compute. split; discriminate.
  - vm_compute. split; discriminate.
  - rewrite Ha, Hr. split; reflexivity.
Defined.


(** X2: what a result of [checkRateLimit] tells, whatever the table holds
    and however the round trip ends: [remaining] is never negative; the
    reset time is ahead of the call by at most one window; an allowed
    result carries no [retryAfter]; a rejected one comes from a fulfilled
    round trip, has [remaining = 0] and a [retryAfter] that is the time
    left to the reset, between 1 and 3600 seconds; and a rejected round
    trip fails open: allowed, the full quota remaining, table untouched. *)
Theorem rejection_tells_when_to_retry (tbl : gmap string CounterItem)
    (nowMs : Z) (send : SendOutcome) (options : RateLimitOptions) :
  0 <= nowMs ->
  let r := fst (checkRateLimit tbl nowMs send options) in
  let now := now_seconds nowMs in
  0 <= remaining r
  /\ now < resetTime r <= now + window (limit_of options)
  /\ (allowed r = true -> retryAfter r = None)
  /\ (allowed r = false ->
      send = Fulfilled /\ remaining r = 0
      /\ retryAfter r = Some (resetTime r - now)
      /\ 0 < resetTime r - now <= window (limit_of options))
  /\ (send = Rejected ->
      allowed r = true /\ remaining r = requests (limit_of options)
      /\ snd (checkRateLimit tbl nowMs send options) = tbl).
Proof.
  intros Hnow. cbv zeta.
  assert (Hsec : 0 <= now_seconds nowMs).
  { unfold now_seconds. apply Z.div_pos; lia. }
  pose proof (window_positive (default free (userRole options)) (action options))
    as Hwin.
  pose proof (quota_positive (default free (userRole options)) (action options))
    as Hquota.
  destruct (window_rem (limit_of options) (now_seconds nowMs) Hwin) as [Hlo Hhi].
  specialize (Hhi Hsec).
  fold (limit_of options) in Hquota.
  rewrite (checkRateLimit_paths tbl nowMs _ send options eq_refl). cbv zeta.
  destruct (JS.is_safe_integer (weight options)); cbn [negb].
  - destruct send.
    + destruct (JS.is_safe_integer _); cbn [negb].
      * cbn [fst snd allowed remaining resetTime retryAfter].
        destruct (Z.leb_spec
                    (count_at tbl
                       (key_of options
                          (window_start (limit_of options) (now_seconds nowMs)))
                     + weight options)
                    (requests (limit_of options))) as [Hle|Hgt];
          repeat split; try lia; try congruence; discriminate.
      * unfold fail_open. cbn [fst snd allowed remaining resetTime retryAfter].
        repeat split; try lia; try congruence; discriminate.
    + unfold fail_open. cbn [fst snd allowed remaining resetTime retryAfter].
      repeat split; try lia; try congruence; discriminate.
  - unfold fail_open. cbn [fst snd allowed remaining resetTime retryAfter].
    repeat split; try lia; try congruence; discriminate.
Qed.

Lemma rejection_tells_when_to_retry_witness :
  let r := fst (checkRateLimit ∅ 1700000002000 Fulfilled
                  {| identifier := "5f4dcc3b5aa765d6"; action := create;
                     userRole := Some free; increment := Some 11 |}) in
  allowed r = false /\ remaining r = 0 /\ retryAfter r = Some 2798.
Proof.
  pose proof (rejection_tells_when_to_retry ∅ 1700000002000 Fulfilled
                {| identifier := "5f4dcc3b5aa765d6"; action := create;
                   userRole := Some free; increment := Some 11 |}
                ltac:(lia)) as H.
  cbv zeta in H. destruct H as (_ & _ & _ & Hrej & _).
  cbv zeta.
  assert (Hno : allowed (fst (checkRateLimit ∅ 1700000002000 Fulfilled
                  {| identifier := "5f4dcc3b5aa765d6"; action := create;
                     userRole := Some free; increment := Some 11 |})) = false)
    by reflexivity.
  destruct (Hrej Hno) as (_ & Hrem & Hretry & _).
  split; [exact Hno|]. split; [exact Hrem|].
  rewrite Hretry. reflexivity.
Defined.

(** X3: the headers built from a result of [checkRateLimit] or of
    [getRateLimitStatus] are [X-RateLimit-Remaining] and
    [X-RateLimit-Reset], followed by [Retry-After] exactly when the result
    is not allowed (the time to the reset is never 0, so the truthiness
    test cannot drop it). *)
Theorem retry_after_header_iff_rejected (tbl : gmap string CounterItem)
    (nowMs : Z) (send : SendOutcome) (options : RateLimitOptions) :
  let checked := fst (checkRateLimit tbl nowMs send options) in
  let status := getRateLimitStatus tbl nowMs send options in
  header_names (createRateLimitHeaders checked)
  = (if allowed checked
     then ["X-RateLimit-Remaining"; "X-RateLimit-Reset"]
     else ["X-RateLimit-Remaining"; "X-RateLimit-Reset"; "Retry-After"])
  /\ header_names (createRateLimitHeaders status)
     = (if allowed status
        then ["X-RateLimit-Remaining"; "X-RateLimit-Reset"]
        else ["X-RateLimit-Remaining"; "X-RateLimit-Reset"; "Retry-After"]).
Proof.
  cbv zeta.
  pose proof (window_positive (default free (userRole options)) (action options))
    as Hwin.
  destruct (window_rem (limit_of options) (now_seconds nowMs) Hwin) as [Hlo _].
  unfold limit_of in Hlo.
  assert (Htruthy : JS.truthy_num
            (Some (window_start (RATE_LIMITS (default free (userRole options))
                                             (action options))
                                (now_seconds nowMs)
                   + window (RATE_LIMITS (default free (userRole options))
                                         (action options))
                   - now_seconds nowMs)) = true).
  { unfold JS.truthy_num. apply negb_true_iff, Z.eqb_neq. lia. }
  unfold createRateLimitHeaders, header_names, checkRateLimit, getRateLimitStatus,
    UpdateItem_ADD.
  cbv zeta. split.
  - destruct (JS.is_safe_integer (default 1 (increment options))); cbn [negb];
      [|reflexivity].
    destruct send; [|reflexivity].
    destruct (JS.is_safe_integer _); cbn [negb]; [|reflexivity].
    cbn [fst allowed retryAfter].
    destruct (_ <=? _); [reflexivity|]. rewrite Htruthy. reflexivity.
  - destruct send; [|reflexivity].
    destruct (JS.is_safe_integer _); cbn [negb]; [|reflexivity].
    cbn [allowed retryAfter].
    destruct (_ <? _); [reflexivity|]. rewrite Htruthy. reflexivity.
Qed.

(** X4: with the increment and the new count within the safe integers, a
    status read that follows a check in the same window reports the same
    [remaining] and reset time, and is allowed exactly when something
    remains.  It therefore disagrees with the check in one case only: when
    the check has just used up the quota ([count = quota]: the check was
    allowed, the status is not). *)
Theorem status_after_check (tbl : gmap string CounterItem)
    (options : RateLimitOptions) (ws nowMs laterMs : Z) :
  same_window (limit_of options) ws nowMs ->
  same_window (limit_of options) ws laterMs ->
  safe (weight options) ->
  safe (count_at tbl (key_of options ws) + weight options) ->
  let checked := fst (checkRateLimit tbl nowMs Fulfilled options) in
  let tbl' := snd (checkRateLimit tbl nowMs Fulfilled options) in
  let status := getRateLimitStatus tbl' laterMs Fulfilled options in
  remaining status = remaining checked
  /\ resetTime status = resetTime checked
  /\ (allowed status = true <-> 0 < remaining checked)
  /\ (allowed checked = true /\ allowed status = false
      <-> count_at tbl' (key_of options ws) = requests (limit_of options)).
Proof.
  intros Hnow Hlater Hk Hc. cbv zeta.
  rewrite (checkRateLimit_fulfilled tbl nowMs ws options Hnow Hk Hc). cbv zeta.
  cbn [fst snd].
  unfold same_window, limit_of in Hlater.
  unfold getRateLimitStatus. cbv zeta. rewrite Hlater.
  fold (limit_of options). fold (key_of options ws).
  rewrite lookup_insert_eq. cbn [fmap option_fmap option_map requestCount].
  change (default 0 (Some ?x)) with x.
  rewrite (proj2 (safe_spec _) Hc). cbn [negb].
  rewrite or_num_Some, count_at_insert.
  cbn [allowed remaining resetTime requestCount].
  set (c := count_at tbl (key_of options ws) + weight options).
  set (q := requests (limit_of options)).
  repeat split.
  - intros H. apply Z.ltb_lt in H. lia.
  - intros H. apply Z.ltb_lt. lia.
  - intros [H1 H2]. apply Z.leb_le in H1. apply Z.ltb_ge in H2. lia.
  - apply Z.leb_le. lia.
  - apply Z.ltb_ge. lia.
Qed.

Lemma status_after_check_witness :
  let options := {| identifier := "5f4dcc3b5aa765d6"; action := create;
                    userRole := Some free; increment := Some 10 |} in
  let checked := fst (checkRateLimit ∅ 1700000000000 Fulfilled options) in
  let tbl' := snd (checkRateLimit ∅ 1700000000000 Fulfilled options) in
  let status := getRateLimitStatus tbl' 1700000001000 Fulfilled options in
  allowed checked = true /\ allowed status = false /\ remaining status = 0.
Proof.
  cbv zeta.
  pose proof (status_after_check ∅
                {| identifier := "5f4dcc3b5aa765d6"; action := create;
                   userRole := Some free; increment := Some 10 |}
                1699999200 1700000000000 1700000001000 eq_refl eq_refl
                ltac:(vm_compute; split; discriminate)
                ltac:(vm_compute; split; discriminate)) as H.
  cbv zeta in H. destruct H as (Hrem & _ & _ & Hedge).
  destruct Hedge as [_ Hedge].
  destruct (Hedge eq_refl) as [Hc Hs].
  split; [exact Hc|]. split; [exact Hs|].
  rewrite Hrem. reflexivity.
Defined.

(** *** Counter keys *)

Lemma pretty_N_char_no_colon (x : N) : pretty_N_char x <> ":"%char.
Proof. unfold pretty_N_char. repeat case_match; discriminate. Qed.

Lemma chars_cons (c : ascii) (s : string) :
  Text.chars (String c s) = c :: Text.chars s.
Proof. reflexivity. Qed.

Lemma pretty_N_go_no_colon (x : N) : forall s : string,
  ":"%char ∉ Text.chars s -> ":"%char ∉ Text.chars (pretty_N_go x s).
Proof.
  induction (N.lt_wf_0 x) as [x _ IH]. intros s Hs.
  destruct (decide (x = 0%N)) as [->|Hx].
  - by rewrite pretty_N_go_0.
  - rewrite pretty_N_go_step by lia.
    apply IH.
    + apply N.div_lt; lia.
    + rewrite chars_cons, not_elem_of_cons. split; [|exact Hs].
      intros Heq. symmetry in Heq. by apply pretty_N_char_no_colon in Heq.
Qed.

Lemma pretty_Z_no_colon (z : Z) : ":"%char ∉ Text.chars (pretty z).
Proof.
  assert (HN : forall n : N, ":"%char ∉ Text.chars (pretty n)).
  { intros n. unfold pretty, pretty_N. case_decide.
    - rewrite chars_cons, not_elem_of_cons.
      split; [discriminate|apply not_elem_of_nil].
    - apply pretty_N_go_no_colon. apply not_elem_of_nil. }
  destruct z as [|p|p]; unfold pretty, pretty_Z.
  - rewrite chars_cons, not_elem_of_cons.
    split; [discriminate|apply not_elem_of_nil].
  - apply HN.
  - match goal with
    | |- _ ∉ Text.chars ("-" +:+ ?s) =>
        change (Text.chars ("-" +:+ s)) with ("-"%char :: Text.chars s)
    end.
    rewrite not_elem_of_cons. split; [discriminate|apply HN].
Qed.

Lemma action_name_no_colon (a : Action) : ":"%char ∉ Text.chars (action_name a).
Proof.
  destruct a; cbn [action_name];
    repeat (rewrite chars_cons, not_elem_of_cons; split; [discriminate|]);
    apply not_elem_of_nil.
Qed.

(** Two texts cut at their last colon agree part by part. *)
Lemma last_colon (l1 l2 s1 s2 : list ascii) :
  l1 ++ ":"%char :: s1 = l2 ++ ":"%char :: s2 ->
  ":"%char ∉ s1 -> ":"%char ∉ s2 -> l1 = l2 /\ s1 = s2.
Proof.
  revert l2. induction l1 as [|c l1 IH]; intros [|d l2] Heq H1 H2; cbn in Heq.
  - by inversion Heq.
  - inversion Heq; subst. exfalso. apply H1.
    apply elem_of_app. right. left.
  - inversion Heq; subst. exfalso. apply H2.
    apply elem_of_app. right. left.
  - inversion Heq; subst. destruct (IH l2) as [-> ->]; auto.
Qed.

Lemma chars_inj (s t : string) : Text.chars s = Text.chars t -> s = t.
Proof.
  unfold Text.chars. intros H.
  rewrite <- (string_of_list_ascii_of_string s), <- (string_of_list_ascii_of_string t).
  by rewrite H.
Qed.

Lemma action_name_inj (a b : Action) : action_name a = action_name b -> a = b.
Proof. destruct a, b; cbn; congruence. Qed.

Lemma partitionKey_chars (id : string) (a : Action) (ws : Z) :
  Text.chars (partitionKey id a ws)
  = (Text.chars id ++ ":"%char :: Text.chars (action_name a))
    ++ ":"%char :: Text.chars (pretty ws).
Proof.
  unfold partitionKey. rewrite !IdentifierFacts.chars_app.
  change (Text.chars ":") with [":"%char].
  rewrite <- app_assoc. reflexivity.
Qed.

Lemma partitionKey_inj (id id' : string) (a a' : Action) (ws ws' : Z) :
  partitionKey id a ws = partitionKey id' a' ws' ->
  id = id' /\ a = a' /\ ws = ws'.
Proof.
  intros Heq. apply (f_equal Text.chars) in Heq.
  rewrite !partitionKey_chars in Heq.
  apply last_colon in Heq as [Hleft Hws]; try apply pretty_Z_no_colon.
  apply chars_inj in Hws. apply (inj pretty) in Hws.
  apply last_colon in Hleft as [Hid Ha]; try apply action_name_no_colon.
  apply chars_inj in Hid, Ha. apply action_name_inj in Ha. done.
Qed.

(** X5: a call changes no counter but its own.  The key of a counter
    determines the identifier, the action and the window it belongs to
    (even for identifiers that contain colons), so the row of any other
    identifier, action or window is as it was. *)
Theorem counters_do_not_interfere (tbl : gmap string CounterItem) (nowMs : Z)
    (send : SendOutcome) (options : RateLimitOptions)
    (id' : string) (a' : Action) (ws' : Z) :
  (id', a', ws')
  <> (identifier options, action options,
      window_start (limit_of options) (now_seconds nowMs)) ->
  snd (checkRateLimit tbl nowMs send options) !! partitionKey id' a' ws'
  = tbl !! partitionKey id' a' ws'.
Proof.
  intros Hother.
  rewrite (checkRateLimit_paths tbl nowMs _ send options eq_refl). cbv zeta.
  assert (Hkey : key_of options (window_start (limit_of options) (now_seconds nowMs))
                 <> partitionKey id' a' ws').
  { unfold key_of. intros Heq.
    apply partitionKey_inj in Heq as (<- & <- & <-).
    by apply Hother. }
  destruct (JS.is_safe_integer (weight options)); cbn [negb]; [|reflexivity].
  destruct send; [|reflexivity].
  destruct (JS.is_safe_integer _); cbn [negb snd]; by apply lookup_insert_ne.
Qed.

Lemma counters_do_not_interfere_witness :
  snd (checkRateLimit (snd (checkRateLimit ∅ 1700000000000 Fulfilled demo_options))
         1700003600000 Fulfilled demo_options)
  !! partitionKey "5f4dcc3b5aa765d6" create 1699999200
  = snd (checkRateLimit ∅ 1700000000000 Fulfilled demo_options)
    !! partitionKey "5f4dcc3b5aa765d6" create 1699999200.
Proof.
  apply (counters_do_not_interfere
           (snd (checkRateLimit ∅ 1700000000000 Fulfilled demo_options))
           1700003600000 Fulfilled demo_options
           "5f4dcc3b5aa765d6" create 1699999200).
  vm_compute. discriminate.
Defined.

End QuotaFacts.

(** ** Shared validation *)

Module ValidationFacts.
Import Store Validation ValidationHelper ValidationSpec.

Lemma lower_char_code (c : ascii) : is_code_char (Text.lower_char c) = is_code_char c.
Proof. destruct c as [[] [] [] [] [] [] [] []]; reflexivity. Qed.

Lemma lower_char_idem (c : ascii) :
  Text.lower_char (Text.lower_char c) = Text.lower_char c.
Proof. destruct c as [[] [] [] [] [] [] [] []]; reflexivity. Qed.

Lemma toLowerCase_idem (s : string) :
  Text.toLowerCase (Text.toLowerCase s) = Text.toLowerCase s.
Proof. induction s as [|c s IH]; cbn; [done|]. by rewrite lower_char_idem, IH. Qed.

Lemma toLowerCase_length (s : string) :
  String.length (Text.toLowerCase s) = String.length s.
Proof. induction s as [|c s IH]; cbn; [done|]. by rewrite IH. Qed.

Lemma toLowerCase_chars (s : string) :
  Text.chars (Text.toLowerCase s) = map Text.lower_char (Text.chars s).
Proof.
  induction s as [|c s IH]; [done|].
  change (Text.lower_char c :: Text.chars (Text.toLowerCase s)
          = Text.lower_char c :: map Text.lower_char (Text.chars s)).
  by rewrite IH.
Qed.

Lemma code_pattern_lower (s : string) :
  code_pattern (Text.toLowerCase s) = code_pattern s.
Proof.
  unfold code_pattern, Text.len.
  rewrite toLowerCase_length, toLowerCase_chars. f_equal. f_equal.
  induction (Text.chars s) as [|c l IH]; cbn; [done|].
  by rewrite lower_char_code, IH.
Qed.

Lemma validateShortCode_lower (s : string) :
  validateShortCode (Text.toLowerCase s) = validateShortCode s.
Proof.
  unfold validateShortCode, ShortCodeSchema, is_reserved.
  by rewrite code_pattern_lower, toLowerCase_idem.
Qed.

(** X6: on ASCII codes the shared short-code schema does not look at
    letter case: two such codes with the same lower-case form raise the
    same issues, so both are valid or both are not.  (Beyond ASCII this
    fails: the Kelvin sign has the lower-case form [k] and is refused by
    the pattern, which accepts [k].) *)
Theorem letter_case_does_not_matter (a b : string) :
  ascii_only a ->
  ascii_only b ->
  same_letters a b ->
  validateShortCode a = validateShortCode b
  /\ ShortCodeSchema a = ShortCodeSchema b.
Proof.
  unfold same_letters. intros _ _ Hab.
  split.
  - by rewrite <- (validateShortCode_lower a), <- (validateShortCode_lower b), Hab.
  - unfold ShortCodeSchema, is_reserved.
    rewrite <- (code_pattern_lower a), <- (code_pattern_lower b), Hab.
    reflexivity.
Qed.

Lemma letter_case_does_not_matter_witness :
  validateShortCode "Admin" = validateShortCode "aDMIN"
  /\ ShortCodeSchema "Admin" = ShortCodeSchema "aDMIN".
Proof.
  apply (letter_case_does_not_matter "Admin" "aDMIN").
  - repeat constructor.
  - repeat constructor.
  - reflexivity.
Defined.


(** *** Generated codes *)

Lemma reserved_words_lengths :
  Forall (fun word => String.length word <> 8%nat) reservedWords.
Proof. unfold reservedWords. repeat constructor; discriminate. Qed.

Lemma eight_letters_not_reserved (code : string) :
  String.length code = 8%nat -> is_reserved code = false.
Proof.
  intros Hlen. unfold is_reserved.
  apply not_true_is_false. intros Hex.
  apply existsb_exists in Hex as (word & Hin & Heq).
  apply String.eqb_eq in Heq.
  pose proof (proj1 (List.Forall_forall _ _) reserved_words_lengths word Hin) as Hne.
  apply Hne. rewrite <- Heq, toLowerCase_length. exact Hlen.
Qed.

Lemma alphabet_code_chars :
  forallb is_code_char (Text.chars Create.alphabet) = true.
Proof. reflexivity. Qed.

Lemma over_alphabet_pattern (code : string) :
  String.length code = 8%nat ->
  Forall (fun c => In c (Text.chars Create.alphabet)) (Text.chars code) ->
  code_pattern code = true.
Proof.
  intros Hlen Hchars. unfold code_pattern, Text.len. rewrite Hlen.
  rewrite !andb_true_r.
  apply forallb_forall. intros c Hc.
  pose proof (proj1 (List.Forall_forall _ _) Hchars c Hc) as Hin.
  exact (proj1 (forallb_forall _ _) alphabet_code_chars c Hin).
Qed.

Lemma generateShortCode_valid (w w' : World) (code : string) :
  Create.generateShortCode w = (Ok code, w') ->
  code_pattern code = true /\ is_reserved code = false.
Proof.
  unfold Create.generateShortCode, Nanoid.customAlphabet. intros Hgen.
  destruct (Nanoid.draw Create.alphabet 8 (entropy w) EmptyString) as [[id|] rest] eqn:E;
    [|discriminate].
  inversion Hgen; subst.
  apply IdentifierFacts.draw_chars in E as [Hchars Hlen]; [|constructor].
  split.
  - by apply over_alphabet_pattern.
  - by apply eight_letters_not_reserved.
Qed.

Lemma generateShortCode_length (w w' : World) (code : string) :
  Create.generateShortCode w = (Ok code, w') -> String.length code = 8%nat.
Proof.
  unfold Create.generateShortCode, Nanoid.customAlphabet. intros Hgen.
  destruct (Nanoid.draw Create.alphabet 8 (entropy w) EmptyString) as [[id|] rest] eqn:E;
    [|discriminate].
  inversion Hgen; subst.
  by apply IdentifierFacts.draw_chars in E as [_ Hlen]; [|constructor].
Qed.

(** The code the retry loop returns is one the generator drew. *)
Lemma generateUniqueShortCode_drawn (attempts : nat) :
  forall (w w' : World) (code : string),
    Create.generateUniqueShortCode_from attempts w = (Ok code, w') ->
    exists w0 w1, Create.generateShortCode w0 = (Ok code, w1).
Proof.
  induction attempts as [|n IH]; intros w w' code Hloop.
  - discriminate.
  - cbn [Create.generateUniqueShortCode_from] in Hloop.
    unfold bind in Hloop.
    destruct (Create.generateShortCode w) as [[c| |] w1] eqn:Hgen; try discriminate.
    destruct (Create.checkShortCodeExists c w1) as [[taken| |] w2] eqn:Hprobe;
      try discriminate.
    destruct taken.
    + by eapply IH.
    + inversion Hloop; subst. by exists w, w1.
Qed.

(** X7: every code the generator draws, and so every code the retry loop
    of the create handler returns, has 8 characters, matches the handler's
    pattern and passes the shared [ShortCodeSchema]: no reserved word has
    8 letters, so a generated code is never reserved. *)
Theorem generated_codes_pass_the_shared_schema (w w' : World) (code : string)
    (attempts : nat) :
  Create.generateShortCode w = (Ok code, w')
  \/ Create.generateUniqueShortCode_from attempts w = (Ok code, w') ->
  validateShortCode code = true
  /\ Create.code_regex code = true
  /\ String.length code = 8%nat.
Proof.
  intros Hrun.
  assert (Hgen : exists w0 w1, Create.generateShortCode w0 = (Ok code, w1)).
  { destruct Hrun as [Hgen|Hloop]; [by exists w, w'|].
    by eapply generateUniqueShortCode_drawn. }
  destruct Hgen as (w0 & w1 & Hgen).
  pose proof (generateShortCode_valid w0 w1 code Hgen) as [Hpat Hres].
  unfold validateShortCode, ShortCodeSchema, Create.code_regex.
  rewrite Hpat, Hres. repeat split.
  by eapply generateShortCode_length.
Qed.

Lemma generated_codes_pass_the_shared_schema_witness :
  validateShortCode "AAAAAAAA" = true
  /\ Create.code_regex "AAAAAAAA" = true
  /\ String.length "AAAAAAAA" = 8%nat.
Proof.
  apply (generated_codes_pass_the_shared_schema
           (Demo.empty_world 0 [Demo.batch 200]) (Demo.empty_world 0 [])
           "AAAAAAAA" 0).
  left. vm_compute. reflexivity.
Defined.

(** *** Sanitizing *)

Lemma trimStart_suffix (l : list ascii) : exists skipped, l = skipped ++ trimStart l.
Proof.
  induction l as [|c l [skipped IH]]; cbn [trimStart]; [by exists []|].
  destruct (is_space c); [|by exists []].
  exists (c :: skipped). cbn. by rewrite <- IH.
Qed.

Lemma trim_infix (l : list ascii) : exists before after, l = before ++ trim l ++ after.
Proof.
  unfold trim.
  destruct (trimStart_suffix l) as [before H1].
  destruct (trimStart_suffix (rev (trimStart l))) as [after H2].
  exists before, (rev after).
  rewrite <- rev_app_distr, <- H2, rev_involutive. exact H1.
Qed.

Lemma trim_sublist (l : list ascii) : sublist (trim l) l.
Proof.
  destruct (trim_infix l) as (before & after & H).
  rewrite H at 2. apply sublist_inserts_l, sublist_inserts_r. reflexivity.
Qed.

Lemma filter_sublist {A} (p : A -> bool) (l : list A) : sublist (List.filter p l) l.
Proof.
  induction l as [|x l IH]; cbn; [constructor|].
  destruct (p x); by constructor.
Qed.

Lemma trimStart_id (l : list ascii) :
  match l with [] => True | c :: _ => is_space c = false end -> trimStart l = l.
Proof. destruct l as [|c l]; cbn [trimStart]; [done|]. by intros ->. Qed.

Lemma trim_id (l : list ascii) : trimmed l -> trim l = l.
Proof.
  intros [Hhead Hlast]. unfold trim.
  rewrite (trimStart_id l Hhead).
  rewrite trimStart_id; [apply rev_involutive|].
  destruct (rev l) as [|c r] eqn:E; [done|].
  assert (Hl : l = rev r ++ [c]).
  { rewrite <- (rev_involutive l), E. reflexivity. }
  rewrite Hl, last_snoc in Hlast. exact Hlast.
Qed.

Lemma length_of_chars (l : list ascii) :
  String.length (string_of_list_ascii l) = length l.
Proof. induction l as [|c l IH]; cbn; [done|]. by rewrite IH. Qed.

Lemma length_chars (s : string) : length (Text.chars s) = String.length s.
Proof. induction s as [|c s IH]; cbn; [done|]. by rewrite <- IH. Qed.

Lemma filter_clean (l : list ascii) :
  Forall (fun c => is_dangerous c = false)
         (List.filter (fun c => negb (is_dangerous c)) l).
Proof.
  induction l as [|c l IH]; cbn [List.filter]; [constructor|].
  destruct (is_dangerous c) eqn:E; cbn [negb]; [exact IH|].
  by constructor.
Qed.

Lemma filter_clean_id (l : list ascii) :
  Forall (fun c => is_dangerous c = false) l ->
  List.filter (fun c => negb (is_dangerous c)) l = l.
Proof.
  induction l as [|c l IH]; cbn [List.filter]; [done|].
  intros Hclean. apply Forall_cons in Hclean as [-> Hrest].
  cbn [negb]. by rewrite IH.
Qed.

(** X8: [sanitizeInput] returns at most 1000 characters, none of them an
    angle bracket, a quote or an ampersand; it only removes characters
    (its output is a subsequence of its input); and it returns its input
    unchanged when that is trimmed, free of those characters and at most
    1000 long. *)
Theorem sanitizeInput_output (input : string) :
  let output := sanitizeInput input in
  Forall (fun c => is_dangerous c = false) (Text.chars output)
  /\ (String.length output <= 1000)%nat
  /\ sublist (Text.chars output) (Text.chars input)
  /\ (trimmed (Text.chars input) ->
      Forall (fun c => is_dangerous c = false) (Text.chars input) ->
      (String.length input <= 1000)%nat ->
      output = input).
Proof.
  cbv zeta. unfold sanitizeInput, Text.chars.
  rewrite list_ascii_of_string_of_list_ascii.
  set (l := list_ascii_of_string input).
  repeat split.
  - apply Forall_take, filter_clean.
  - rewrite length_of_chars, length_firstn. lia.
  - etrans; [apply sublist_take|].
    etrans; [|apply trim_sublist].
    apply filter_sublist.
  - intros Htrim Hclean Hlen.
    rewrite (trim_id l Htrim), (filter_clean_id l Hclean), firstn_all2.
    + apply string_of_list_ascii_of_string.
    + unfold l. fold (Text.chars input). rewrite length_chars. exact Hlen.
Qed.

Lemma sanitizeInput_output_witness :
  sanitizeInput "plain text" = "plain text"
  /\ sanitizeInput "  <b>Tom & Jerry</b> " = "bTom  Jerry/b".
Proof.
  split; [|reflexivity].
  apply (sanitizeInput_output "plain text").
  - split; reflexivity.
  - repeat constructor.
  - cbn. lia.
Defined.

End ValidationFacts.

(** ** What a handler run guarantees *)

Module GuaranteeFacts.
Import Store RunSpec RunFacts GuaranteeSpec.

Lemma with_links_same (w : World) : with_links (links w) w = w.
Proof. by destruct w. Qed.

Section Rules.
Context (R : World -> World -> Prop).
Hypothesis R_refl : forall w, R w w.
Hypothesis R_trans : forall w1 w2 w3, R w1 w2 -> R w2 w3 -> R w1 w3.

Lemma guarantees_ret {A} (Q : A -> Prop) (a : A) : Q a -> guarantees R Q (ret a).
Proof. intros Ha w r w' Hrun. inversion Hrun; subst. by split. Qed.

Lemma guarantees_throw {A} (Q : A -> Prop) (e : JS.Error) :
  guarantees R Q (throw e).
Proof. intros w r w' Hrun. inversion Hrun; subst. by split. Qed.

Lemma guarantees_bind {A B} (P : A -> Prop) (Q : B -> Prop) (m : M A)
    (k : A -> M B) :
  guarantees R P m -> (forall a, P a -> guarantees R Q (k a)) ->
  guarantees R Q (bind m k).
Proof.
  intros Hm Hk w r w' Hrun. unfold bind in Hrun.
  destruct (m w) as [[a|e|] w1] eqn:E; destruct (Hm _ _ _ E) as [HR HP].
  - destruct (Hk a HP _ _ _ Hrun) as [HR' HQ]. split; [by eapply R_trans|done].
  - inversion Hrun; subst. by split.
  - inversion Hrun; subst. by split.
Qed.

Lemma guarantees_try_catch {A} (Q : A -> Prop) (m : M A) (h : JS.Error -> M A) :
  guarantees R Q m -> (forall e, guarantees R Q (h e)) ->
  guarantees R Q (try_catch m h).
Proof.
  intros Hm Hh w r w' Hrun. unfold try_catch in Hrun.
  destruct (m w) as [[a|e|] w1] eqn:E; destruct (Hm _ _ _ E) as [HR HP].
  - inversion Hrun; subst. by split.
  - destruct (Hh e _ _ _ Hrun) as [HR' HQ]. split; [by eapply R_trans|done].
  - inversion Hrun; subst. by split.
Qed.

Lemma guarantees_lift {A} (Q : A -> Prop) (c : JS.Completion A) :
  (forall a, c = JS.Normal a -> Q a) -> guarantees R Q (lift c).
Proof.
  intros Hc. destruct c as [a|e]; cbn [lift].
  - apply guarantees_ret. by apply Hc.
  - apply guarantees_throw.
Qed.

Lemma guarantees_Date_now : guarantees R anything Date_now.
Proof. intros w r w' Hrun. inversion Hrun; subst. by split. Qed.

Lemma guarantees_weaken {A} (P Q : A -> Prop) (m : M A) :
  (forall a, P a -> Q a) -> guarantees R P m -> guarantees R Q m.
Proof.
  intros HPQ Hm w r w' Hrun. destruct (Hm _ _ _ Hrun) as [HR HP].
  split; [done|]. destruct r; auto.
Qed.

Hypothesis R_reply : forall w, R w (after_reply w).
Hypothesis R_put : forall w it tbl,
  put_if_absent it (links w) = Some tbl -> R w (with_links tbl w).

Lemma guarantees_send {A} (Q : A -> Prop) (op : M A) :
  guarantees R Q op -> guarantees R Q (send op).
Proof.
  intros Hop w r w' Hrun. unfold send in Hrun.
  destruct (outcome (next_reply w)) as [|e|winner].
  - destruct (Hop _ _ _ Hrun) as [HR HQ]. split; [|done].
    eapply R_trans; [apply R_reply|exact HR].
  - inversion Hrun; subst. split; [apply R_reply|done].
  - destruct (Hop _ _ _ Hrun) as [HR HQ]. split; [|done].
    eapply R_trans; [apply R_reply|].
    eapply R_trans; [|exact HR].
    destruct (put_if_absent winner (links (after_reply w))) as [tbl|] eqn:E;
      cbn [default].
    + by apply R_put in E.
    + rewrite with_links_same. apply R_refl.
Qed.

Lemma guarantees_GetItem (code : string) (keep : LinkItem -> LinkItem) :
  guarantees R anything (GetItem code keep).
Proof.
  apply guarantees_send. intros w r w' Hrun. inversion Hrun; subst. by split.
Qed.

Lemma guarantees_Query (hash : string) :
  guarantees R anything (Query_OriginalUrlIndex hash).
Proof.
  apply guarantees_send. intros w r w' Hrun. inversion Hrun; subst. by split.
Qed.

Lemma guarantees_PutItem_Links (it : LinkItem) :
  guarantees R anything (PutItem_Links it).
Proof.
  apply guarantees_send. intros w r w' Hrun.
  destruct (put_if_absent it (links w)) as [tbl|] eqn:E;
    inversion Hrun; subst; (split; [|done]).
  - by apply R_put in E.
  - apply R_refl.
Qed.

Hypothesis R_entropy : forall w e, R w (with_entropy e w).

Lemma guarantees_generateShortCode : guarantees R anything Create.generateShortCode.
Proof.
  intros w r w' Hrun. unfold Create.generateShortCode in Hrun.
  destruct (Nanoid.customAlphabet _ _ _) as [[id|] rest];
    inversion Hrun; subst; (split; [apply R_entropy|done]).
Qed.

Context `{RT : Runtime}.

Lemma guarantees_findExistingLink (hash : string) :
  guarantees R anything (Create.findExistingLink hash).
Proof.
  unfold Create.findExistingLink.
  apply guarantees_try_catch; [|intros; by apply guarantees_ret].
  eapply guarantees_bind; [apply guarantees_Query|].
  intros [|item rest] _; [by apply guarantees_ret|].
  destruct (negb _); [by apply guarantees_ret|].
  eapply guarantees_bind; [apply guarantees_Date_now|].
  intros now _. destruct (_ >? _); by apply guarantees_ret.
Qed.

Lemma guarantees_checkShortCodeExists (code : string) :
  guarantees R anything (Create.checkShortCodeExists code).
Proof.
  unfold Create.checkShortCodeExists.
  apply guarantees_try_catch; [|intros; by apply guarantees_ret].
  eapply guarantees_bind; [apply guarantees_GetItem|].
  intros item _. by apply guarantees_ret.
Qed.

Lemma guarantees_generateUniqueShortCode (attempts : nat) :
  guarantees R anything (Create.generateUniqueShortCode_from attempts).
Proof.
  induction attempts as [|n IH]; cbn [Create.generateUniqueShortCode_from].
  - apply guarantees_throw.
  - eapply guarantees_bind; [apply guarantees_generateShortCode|].
    intros code _.
    eapply guarantees_bind; [apply guarantees_checkShortCodeExists|].
    intros [|] _; [exact IH|by apply guarantees_ret].
Qed.

Lemma guarantees_existing_response (link : LinkItem) :
  guarantees R create_response (Create.existing_response link).
Proof.
  unfold Create.existing_response.
  eapply guarantees_bind; [by apply (guarantees_lift anything)|].
  intros created _. by apply guarantees_ret.
Qed.

Lemma guarantees_create_link (v : Create.Validated) (urlHash code : string)
    (custom : bool) :
  guarantees R create_response (Create.create_link v urlHash code custom).
Proof.
  unfold Create.create_link.
  eapply guarantees_bind; [apply guarantees_Date_now|]. intros now _.
  cbv zeta.
  eapply guarantees_bind; [apply guarantees_PutItem_Links|]. intros _ _.
  eapply guarantees_bind; [by apply (guarantees_lift anything)|]. intros created _.
  eapply (guarantees_bind anything).
  - destruct (JS.truthy_num _); [|by apply guarantees_ret].
    eapply guarantees_bind; [by apply (guarantees_lift anything)|].
    intros iso _. by apply guarantees_ret.
  - intros expiresIso _. by apply guarantees_ret.
Qed.

Lemma guarantees_try_block (event_body : Create.EventBody) :
  guarantees R create_response (Create.try_block event_body).
Proof.
  destruct event_body as [| |requestBody]; cbn [Create.try_block].
  - apply guarantees_ret. cbn. intuition.
  - apply guarantees_throw.
  - eapply guarantees_bind; [by apply (guarantees_lift anything)|]. intros v _.
    cbv zeta.
    eapply guarantees_bind; [apply guarantees_findExistingLink|].
    intros [link|] _; [apply guarantees_existing_response|].
    destruct (JS.truthy_str _).
    + eapply guarantees_bind; [apply guarantees_checkShortCodeExists|].
      intros [|] _; [|apply guarantees_create_link].
      apply guarantees_ret. cbn. intuition.
    + eapply guarantees_bind; [apply guarantees_generateUniqueShortCode|].
      intros code _. apply guarantees_create_link.
Qed.

Lemma guarantees_on_error (error : JS.Error) :
  guarantees R create_response (Create.on_error error).
Proof.
  destruct error as [issues|name message]; cbn [Create.on_error].
  - apply guarantees_ret. cbn. intuition.
  - destruct (String.eqb _ _); apply guarantees_ret; cbn; intuition.
Qed.

Lemma guarantees_create_handler (event_body : Create.EventBody) :
  guarantees R create_response (Create.handler event_body).
Proof.
  unfold Create.handler.
  apply guarantees_try_catch; [apply guarantees_try_block|].
  apply guarantees_on_error.
Qed.

Hypothesis R_analytics : forall w a, R w (with_analytics a w).
Hypothesis R_click : forall w code ts,
  R w (with_links
         (if existsb (has_code code) (links w)
          then map (fun it => if has_code code it then add_click ts it else it)
                   (links w)
          else links w ++ [add_click ts (blank_item code)]) w).

Lemma guarantees_PutItem_Analytics (it : AnalyticsItem) :
  guarantees R anything (PutItem_Analytics it).
Proof.
  apply guarantees_send. intros w r w' Hrun. inversion Hrun; subst.
  split; [apply R_analytics|done].
Qed.

Lemma guarantees_UpdateItem_click (code : string) (ts : Z) :
  guarantees R anything (UpdateItem_click code ts).
Proof.
  apply guarantees_send. intros w r w' Hrun. inversion Hrun; subst.
  split; [apply R_click|done].
Qed.

Lemma guarantees_storeAnalytics (item : AnalyticsItem) :
  guarantees R anything (Redirect.storeAnalytics item).
Proof.
  unfold Redirect.storeAnalytics.
  apply guarantees_try_catch; [apply guarantees_PutItem_Analytics|].
  intros e. by apply guarantees_ret.
Qed.

Lemma guarantees_trackAnalytics (ev : Redirect.AnalyticsEvent) :
  guarantees R anything (Redirect.trackAnalytics ev).
Proof.
  unfold Redirect.trackAnalytics.
  eapply guarantees_bind; [apply guarantees_Date_now|]. intros timestamp _.
  apply guarantees_storeAnalytics.
Qed.

Lemma guarantees_updateClickCount (code : string) :
  guarantees R anything (Redirect.updateClickCount code).
Proof.
  unfold Redirect.updateClickCount.
  apply guarantees_try_catch; [|intros e; by apply guarantees_ret].
  eapply guarantees_bind; [apply guarantees_Date_now|]. intros now _.
  apply guarantees_UpdateItem_click.
Qed.

Lemma guarantees_redirect_handler (event : Redirect.Event) :
  guarantees R redirect_response (Redirect.handler event).
Proof.
  unfold Redirect.handler.
  eapply guarantees_bind; [apply guarantees_Date_now|]. intros startTime _.
  destruct (negb _).
  { apply guarantees_ret. cbn. intuition. }
  cbv zeta.
  apply guarantees_try_catch; [|intros e; apply guarantees_ret; cbn; intuition].
  eapply guarantees_bind; [apply guarantees_GetItem|].
  intros [linkItem|] _.
  - eapply guarantees_bind; [apply guarantees_Date_now|]. intros now _.
    destruct (_ && _).
    + eapply guarantees_bind; [apply guarantees_Date_now|]. intros now' _.
      eapply guarantees_bind; [apply guarantees_trackAnalytics|]. intros _ _.
      by apply guarantees_ret.
    + eapply guarantees_bind; [apply guarantees_Date_now|]. intros now' _.
      eapply guarantees_bind; [apply guarantees_Date_now|]. intros timestamp _.
      cbv zeta.
      eapply (guarantees_bind anything).
      { eapply guarantees_bind; [apply guarantees_Date_now|]. intros t _.
        by apply guarantees_ret. }
      intros responseTime _.
      eapply guarantees_bind; [apply guarantees_updateClickCount|]. intros _ _.
      eapply guarantees_bind; [apply guarantees_storeAnalytics|]. intros _ _.
      by apply guarantees_ret.
  - eapply guarantees_bind; [apply guarantees_Date_now|]. intros now _.
    eapply guarantees_bind; [apply guarantees_trackAnalytics|]. intros _ _.
    by apply guarantees_ret.
Qed.

End Rules.

(** The [catch] block of the create handler turns every error into a
    response. *)
Lemma create_handler_catches `{RT : Runtime} (event_body : Create.EventBody)
    (w : World) :
  exists w',
    (exists resp, Create.handler event_body w = (Ok resp, w'))
    \/ Create.handler event_body w = (Starved, w').
Proof.
  unfold Create.handler, try_catch.
  destruct (Create.try_block event_body w) as [[resp|e|] w1].
  - exists w1. left. by exists resp.
  - exists w1. left. destruct e as [issues|name message]; cbn [Create.on_error].
    + by eexists.
    + destruct (String.eqb _ _); by eexists.
  - exists w1. by right.
Qed.

Lemma omap_cons {A B} (f : A -> option B) (x : A) (l : list A) :
  omap f (x :: l) = match f x with Some y => y :: omap f l | None => omap f l end.
Proof. reflexivity. Qed.

Lemma omap_app {A B} (f : A -> option B) (l k : list A) :
  omap f (l ++ k) = omap f l ++ omap f k.
Proof.
  induction l as [|x l IH]; [done|].
  rewrite <- app_comm_cons, !omap_cons, IH. by destruct (f x).
Qed.

Lemma existsb_has_code (code : string) (tbl : list LinkItem) :
  existsb (has_code code) tbl = false -> code ∉ codes tbl.
Proof.
  unfold codes. induction tbl as [|row tbl IH]; cbn [existsb].
  - intros _. apply not_elem_of_nil.
  - intros H. apply orb_false_iff in H as [Hrow Hrest].
    unfold has_code in Hrow. rewrite omap_cons.
    destruct (shortCode row) as [c|]; [|by apply IH].
    apply not_elem_of_cons. split; [|by apply IH].
    intros ->. by rewrite String.eqb_refl in Hrow.
Qed.

(** A guarded put keeps short codes unique. *)
Lemma put_if_absent_unique (it : LinkItem) (tbl tbl' : list LinkItem) :
  put_if_absent it tbl = Some tbl' ->
  tbl' = tbl ++ [it] /\ (NoDup (codes tbl) -> NoDup (codes tbl')).
Proof.
  unfold put_if_absent.
  destruct (existsb _ tbl) eqn:E; [discriminate|].
  intros [= <-]. split; [done|]. intros Hnodup.
  unfold codes. rewrite omap_app, omap_cons.
  destruct (shortCode it) as [c|]; [|by rewrite app_nil_r].
  apply NoDup_app. split; [exact Hnodup|]. split; [|apply NoDup_singleton].
  intros x Hx Hc. apply list_elem_of_singleton in Hc as ->.
  change (existsb (fun row => has_code c row) tbl) with (existsb (has_code c) tbl) in E.
  by apply existsb_has_code in E.
Qed.

Lemma only_appends_refl (w : World) : only_appends w w.
Proof. repeat split; [exists []; by rewrite app_nil_r|done]. Qed.

Lemma only_appends_trans (w1 w2 w3 : World) :
  only_appends w1 w2 -> only_appends w2 w3 -> only_appends w1 w3.
Proof.
  intros ([a Ha] & Han & Hu) ([b Hb] & Hbn & Hv).
  repeat split.
  - exists (a ++ b). by rewrite Hb, Ha, app_assoc.
  - congruence.
  - auto.
Qed.

Lemma only_appends_put (w : World) (it : LinkItem) (tbl : list LinkItem) :
  put_if_absent it (links w) = Some tbl -> only_appends w (with_links tbl w).
Proof.
  intros Hput. apply put_if_absent_unique in Hput as [-> Hu].
  repeat split; [by exists [it]|exact Hu].
Qed.

Section CreateGuarantee.
Context `{RT : Runtime}.

(** X9: whatever the request and whatever the store does (answers,
    errors, writes of racing requests), a run of the create handler only
    appends rows to the links table, leaves the analytics table alone,
    and keeps short codes unique if they were. *)
Theorem create_only_appends (event_body : Create.EventBody) (w : World) :
  only_appends w (snd (Create.handler event_body w)).
Proof.
  destruct (Create.handler event_body w) as [r w'] eqn:Hrun.
  refine (proj1 (guarantees_create_handler only_appends only_appends_refl
                   only_appends_trans _ only_appends_put _ event_body w r w' Hrun)).
  - intros w0. repeat split; [exists []; by rewrite app_nil_r|done].
  - intros w0 e. repeat split; [exists []; by rewrite app_nil_r|done].
Qed.

(** X10: the create handler answers every request: whatever the body,
    the tables and the store's replies, it returns a response (201 with
    the link, or an error body that repeats a status of 400, 409 or 500)
    and never throws; the only other way a run can end is a random source
    that runs dry. *)
Theorem create_always_answers (event_body : Create.EventBody) (w : World) :
  exists w',
    (exists resp,
        Create.handler event_body w = (Ok resp, w') /\ create_response resp)
    \/ Create.handler event_body w = (Starved, w').
Proof.
  destruct (create_handler_catches event_body w) as (w' & [[resp Hrun]|Hrun]).
  - exists w'. left. exists resp. split; [exact Hrun|].
    exact (proj2 (guarantees_create_handler (fun _ _ => True)
                    (fun _ => I) (fun _ _ _ _ _ => I) (fun _ => I)
                    (fun _ _ _ _ => I) (fun _ _ => I) event_body w _ w' Hrun)).
  - exists w'. by right.
Qed.

End CreateGuarantee.

(** *** The redirect handler *)

Lemma send_not_starved {A} (op : M A) (w : World) :
  (forall w0, fst (op w0) <> Starved) -> fst (send op w) <> Starved.
Proof.
  intros Hop. unfold send. destruct (outcome (next_reply w)); [apply Hop|done|apply Hop].
Qed.

Section RedirectAnswers.
Context `{RT : Runtime}.

Lemma trackAnalytics_answers (ev : Redirect.AnalyticsEvent) (w : World) :
  exists w', Redirect.trackAnalytics ev w = (Ok tt, w').
Proof.
  destruct (RedirectFacts.trackAnalytics_records ev w) as (w' & Hrun & _).
  by exists w'.
Qed.

Lemma updateClickCount_answers (code : string) (w : World) :
  exists w', Redirect.updateClickCount code w = (Ok tt, w').
Proof.
  unfold Redirect.updateClickCount, try_catch, bind, Date_now, UpdateItem_click, send.
  destruct (outcome (next_reply w)); by eexists.
Qed.

Lemma redirect_handler_answers (event : Redirect.Event) (w : World) :
  exists resp w', Redirect.handler event w = (Ok resp, w').
Proof.
  unfold Redirect.handler, bind at 1, Date_now at 1.
  destruct (negb _); [by eexists _, _|].
  cbv zeta. unfold try_catch.
  match goal with
  | |- context [bind (GetItem ?c ?k) ?rest w] =>
      destruct (bind (GetItem c k) rest w) as [[resp|e|] w1] eqn:Hrun
  end.
  - by exists resp, w1.
  - by eexists _, _.
  - exfalso. unfold bind at 1 in Hrun.
    match type of Hrun with
    | context [GetItem ?c ?k w] =>
        destruct (GetItem c k w) as [[item|e|] w0] eqn:Hget
    end; [|discriminate|].
    + destruct item as [linkItem|].
      * unfold bind at 1, Date_now at 1 in Hrun.
        destruct (_ && _).
        -- unfold bind at 1, Date_now at 1 in Hrun. unfold bind at 1 in Hrun.
           match type of Hrun with
           | context [Redirect.trackAnalytics ?ev w0] =>
               destruct (trackAnalytics_answers ev w0) as [w2 Htrack]
           end.
           rewrite Htrack in Hrun. discriminate.
        -- unfold bind at 1, Date_now at 1 in Hrun.
           unfold bind at 1, Date_now at 1 in Hrun. cbv zeta in Hrun.
           unfold bind at 1 in Hrun. unfold bind at 1, Date_now at 1, ret at 1 in Hrun.
           unfold bind at 1 in Hrun.
           match type of Hrun with
           | context [Redirect.updateClickCount ?c w0] =>
               destruct (updateClickCount_answers c w0) as [w2 Hclick]
           end.
           rewrite Hclick in Hrun. unfold bind at 1 in Hrun.
           match type of Hrun with
           | context [Redirect.storeAnalytics ?item w2] =>
               destruct (RedirectFacts.storeAnalytics_records item w2)
                 as (w3 & Hstore & _)
           end.
           rewrite Hstore in Hrun. discriminate.
      * unfold bind at 1, Date_now at 1 in Hrun. unfold bind at 1 in Hrun.
        match type of Hrun with
        | context [Redirect.trackAnalytics ?ev w0] =>
            destruct (trackAnalytics_answers ev w0) as [w2 Htrack]
        end.
        rewrite Htrack in Hrun. discriminate.
    + pose proof (send_not_starved
                    (fun w => (Ok (Redirect.redirect_projection
                                     <$> List.find (has_code
                                           (default EmptyString (Redirect.pathShortCode event)))
                                           (links w)), w)) w) as Hns.
      unfold GetItem in Hget. rewrite Hget in Hns. by apply Hns.
Qed.

End RedirectAnswers.

Lemma target_add_click (ts : Z) (it : LinkItem) : target (add_click ts it) = target it.
Proof. reflexivity. Qed.

Lemma click_targets (code : string) (ts : Z) (tbl : list LinkItem) :
  map target (map (fun it => if has_code code it then add_click ts it else it) tbl)
  = map target tbl.
Proof.
  rewrite map_map. apply map_ext. intros it. by destruct (has_code code it).
Qed.

Lemma click_codes (code : string) (ts : Z) (tbl : list LinkItem) :
  codes (map (fun it => if has_code code it then add_click ts it else it) tbl)
  = codes tbl.
Proof.
  unfold codes. induction tbl as [|it tbl IH]; [done|].
  cbn [map]. rewrite !omap_cons, IH. by destruct (has_code code it).
Qed.

Lemma keeps_targets_refl (w : World) : keeps_targets w w.
Proof. split; [exists []; by rewrite app_nil_r|done]. Qed.

Lemma keeps_targets_trans (w1 w2 w3 : World) :
  keeps_targets w1 w2 -> keeps_targets w2 w3 -> keeps_targets w1 w3.
Proof.
  intros ([a Ha] & Hu) ([b Hb] & Hv). split; [|auto].
  exists (a ++ b). by rewrite Hb, Ha, app_assoc.
Qed.

Lemma keeps_targets_put (w : World) (it : LinkItem) (tbl : list LinkItem) :
  put_if_absent it (links w) = Some tbl -> keeps_targets w (with_links tbl w).
Proof.
  intros Hput. apply put_if_absent_unique in Hput as [-> Hu].
  split; [|exact Hu]. exists [target it]. cbn [links with_links]. by rewrite map_app.
Qed.

Lemma keeps_targets_click (w : World) (code : string) (ts : Z) :
  keeps_targets w
    (with_links
       (if existsb (has_code code) (links w)
        then map (fun it => if has_code code it then add_click ts it else it)
                 (links w)
        else links w ++ [add_click ts (blank_item code)]) w).
Proof.
  unfold keeps_targets, unique_codes. cbn [links with_links].
  destruct (existsb (has_code code) (links w)) eqn:E.
  - rewrite click_targets, click_codes. split; [exists []; by rewrite app_nil_r|done].
  - split; [eexists; by rewrite map_app|].
    intros Hu. unfold codes. rewrite omap_app.
    apply NoDup_app. split; [exact Hu|]. split; [|apply NoDup_singleton].
    intros x Hx Hc. apply list_elem_of_singleton in Hc as ->.
    by apply existsb_has_code in E.
Qed.

Section RedirectGuarantee.
Context `{RT : Runtime}.

(** X11: whatever the request and whatever the store does, a run of the
    redirect handler keeps every link there was, in its place, under its
    code, with its URL and its expiry, and keeps short codes unique if
    they were. *)
Theorem redirect_keeps_targets (event : Redirect.Event) (w : World) :
  keeps_targets w (snd (Redirect.handler event w)).
Proof.
  destruct (Redirect.handler event w) as [r w'] eqn:Hrun.
  refine (proj1 (guarantees_redirect_handler keeps_targets keeps_targets_refl
                   keeps_targets_trans _ keeps_targets_put _ keeps_targets_click
                   event w r w' Hrun)).
  - intros w0. split; [exists []; by rewrite app_nil_r|done].
  - intros w0 a. split; [exists []; by rewrite app_nil_r|done].
Qed.

(** X12: the redirect handler answers every request and never throws:
    301 with an empty body, 404 with the not-found page, 410 with the
    expiry page, or a JSON error with status 400 or 500. *)
Theorem redirect_always_answers (event : Redirect.Event) (w : World) :
  exists resp w',
    Redirect.handler event w = (Ok resp, w') /\ redirect_response resp.
Proof.
  destruct (redirect_handler_answers event w) as (resp & w' & Hrun).
  exists resp, w'. split; [exact Hrun|].
  exact (proj2 (guarantees_redirect_handler (fun _ _ => True)
                  (fun _ => I) (fun _ _ _ _ _ => I) (fun _ => I)
                  (fun _ _ _ _ => I) (fun _ _ => I) (fun _ _ _ => I)
                  event w _ w' Hrun)).
Qed.

End RedirectGuarantee.

End GuaranteeFacts.

(** ** Resolving a stored link *)

Module ResolveFacts.
Import Store Redirect RunSpec RunFacts RedirectSpec ResolveSpec.

Lemma find_app {A} (p : A -> bool) (l k : list A) :
  List.find p (l ++ k)
  = match List.find p l with
    | Some x => Some x
    | None => List.find p k
    end.
Proof. induction l as [|x l IH]; cbn; [done|]. by destruct (p x). Qed.

Lemma find_click (code : string) (ts : Z) (tbl : list LinkItem) :
  List.find (has_code code)
    (map (fun it => if has_code code it then add_click ts it else it) tbl)
  = add_click ts <$> List.find (has_code code) tbl.
Proof.
  induction tbl as [|it tbl IH]; cbn [map List.find]; [done|].
  destruct (has_code code it) eqn:E.
  - change (has_code code (add_click ts it)) with (has_code code it).
    by rewrite E.
  - by rewrite E, IH.
Qed.

Lemma put_if_absent_find (winner : LinkItem) (tbl : list LinkItem) (code : string)
    (item : LinkItem) :
  List.find (has_code code) tbl = Some item ->
  List.find (has_code code) (default tbl (put_if_absent winner tbl)) = Some item.
Proof.
  intros Hfind. unfold put_if_absent.
  destruct (existsb _ tbl); [done|].
  change (default tbl (Some (tbl ++ [winner]))) with (tbl ++ [winner]).
  by rewrite find_app, Hfind.
Qed.

Section WithRuntime.
Context `{RT : Runtime}.

(** [trackAnalytics] leaves the row found under a code where it is. *)
Lemma storeAnalytics_row (it : AnalyticsItem) (w : World) (code : string)
    (item : LinkItem) :
  row_of code w = Some item ->
  row_of code (snd (storeAnalytics it w)) = Some item.
Proof.
  unfold row_of, storeAnalytics, PutItem_Analytics, try_catch, send.
  intros Hfind.
  destruct (outcome (next_reply w)) as [|e|winner]; cbn; try done.
  by apply put_if_absent_find.
Qed.

Lemma trackAnalytics_row (ev : AnalyticsEvent) (w : World) (code : string)
    (item : LinkItem) :
  row_of code w = Some item ->
  row_of code (snd (trackAnalytics ev w)) = Some item.
Proof.
  intros Hfind. unfold trackAnalytics, bind, Date_now.
  by apply storeAnalytics_row.
Qed.

(** [updateClickCount] never throws; the store permitting, the row under
    the code has one more click and the time of the update. *)
Lemma updateClickCount_row (code : string) (w : World) (item : LinkItem) :
  row_of code w = Some item ->
  fst (updateClickCount code w) = Ok tt
  /\ row_of code (snd (updateClickCount code w))
     = Some (if put_lands w then add_click (clock w) item else item).
Proof.
  unfold row_of, updateClickCount, UpdateItem_click, try_catch, bind, Date_now, send,
    put_lands.
  intros Hfind.
  destruct (outcome (next_reply w)) as [|e|winner]; cbn.
  - split; [done|].
    rewrite CreateFacts.find_existsb, Hfind. cbn.
    by rewrite find_click, Hfind.
  - done.
  - split; [done|].
    pose proof (put_if_absent_find winner (links w) code item Hfind) as Hfind'.
    rewrite CreateFacts.find_existsb, Hfind'. cbn.
    by rewrite find_click, Hfind'.
Qed.

(** A lookup that finds the row of an active link: the redirect, then
    the two writes. *)
Lemma found_active (event : Event) (code : string) (w : World) (item : LinkItem) :
  pathShortCode event = Some code ->
  code <> EmptyString ->
  outcome (next_reply w) = Answers ->
  row_of code w = Some item ->
  active (clock (after_reply w)) item ->
  handler event w
  = (Ok (redirect_with (originalUrl item) code (clock (after_reply w) - clock w)),
     snd (storeAnalytics (success_item event code (clock (after_reply w)))
            (snd (updateClickCount code (after_reply w))))).
Proof.
  intros Hpath Hcode Hanswers Hfind Hactive.
  unfold handler. unfold Date_now at 1. unfold bind at 1.
  rewrite Hpath. destruct code as [|c code]; [done|].
  cbn [JS.truthy_str negb].
  change (default EmptyString (Some (String c code))) with (String c code).
  apply try_catch_Ok.
  rewrite (bind_Ok _ _ _ _ _ (GetItem_answers _ _ _ Hanswers)).
  unfold row_of in Hfind. rewrite Hfind. cbn [fmap option_fmap option_map].
  unfold Date_now at 1. unfold bind at 1.
  cbn [redirect_projection expiresAt originalUrl].
  assert (Hcond : JS.truthy_num (expiresAt item)
                  && (clock (after_reply w) >? default 0 (expiresAt item)) = false).
  { unfold active in Hactive. destruct (expiresAt item) as [e|]; [|done].
    change (default 0 (Some e)) with e. cbn [JS.truthy_num].
    destruct (Z.eqb_spec e 0) as [He|He]; [done|]. cbn [negb andb].
    destruct Hactive as [|Hle]; [done|].
    destruct (Z.gtb_spec (clock (after_reply w)) e); [lia|done]. }
  rewrite Hcond.
  unfold Date_now at 1. unfold bind at 1.
  unfold Date_now at 1. unfold bind at 1. cbv zeta.
  unfold bind at 1. unfold Date_now at 1. unfold bind at 1. unfold ret at 1.
  unfold bind at 1.
  pose proof (updateClickCount_row (String c code) (after_reply w) item Hfind)
    as [Hok _].
  destruct (updateClickCount (String c code) (after_reply w)) as [r1 w2].
  cbn [fst snd] in Hok |- *. subst r1.
  unfold bind at 1.
  fold (success_item event (String c code) (clock (after_reply w))).
  destruct (RedirectFacts.storeAnalytics_records
              (success_item event (String c code) (clock (after_reply w))) w2)
    as (w3 & Hrun & _).
  rewrite Hrun. reflexivity.
Qed.

(** A lookup that finds the row of a link whose expiry has passed. *)
Lemma found_expired (event : Event) (code : string) (w : World) (item : LinkItem)
    (e : Z) :
  pathShortCode event = Some code ->
  code <> EmptyString ->
  outcome (next_reply w) = Answers ->
  row_of code w = Some item ->
  expiresAt item = Some e ->
  e <> 0 ->
  e < clock (after_reply w) ->
  handler event w
  = (Ok createExpiredResponse,
     snd (trackAnalytics
            (analytics_event event code (clock (after_reply w)) EXPIRED)
            (after_reply w))).
Proof.
  intros Hpath Hcode Hanswers Hfind Hexp He0 Hpast.
  destruct (RedirectFacts.trackAnalytics_records
              (analytics_event event code (clock (after_reply w)) EXPIRED)
              (after_reply w)) as (w' & Hrun & _).
  rewrite Hrun. cbn [snd].
  unfold handler. unfold Date_now at 1. unfold bind at 1.
  rewrite Hpath. destruct code as [|c code]; [done|].
  cbn [JS.truthy_str negb].
  change (default EmptyString (Some (String c code))) with (String c code).
  apply try_catch_Ok.
  rewrite (bind_Ok _ _ _ _ _ (GetItem_answers _ _ _ Hanswers)).
  unfold row_of in Hfind. rewrite Hfind. cbn [fmap option_fmap option_map].
  unfold Date_now at 1. unfold bind at 1.
  cbn [redirect_projection expiresAt]. rewrite Hexp.
  change (default 0 (Some e)) with e. cbn [JS.truthy_num].
  destruct (Z.eqb_spec e 0) as [|_]; [done|]. cbn [negb andb].
  destruct (Z.gtb_spec (clock (after_reply w)) e) as [_|Hle]; [|lia].
  unfold Date_now at 1. unfold bind at 1.
  by rewrite (bind_Ok _ _ _ _ _ Hrun).
Qed.

Lemma updateClickCount_analytics (code : string) (w : World) :
  analytics (snd (updateClickCount code w)) = analytics w.
Proof.
  unfold updateClickCount, UpdateItem_click, try_catch, bind, Date_now, send.
  by destruct (outcome (next_reply w)).
Qed.

(** X13: a request without a short code in its path (missing or empty)
    is answered 400 [Short code is required] and nothing else happens: no
    round trip to the store, no analytics row. *)
Theorem missing_code_is_a_bad_request (event : Event) (w : World) :
  pathShortCode event = None \/ pathShortCode event = Some EmptyString ->
  handler event w = (Ok (createErrorResponse 400 "Short code is required"), w).
Proof.
  intros Hpath. unfold handler. unfold Date_now at 1. unfold bind at 1.
  by destruct Hpath as [-> | ->].
Qed.

(** X14: resolving a code that has no row answers 404 with the not-found
    page and the code in [X-Short-Code]; the store permitting, the last
    analytics row is then a NOT_FOUND event for that code stamped with the
    time of the lookup's answer, and otherwise the analytics table is as
    it was: the response does not depend on it. *)
Theorem unknown_code_is_not_found (event : Event) (code : string) (w : World) :
  pathShortCode event = Some code ->
  code <> EmptyString ->
  outcome (next_reply w) = Answers ->
  row_of code w = None ->
  exists w',
    handler event w = (Ok (createNotFoundResponse code), w')
    /\ statusCode (createNotFoundResponse code) = 404
    /\ In ("X-Short-Code"%string, code) (headers (createNotFoundResponse code))
    /\ (put_lands (after_reply w) = true ->
        exists row,
          last (analytics w') = Some row
          /\ a_eventType row = NOT_FOUND
          /\ a_shortCode row = code
          /\ a_timestamp row = clock (after_reply w))
    /\ (put_lands (after_reply w) = false -> analytics w' = analytics w).
Proof.
  intros Hpath Hcode Hanswers Hfind.
  destruct (RedirectFacts.trackAnalytics_records
              (analytics_event event code (clock (after_reply w)) NOT_FOUND)
              (after_reply w)) as (w' & Hrun & Hput & Hnoput).
  exists w'. split.
  - unfold handler. unfold Date_now at 1. unfold bind at 1.
    rewrite Hpath. destruct code as [|c code]; [done|].
    cbn [JS.truthy_str negb].
    change (default EmptyString (Some (String c code))) with (String c code).
    apply try_catch_Ok.
    rewrite (bind_Ok _ _ _ _ _ (GetItem_answers _ _ _ Hanswers)).
    unfold row_of in Hfind. rewrite Hfind. cbn [fmap option_fmap option_map].
    unfold Date_now at 1. unfold bind at 1.
    by rewrite (bind_Ok _ _ _ _ _ Hrun).
  - split; [reflexivity|]. split; [cbn; tauto|]. split.
    + intros Hl. destruct (Hput Hl) as (row & Hrows & Htype & Hcode' & Htime).
      exists row. by rewrite Hrows, last_snoc.
    + intros Hl. exact (Hnoput Hl).
Qed.

(** X15: resolving a code whose link is active (no expiry, a zero one, or
    one not yet passed: at the very instant of expiry the link is still
    served) answers 301 with the stored URL in [Location], whatever
    becomes of the click-count update and of the analytics write that
    follow. *)
Theorem active_link_redirects (event : Event) (code : string) (w : World)
    (item : LinkItem) (u : string) :
  pathShortCode event = Some code ->
  code <> EmptyString ->
  outcome (next_reply w) = Answers ->
  row_of code w = Some item ->
  originalUrl item = Some u ->
  active (clock (after_reply w)) item ->
  exists w',
    handler event w = (Ok (redirect_to u code (latency (next_reply w))), w')
    /\ statusCode (redirect_to u code (latency (next_reply w))) = 301
    /\ In ("Location"%string, u) (headers (redirect_to u code (latency (next_reply w)))).
Proof.
  intros Hpath Hcode Hanswers Hfind Hurl Hactive.
  eexists. split.
  - rewrite (found_active event code w item Hpath Hcode Hanswers Hfind Hactive).
    rewrite Hurl.
    replace (clock (after_reply w) - clock w) with (latency (next_reply w))
      by (cbn; lia).
    reflexivity.
  - split; [reflexivity|]. by left.
Qed.

(** X16: a redirect counts its click.  When the store takes the update, the
    row under the code has one more click (one, if it had no count) and
    the time of the lookup's answer as [lastClickAt], with URL and expiry
    unchanged; when the store rejects it, the row is as it was.  Every
    analytics row the request leaves that was not there is a SUCCESS
    event for the code, stamped with the time of the lookup's answer as
    well. *)
Theorem click_is_counted (event : Event) (code : string) (w : World)
    (item : LinkItem) :
  pathShortCode event = Some code ->
  code <> EmptyString ->
  outcome (next_reply w) = Answers ->
  row_of code w = Some item ->
  active (clock (after_reply w)) item ->
  let w' := snd (handler event w) in
  (put_lands (after_reply w) = true ->
   exists row,
     row_of code w' = Some row
     /\ clickCount row = Some (default 0 (clickCount item) + 1)
     /\ lastClickAt row = Some (clock (after_reply w))
     /\ originalUrl row = originalUrl item
     /\ expiresAt row = expiresAt item)
  /\ (put_lands (after_reply w) = false -> row_of code w' = Some item)
  /\ (forall row, In row (analytics w') ->
        In row (analytics w)
        \/ (a_eventType row = SUCCESS /\ a_shortCode row = code
            /\ a_timestamp row = clock (after_reply w))).
Proof.
  intros Hpath Hcode Hanswers Hfind Hactive. cbv zeta.
  rewrite (found_active event code w item Hpath Hcode Hanswers Hfind Hactive).
  cbn [snd].
  assert (Hfind1 : row_of code (after_reply w) = Some item) by exact Hfind.
  destruct (updateClickCount_row code (after_reply w) item Hfind1) as [_ Hrow].
  pose proof (updateClickCount_analytics code (after_reply w)) as Hrows.
  set (w2 := snd (updateClickCount code (after_reply w))) in *.
  set (it := success_item event code (clock (after_reply w))).
  pose proof (storeAnalytics_row it w2 code _ Hrow) as Hrow'.
  repeat split.
  - intros Hl. rewrite Hl in Hrow'. eexists. split; [exact Hrow'|]. done.
  - intros Hl. by rewrite Hl in Hrow'.
  - intros row Hin.
    destruct (RedirectFacts.storeAnalytics_records it w2) as (w3 & Hrun & Hput & Hnoput).
    rewrite Hrun in Hin. cbn [snd] in Hin.
    destruct (put_lands w2) eqn:Hl.
    + rewrite (Hput eq_refl) in Hin. apply in_app_or in Hin as [Hin|[<-|[]]].
      * left. apply filter_In in Hin as [Hin _]. by rewrite Hrows in Hin.
      * right. done.
    + left. rewrite (Hnoput eq_refl), Hrows in Hin. exact Hin.
Qed.

End WithRuntime.

Lemma missing_code_is_a_bad_request_witness :
  handler (RT := Demo.runtime) no_code (world_with [old_link] 1700000000000)
  = (Ok (createErrorResponse 400 "Short code is required"),
     world_with [old_link] 1700000000000).
Proof.
  apply (missing_code_is_a_bad_request (RT := Demo.runtime)). by left.
Defined.

Lemma unknown_code_is_not_found_witness :
  exists w',
    handler (RT := Demo.runtime) (visit "nosuch1") (world_with [old_link] 1700000000000)
    = (Ok (createNotFoundResponse "nosuch1"), w')
    /\ exists row, last (analytics w') = Some row /\ a_eventType row = NOT_FOUND.
Proof.
  destruct (unknown_code_is_not_found (RT := Demo.runtime) (visit "nosuch1")
              "nosuch1" (world_with [old_link] 1700000000000))
    as (w' & Hrun & _ & _ & Hrow & _);
    [reflexivity | discriminate | reflexivity | reflexivity |].
  exists w'. split; [exact Hrun|].
  destruct (Hrow eq_refl) as (row & Hlast & Htype & _).
  exists row. by split.
Defined.

(** The link resolves at the very instant of its expiry, whatever happens
    to the two writes. *)
Lemma active_link_redirects_witness :
  exists w',
    handler (RT := Demo.runtime) (visit "abc12345")
      (with_script [{| latency := 2; outcome := Answers |}; failing; failing]
         (world_with [fresh_link] 1699999999998))
    = (Ok (redirect_to "https://example.com/docs" "abc12345" 2), w').
Proof.
  destruct (active_link_redirects (RT := Demo.runtime) (visit "abc12345") "abc12345"
              (with_script [{| latency := 2; outcome := Answers |}; failing; failing]
                 (world_with [fresh_link] 1699999999998))
              fresh_link "https://example.com/docs")
    as (w' & Hrun & _);
    [reflexivity | discriminate | reflexivity | reflexivity | reflexivity
    | right; cbn; lia |].
  exists w'. exact Hrun.
Defined.

Lemma click_is_counted_witness :
  exists row,
    row_of "abc12345"
      (snd (handler (RT := Demo.runtime) (visit "abc12345")
              (world_with [fresh_link] 1699999999998)))
    = Some row
    /\ clickCount row = Some 5.
Proof.
  destruct (click_is_counted (RT := Demo.runtime) (visit "abc12345") "abc12345"
              (world_with [fresh_link] 1699999999998) fresh_link)
    as (Hcounted & _);
    [reflexivity | discriminate | reflexivity | reflexivity | right; cbn; lia |].
  destruct (Hcounted eq_refl) as (row & Hrow & Hclicks & _).
  exists row. split; [exact Hrow|exact Hclicks].
Defined.

End ResolveFacts.

(** ** Registering a link *)

Module RegistryFacts.
Import Store Create RunSpec RunFacts CreateSpec CreateFacts RegistrySpec ResolveSpec.

Section WithRuntime.
Context `{RT : Runtime}.

(** What the schema lets through. *)
Lemma schema_accepts (req : CreateRequest) (v : Validated) :
  CreateLinkSchema req = JS.Normal v ->
  url req = Some (v_url v)
  /\ v_customCode v = customCode req
  /\ v_expiresIn v = expiresIn req
  /\ v_userId v = userId req
  /\ (forall c, customCode req = Some c -> code_regex c = true)
  /\ (forall e, expiresIn req = Some e -> 3600 <= e <= 31536000).
Proof.
  unfold CreateLinkSchema. intros Hv.
  destruct (url_issues (url req) ++ customCode_issues (customCode req)
            ++ expiresIn_issues (expiresIn req)) as [|i rest] eqn:E; [|discriminate].
  inversion Hv; subst; clear Hv. cbn [v_url v_customCode v_expiresIn v_userId].
  apply app_eq_nil in E as [Hu E]. apply app_eq_nil in E as [Hc He].
  repeat split; try done.
  - destruct (url req) as [u|]; [done|discriminate].
  - intros c Hcode. rewrite Hcode in Hc. cbn in Hc.
    by destruct (code_regex c).
  - rewrite H in He. cbn in He. destruct (Z.leb_spec 3600 e); [done|discriminate].
  - rewrite H in He. cbn in He. destruct (Z.leb_spec 3600 e); [|discriminate].
    cbn in He. destruct (Z.leb_spec e 31536000); [done|discriminate].
Qed.

Lemma code_regex_nonempty (c : string) : code_regex c = true -> c <> EmptyString.
Proof. intros H ->. by vm_compute in H. Qed.

(** A run of [create_link] that answers: the link is the last row, no
    row before it has its code, and the response describes it. *)
Lemma create_link_stores (v : Validated) (urlHash code : string) (custom : bool)
    (w w' : World) (resp : Response) :
  create_link v urlHash code custom w = (Ok resp, w') ->
  exists before data,
    links w' = before ++ [new_item v urlHash code custom (clock w)]
    /\ List.find (has_code code) before = None
    /\ resp = createSuccessResponse data
    /\ d_shortCode data = Some code
    /\ d_originalUrl data = Some (v_url v)
    /\ d_created data = true
    /\ d_clickCount data = 0
    /\ d_createdAt data = JS.ISO (clock w)
    /\ d_expiresAt data
       = (if JS.truthy_num (expiresAt (new_item v urlHash code custom (clock w)))
          then JS.ISO <$> expiresAt (new_item v urlHash code custom (clock w))
          else None).
Proof.
  intros Hrun. unfold create_link, Date_now in Hrun.
  unfold bind at 1 in Hrun. cbv zeta in Hrun. unfold bind at 1 in Hrun.
  fold (new_item v urlHash code custom (clock w)) in Hrun.
  set (item := new_item v urlHash code custom (clock w)) in *.
  destruct (PutItem_Links item w) as [[[]|e|] w1] eqn:Hput; try discriminate.
  assert (Hstored : exists before,
             links w1 = before ++ [item]
             /\ List.find (has_code code) before = None).
  { unfold PutItem_Links, send in Hput.
    assert (Hop : forall w0 : World,
               match put_if_absent item (links w0) with
               | Some tbl => (Ok tt, with_links tbl w0)
               | None => (Err (JS.NamedError "ConditionalCheckFailedException"
                                 "The conditional request failed"), w0)
               end = (Ok tt, w1) ->
               exists before,
                 links w1 = before ++ [item]
                 /\ List.find (has_code code) before = None).
    { intros w0 Hop. rewrite (put_if_absent_code item code) in Hop by done.
      destruct (List.find (has_code code) (links w0)) eqn:Hfree; cbn [present] in Hop;
        [discriminate|].
      inversion Hop; subst. by exists (links w0). }
    destruct (outcome (next_reply w)); [by eapply Hop|discriminate|by eapply Hop]. }
  destruct Hstored as (before & Hlinks & Hfree).
  unfold bind at 1 in Hrun.
  unfold JS.Date_toISOString at 1 in Hrun.
  destruct (Z.abs (clock w) <=? JS.MAX_TIME_VALUE); cbn [lift ret throw] in Hrun;
    [|discriminate].
  unfold bind at 1 in Hrun.
  change (if JS.truthy_num (v_expiresIn v)
          then Some (clock w + default 0 (v_expiresIn v) * 1000) else None)
    with (expiresAt item) in Hrun.
  destruct (JS.truthy_num (expiresAt item)) eqn:Htruthy.
  - unfold bind at 1 in Hrun.
    destruct (expiresAt item) as [e|] eqn:Hexp; [|discriminate].
    unfold JS.Date_toISOString in Hrun.
    destruct (Z.abs e <=? JS.MAX_TIME_VALUE); cbn [lift ret throw] in Hrun;
      [|discriminate].
    inversion Hrun; subst.
    exists before. eexists. split; [exact Hlinks|]. split; [exact Hfree|].
    split; [reflexivity|]. cbn. repeat split.
  - cbn [ret] in Hrun. inversion Hrun; subst.
    exists before. eexists. split; [exact Hlinks|]. split; [exact Hfree|].
    split; [reflexivity|]. cbn. repeat split.
Qed.

(** A response that reports a new link comes from [create_link]. *)
Lemma handler_created (ev : EventBody) (w w' : World) (resp : Response)
    (data : CreateData) :
  handler ev w = (Ok resp, w') ->
  body resp = SuccessBody data ->
  d_created data = true ->
  exists req v w0 code,
    ev = JsonBody req
    /\ CreateLinkSchema req = JS.Normal v
    /\ create_link v (createUrlHash (v_url v)) code
         (JS.truthy_str (v_customCode v)) w0 = (Ok resp, w')
    /\ code <> EmptyString.
Proof.
  intros Hrun Hbody Hcreated.
  apply (handler_success ev w w' resp data) in Hrun; [|exact Hbody].
  destruct ev as [| |req]; cbn [try_block] in Hrun.
  - inversion Hrun; subst. discriminate.
  - discriminate.
  - destruct (CreateLinkSchema req) as [v|e] eqn:Hv; cbn [lift] in Hrun;
      unfold bind at 1 in Hrun; cbn [ret throw] in Hrun; [|discriminate].
    cbv zeta in Hrun. unfold bind at 1 in Hrun.
    destruct (findExistingLink (createUrlHash (v_url v)) w) as [[[link|]| |] w1];
      try discriminate.
    { rewrite existing_response_run in Hrun.
      destruct (JS.Date_toISOString (createdAt link)); [|discriminate].
      inversion Hrun; subst. cbn in Hbody. inversion Hbody; subst. discriminate. }
    destruct (JS.truthy_str (v_customCode v)) eqn:Hcustom.
    + unfold bind at 1 in Hrun.
      destruct (checkShortCodeExists _ w1) as [[[|]| |] w2]; try discriminate.
      { inversion Hrun; subst. discriminate. }
      exists req, v, w2, (default EmptyString (v_customCode v)).
      rewrite Hcustom. repeat split; [exact Hv|exact Hrun|].
      destruct (v_customCode v) as [[|c s]|]; done.
    + unfold bind at 1 in Hrun.
      destruct (generateUniqueShortCode w1) as [[code| |] w2] eqn:Hgen;
        try discriminate.
      exists req, v, w2, code.
      rewrite Hcustom. repeat split; [exact Hv|exact Hrun|].
      apply ValidationFacts.generateUniqueShortCode_drawn in Hgen
        as (w3 & w4 & Hgen).
      apply ValidationFacts.generateShortCode_length in Hgen.
      intros ->. discriminate.
Qed.

(** X17: requests the create handler turns down before it talks to the
    store, leaving tables, clock, replies and random source as they were:
    a missing body is answered 400, a body that is not JSON 500 (its
    [SyntaxError] is no [ZodError]), and a body the schema rejects 400
    with the first issue in the order url, customCode, expiresIn. *)
Theorem rejected_before_the_store (w : World) :
  handler NoBody w = (Ok (createErrorResponse 400 "Request body is required"), w)
  /\ handler BadJson w = (Ok (createErrorResponse 500 "Internal server error"), w)
  /\ forall (req : CreateRequest) (first : string) (others : list string),
       issues_of req = first :: others ->
       handler (JsonBody req) w = (Ok (createErrorResponse 400 first), w).
Proof.
  split; [reflexivity|]. split; [reflexivity|].
  intros req first others Hissues.
  unfold handler, try_catch, try_block, CreateLinkSchema.
  fold (issues_of req). rewrite Hissues. reflexivity.
Qed.

(** X18: a custom code the probe does not find free is refused.  When no
    link exists for the URL and the existence probe finds a row under the
    code, or fails, the handler answers 409 [Custom short code already
    exists]; the run ends with the probe's reply, before any write and
    before any random byte is drawn. *)
Theorem taken_custom_code_is_refused (req : CreateRequest) (v : Validated)
    (w w1 : World) (code : string) :
  CreateLinkSchema req = JS.Normal v ->
  customCode req = Some code ->
  findExistingLink (createUrlHash (v_url v)) w = (Ok None, w1) ->
  probe_refuses code w1 ->
  handler (JsonBody req) w
  = (Ok (createErrorResponse 409 "Custom short code already exists"),
     after_reply w1)
  /\ links (after_reply w1) = links w1
  /\ entropy (after_reply w1) = entropy w1.
Proof.
  intros Hv Hcode Hfind Hprobe. split; [|done].
  destruct (schema_accepts req v Hv) as (_ & Hc & _ & _ & Hre & _).
  specialize (Hre code Hcode). apply code_regex_nonempty in Hre.
  rewrite Hcode in Hc.
  assert (Hexists : checkShortCodeExists code w1 = (Ok true, after_reply w1)).
  { destruct Hprobe as [[Hans Hrow]|[e Hrej]].
    - rewrite checkShortCodeExists_answers by done. by rewrite Hrow.
    - by apply (checkShortCodeExists_rejected code w1 e). }
  unfold handler. apply try_catch_Ok.
  unfold try_block. rewrite Hv. cbn [lift]. unfold bind at 1. cbn [ret].
  rewrite (bind_Ok _ _ _ _ _ Hfind). rewrite Hc.
  destruct code as [|c code]; [done|]. cbn [JS.truthy_str].
  change (default EmptyString (Some (String c code))) with (String c code).
  by rewrite (bind_Ok _ _ _ _ _ Hexists).
Qed.

(** X19: what a 201 [created] response stands for.  The request had a
    JSON body; the link is the last row of the table and the row found
    under its code; it has the requested URL, no clicks, the creation time
    the response prints, and [isCustom] telling whether a custom code was
    asked for; with [expiresIn = e] (between one hour and one year) it
    expires [1000 * e] milliseconds after its creation, and the response
    prints that instant. *)
Theorem created_link_is_stored (ev : EventBody) (w w' : World) (resp : Response)
    (data : CreateData) :
  handler ev w = (Ok resp, w') ->
  body resp = SuccessBody data ->
  d_created data = true ->
  exists req code item t,
    ev = JsonBody req
    /\ d_shortCode data = Some code
    /\ code <> EmptyString
    /\ last (links w') = Some item
    /\ row_of code w' = Some item
    /\ shortCode item = Some code
    /\ originalUrl item = url req
    /\ d_originalUrl data = url req
    /\ createdAt item = Some t
    /\ d_createdAt data = JS.ISO t
    /\ expiresAt item = (fun e => t + e * 1000) <$> expiresIn req
    /\ d_expiresAt data
       = (if JS.truthy_num (expiresAt item) then JS.ISO <$> expiresAt item else None)
    /\ (forall e, expiresIn req = Some e -> 3600 <= e <= 31536000)
    /\ clickCount item = Some 0
    /\ d_clickCount data = 0
    /\ isCustom item = Some (present (customCode req)).
Proof.
  intros Hrun Hbody Hcreated.
  destruct (handler_created ev w w' resp data Hrun Hbody Hcreated)
    as (req & v & w0 & code & -> & Hv & Hlink & Hne).
  destruct (create_link_stores _ _ _ _ _ _ _ Hlink)
    as (before & data' & Hlinks & Hfree & -> & Hd1 & Hd2 & Hd3 & Hd4 & Hd5 & Hd6).
  cbn in Hbody. inversion Hbody; subst data'. clear Hbody.
  destruct (schema_accepts req v Hv) as (Hu & Hc & He & _ & Hre & Hrange).
  exists req, code,
    (new_item v (createUrlHash (v_url v)) code (JS.truthy_str (v_customCode v))
       (clock w0)),
    (clock w0).
  split; [done|]. split; [done|]. split; [done|].
  split; [by rewrite Hlinks, last_snoc|].
  split.
  { unfold row_of. rewrite Hlinks, find_snoc, Hfree.
    unfold has_code. cbn [new_item shortCode]. by rewrite String.eqb_refl. }
  split; [done|]. split; [by rewrite Hu|]. split; [by rewrite Hu|].
  split; [done|]. split; [done|].
  split.
  { cbn [new_item expiresAt]. rewrite He.
    destruct (expiresIn req) as [e|] eqn:Hexp; [|done].
    destruct (Hrange e eq_refl) as [Hlo _].
    cbn [JS.truthy_num fmap option_fmap option_map].
    change (default 0 (Some e)) with e.
    destruct (Z.eqb_spec e 0); [lia|done]. }
  split; [done|]. split; [done|]. split; [done|]. split; [done|].
  cbn [new_item isCustom]. rewrite Hc. f_equal.
  destruct (customCode req) as [c|] eqn:Hcode; [|done].
  specialize (Hre c eq_refl). apply code_regex_nonempty in Hre.
  by destruct c.
Qed.

(** X20: create, then resolve.  After a 201 [created] response for code
    [c] and URL [u], a visit of [c] that finds the table as the create
    left it and whose lookup the store answers is redirected (301,
    [Location: u]) when the response carried no [expiresAt] or the visit
    is not later than it, and gets the 410 page when it is later. *)
Theorem created_link_resolves (ev : EventBody) (w w1 w2 : World) (resp : Response)
    (data : CreateData) (code u : string) (event : Redirect.Event) :
  handler ev w = (Ok resp, w1) ->
  body resp = SuccessBody data ->
  d_created data = true ->
  d_shortCode data = Some code ->
  d_originalUrl data = Some u ->
  links w2 = links w1 ->
  outcome (next_reply w2) = Answers ->
  Redirect.pathShortCode event = Some code ->
  exists w3,
    Redirect.handler event w2
    = (Ok match d_expiresAt data with
          | Some (JS.ISO e) =>
              if clock (after_reply w2) <=? e
              then redirect_to u code (latency (next_reply w2))
              else Redirect.createExpiredResponse
          | None => redirect_to u code (latency (next_reply w2))
          end, w3).
Proof.
  intros Hrun Hbody Hcreated Hcode Hurl Hlinks Hans Hpath.
  destruct (handler_created ev w w1 resp data Hrun Hbody Hcreated)
    as (req & v & w0 & code' & -> & Hv & Hlink & Hne).
  destruct (create_link_stores _ _ _ _ _ _ _ Hlink)
    as (before & data' & Hrows & Hfree & -> & Hd1 & Hd2 & _ & _ & _ & Hd6).
  cbn in Hbody. inversion Hbody; subst data'. clear Hbody.
  rewrite Hd1 in Hcode. inversion Hcode; subst code'. clear Hcode.
  rewrite Hd2 in Hurl. inversion Hurl; subst u. clear Hurl.
  set (item := new_item v (createUrlHash (v_url v)) code
                 (JS.truthy_str (v_customCode v)) (clock w0)) in *.
  assert (Hrow : row_of code w2 = Some item).
  { unfold row_of. rewrite Hlinks, Hrows, find_snoc, Hfree.
    unfold has_code. cbn [item new_item shortCode]. by rewrite String.eqb_refl. }
  assert (Htarget : originalUrl item = Some (v_url v)) by reflexivity.
  assert (Hlat : clock (after_reply w2) - clock w2 = latency (next_reply w2))
    by (cbn; lia).
  rewrite Hd6.
  destruct (expiresAt item) as [e|] eqn:Hexp; cbn [JS.truthy_num].
  - destruct (Z.eqb_spec e 0) as [He0|He0]; cbn [negb fmap option_fmap option_map].
    + eexists.
      rewrite (ResolveFacts.found_active event code w2 item Hpath Hne Hans Hrow).
      * by rewrite Htarget, Hlat.
      * unfold active. rewrite Hexp. by left.
    + destruct (Z.leb_spec (clock (after_reply w2)) e) as [Hle|Hgt].
      * eexists.
        rewrite (ResolveFacts.found_active event code w2 item Hpath Hne Hans Hrow).
        -- by rewrite Htarget, Hlat.
        -- unfold active. rewrite Hexp. by right.
      * eexists.
        by rewrite (ResolveFacts.found_expired event code w2 item e
                      Hpath Hne Hans Hrow Hexp He0 Hgt).
  - eexists.
    rewrite (ResolveFacts.found_active event code w2 item Hpath Hne Hans Hrow).
    + by rewrite Htarget, Hlat.
    + unfold active. by rewrite Hexp.
Qed.

End WithRuntime.

Lemma rejected_before_the_store_witness :
  handler (RT := Demo.runtime) (request "example.com" None (Some 60)) crowded
  = (Ok (createErrorResponse 400 "Invalid URL format"), crowded).
Proof.
  destruct (rejected_before_the_store (RT := Demo.runtime) crowded) as (_ & _ & H).
  apply (H _ "Invalid URL format"
           ["URL must start with http:// or https://"; "Minimum expiration is 1 hour"]).
  reflexivity.
Defined.

Lemma taken_custom_code_is_refused_witness :
  handler (RT := Demo.runtime) (request "https://example.com" (Some "22222222") None)
    crowded
  = (Ok (createErrorResponse 409 "Custom short code already exists"), crowded).
Proof.
  apply (taken_custom_code_is_refused (RT := Demo.runtime)
           {| url := Some "https://example.com"; customCode := Some "22222222";
              expiresIn := None; userId := None |}
           {| v_url := "https://example.com"; v_customCode := Some "22222222";
              v_expiresIn := None; v_userId := None |}
           crowded crowded "22222222").
  - reflexivity.
  - reflexivity.
  - reflexivity.
  - left. split; reflexivity.
Defined.

Lemma created_link_is_stored_witness :
  exists item t,
    row_of "promo24" (after_promo hour_later) = Some item
    /\ originalUrl item = Some "https://example.com/sale"
    /\ createdAt item = Some t
    /\ expiresAt item = Some (t + 7200 * 1000).
Proof.
  unfold after_promo.
  destruct (handler (RT := Demo.runtime) promo (Demo.empty_world noon []))
    as [r w1] eqn:Hrun.
  pose proof Hrun as Hvalue. vm_compute in Hvalue.
  injection Hvalue as Hr Hw. subst r.
  destruct (created_link_is_stored (RT := Demo.runtime) promo
              (Demo.empty_world noon []) w1 _ _ Hrun eq_refl eq_refl)
    as (req & code & item & t & Hreq & Hcode & _ & _ & Hrow & _ & Hurl & _
        & Hcreated & _ & Hexp & _).
  injection Hreq as <-. injection Hcode as <-.
  exists item, t. repeat split; [exact Hrow|exact Hurl|exact Hcreated|exact Hexp].
Defined.

Lemma created_link_resolves_witness :
  (exists w3,
      Redirect.handler (RT := Demo.runtime) (RedirectSpec.visit "promo24")
        (after_promo two_hours_later)
      = (Ok (redirect_to "https://example.com/sale" "promo24" 0), w3))
  /\ (exists w3,
         Redirect.handler (RT := Demo.runtime) (RedirectSpec.visit "promo24")
           (after_promo (two_hours_later + 1))
         = (Ok Redirect.createExpiredResponse, w3)).
Proof.
  split.
  - exact (created_link_resolves (RT := Demo.runtime) promo
             (Demo.empty_world noon []) _ (after_promo two_hours_later) _ _
             "promo24" "https://example.com/sale" (RedirectSpec.visit "promo24")
             eq_refl eq_refl eq_refl eq_refl eq_refl eq_refl eq_refl eq_refl).
  - exact (created_link_resolves (RT := Demo.runtime) promo
             (Demo.empty_world noon []) _ (after_promo (two_hours_later + 1)) _ _
             "promo24" "https://example.com/sale" (RedirectSpec.visit "promo24")
             eq_refl eq_refl eq_refl eq_refl eq_refl eq_refl eq_refl eq_refl).
Defined.

End RegistryFacts.

(** ** Reading and bucketing the event log *)

Module EventLogFacts.
Import Store Analytics AnalyticsSpec CountingSpec CountingFacts EventLogSpec.

Lemma fetch_pages_warns (shortCode : string) :
  forall (scan : Scan) (events result : list ClickEvent) (warnings : list string),
    fetch_pages shortCode scan events = JS.Normal (result, warnings) ->
    (warnings = [] /\ Z.of_nat (length result) <= 10000)
    \/ (warnings = [too_many shortCode] /\ 10000 < Z.of_nat (length result)).
Proof.
  induction scan as [Items|Items next IH|e]; intros events result warnings Hrun;
    cbn [fetch_pages] in Hrun.
  - destruct (Z.gtb_spec (Z.of_nat (length (events ++ default [] Items))) 10000);
      inversion Hrun; subst; [right|left]; split; (done || lia).
  - destruct (Z.gtb_spec (Z.of_nat (length (events ++ default [] Items))) 10000).
    + inversion Hrun; subst. right. split; (done || lia).
    + by eapply IH.
  - discriminate.
Qed.

(** X21: with pages of at most 1000 events, as the query's [Limit] makes
    them, [fetchClickEvents] never returns more than 11000 events, and it
    writes its warning exactly when it returns more than 10000. *)
Theorem fetchClickEvents_at_most_one_page_over (shortCode : string) (scan : Scan) :
  Forall (fun page => Z.of_nat (length page) <= 1000) (pages scan) ->
  let events := fst (fetchClickEvents shortCode scan) in
  let warnings := snd (fetchClickEvents shortCode scan) in
  Z.of_nat (length events) <= 11000
  /\ (warnings = [] /\ Z.of_nat (length events) <= 10000
      \/ warnings = [too_many shortCode] /\ 10000 < Z.of_nat (length events)).
Proof.
  intros Hpages. cbv zeta. unfold fetchClickEvents.
  destruct (fetch_pages shortCode scan []) as [[result warnings]|e] eqn:Hrun;
    cbn [fst snd].
  - split.
    + eapply (AnalyticsFacts.fetch_pages_bound shortCode scan [] result warnings);
        [exact Hpages|cbn; lia|exact Hrun].
    + by eapply fetch_pages_warns.
  - split; [cbn; lia|]. left. split; [done|cbn; lia].
Qed.

Lemma fetchClickEvents_at_most_one_page_over_witness :
  Z.of_nat (length (fst (fetchClickEvents "abc123" (full_pages 10)))) <= 11000
  /\ snd (fetchClickEvents "abc123" (full_pages 10))
     = ["Too many events for abc123, limiting to 10000"].
Proof.
  destruct (fetchClickEvents_at_most_one_page_over "abc123" (full_pages 10))
    as [Hbound _].
  - repeat constructor; vm_compute; discriminate.
  - split; [exact Hbound|]. vm_compute. reflexivity.
Defined.

Lemma fetch_pages_small (shortCode : string) :
  forall (scan : Scan) (events : list ClickEvent),
    Z.of_nat (length (events ++ handed_out scan)) <= 10000 ->
    match fetch_pages shortCode scan events with
    | JS.Normal r => completes scan = true /\ r = (events ++ handed_out scan, [])
    | JS.Throw _ => completes scan = false
    end.
Proof.
  unfold handed_out.
  induction scan as [Items|Items next IH|e]; intros events Hlen;
    cbn [fetch_pages pages completes concat] in *.
  - rewrite app_nil_r in *.
    destruct (Z.gtb_spec (Z.of_nat (length (events ++ default [] Items))) 10000);
      [lia|done].
  - rewrite app_assoc in Hlen.
    destruct (Z.gtb_spec (Z.of_nat (length (events ++ default [] Items))) 10000)
      as [Hgt|_].
    + rewrite length_app in Hlen. lia.
    + specialize (IH (events ++ default [] Items) Hlen).
      destruct (fetch_pages shortCode next (events ++ default [] Items)); [|done].
      destruct IH as [Hc ->]. by rewrite app_assoc.
  - done.
Qed.

Lemma fetchClickEvents_small (shortCode : string) (scan : Scan) :
  Z.of_nat (length (handed_out scan)) <= 10000 ->
  fetchClickEvents shortCode scan
  = (if completes scan then handed_out scan else [], []).
Proof.
  intros Hlen. unfold fetchClickEvents.
  pose proof (fetch_pages_small shortCode scan [] Hlen) as H.
  destruct (fetch_pages shortCode scan []) as [r|e].
  - destruct H as [-> ->]. reflexivity.
  - by rewrite H.
Qed.

(** X22: a scan that hands out at most 10000 events returns all of them,
    in order and without warning, when it runs to its last page, and
    nothing at all when one of its queries is rejected: events of the
    pages read before the failure are dropped with it. *)
Theorem fetchClickEvents_all_or_nothing (shortCode : string) (scan : Scan) :
  Z.of_nat (length (handed_out scan)) <= 10000 ->
  fetchClickEvents shortCode scan
  = (if completes scan then handed_out scan else [], []).
Proof.
  intros Hlen. unfold fetchClickEvents.
  pose proof (fetch_pages_small shortCode scan [] Hlen) as H.
  destruct (fetch_pages shortCode scan []) as [r|e].
  - destruct H as [Hdone ->]. by rewrite Hdone.
  - by rewrite H.
Qed.

Lemma fetchClickEvents_all_or_nothing_witness :
  length (handed_out cut_short) = 2000%nat
  /\ fetchClickEvents "abc123" cut_short = ([], []).
Proof.
  split; [reflexivity|].
  apply (fetchClickEvents_all_or_nothing "abc123" cut_short).
  vm_compute. discriminate.
Defined.

(** *** Timeline *)

Lemma remove_dups_length {A} `{EqDecision A} (l : list A) :
  (length (remove_dups l) <= length l)%nat.
Proof.
  induction l as [|x l IH]; cbn; [lia|]. case_decide; cbn; lia.
Qed.

Lemma unique_ips_le (events : list ClickEvent) :
  0 <= unique_ips events <= Z.of_nat (length events).
Proof.
  unfold unique_ips.
  pose proof (remove_dups_length (map ipHash events)) as H.
  rewrite length_map in H. lia.
Qed.

Lemma within_empty (from to : Z) (events : list ClickEvent) :
  to <= from -> within from to events = [].
Proof.
  intros Hle. unfold within. induction events as [|ev events IH]; cbn; [done|].
  rewrite IH.
  destruct (Z.geb_spec (timestamp ev) from); cbn; [|done].
  destruct (Z.ltb_spec (timestamp ev) to); [lia|done].
Qed.

Lemma within_split (a b c : Z) (events : list ClickEvent) :
  a <= b -> b <= c ->
  Z.of_nat (length (within a b events)) + Z.of_nat (length (within b c events))
  = Z.of_nat (length (within a c events)).
Proof.
  intros Hab Hbc. unfold within. induction events as [|ev events IH]; cbn; [done|].
  destruct (Z.geb_spec (timestamp ev) a), (Z.ltb_spec (timestamp ev) b),
    (Z.geb_spec (timestamp ev) b), (Z.ltb_spec (timestamp ev) c);
    cbn [andb length]; lia.
Qed.

Lemma timeline_from_buckets (events : list ClickEvent) (endTime step : Z) :
  0 < step ->
  forall (n : nat) (time : Z) (tl : list TimelineEntry),
    endTime - time <= Z.of_nat n * step ->
    timeline_from n events time endTime step = JS.Normal tl ->
    map t_timestamp tl
    = map (fun i => time + Z.of_nat i * step) (seq 0 (length tl))
    /\ (time < endTime ->
        Z.of_nat (length tl) = (endTime - time + step - 1) / step)
    /\ (endTime <= time -> tl = [])
    /\ total_of t_clicks tl
       = Z.of_nat (length (within time (time + Z.of_nat (length tl) * step) events))
    /\ Forall (fun entry =>
                 t_clicks entry
                 = Z.of_nat (length (within (t_timestamp entry)
                                            (t_timestamp entry + step) events))
                 /\ 0 <= t_uniqueClicks entry <= t_clicks entry
                 /\ t_period entry = JS.ISO (t_timestamp entry)) tl.
Proof.
  intros Hstep. induction n as [|n IH]; intros time tl Hfuel Hrun.
  - cbn in Hrun. inversion Hrun; subst. cbn.
    split; [done|]. split; [lia|]. split; [done|]. split; [|constructor].
    rewrite within_empty; [done|lia].
  - cbn [timeline_from] in Hrun.
    destruct (Z.ltb_spec time endTime) as [Hlt|Hge].
    + unfold JS.Date_toISOString in Hrun.
      destruct (Z.abs time <=? JS.MAX_TIME_VALUE); cbn [and_then] in Hrun;
        [|discriminate].
      destruct (timeline_from n events (time + step) endTime step)
        as [rest|e] eqn:Hrest; cbn [and_then] in Hrun; [|discriminate].
      inversion Hrun; subst; clear Hrun.
      destruct (IH (time + step) rest ltac:(lia) Hrest)
        as (Hts & Hlen & Hnone & Hsum & Hall).
      cbn [map length total_of t_timestamp t_clicks seq].
      split; [|split; [|split; [|split]]].
      * f_equal; [lia|].
        rewrite Hts, <- seq_shift, map_map. apply map_ext. intros i. lia.
      * intros _.
        destruct (Z.lt_ge_cases (time + step) endTime) as [Hmore|Hlast].
        -- rewrite Nat2Z.inj_succ, (Hlen Hmore).
           replace (endTime - time + step - 1)
             with (endTime - (time + step) + step - 1 + 1 * step) by lia.
           rewrite Z.div_add by lia. lia.
        -- rewrite (Hnone Hlast). cbn.
           apply (Z.div_unique _ _ 1 (endTime - time - 1)); lia.
      * lia.
      * rewrite Hsum.
        fold (within time (time + step) events).
        replace (time + Z.of_nat (S (length rest)) * step)
          with (time + step + Z.of_nat (length rest) * step) by lia.
        rewrite <- (within_split time (time + step)
                      (time + step + Z.of_nat (length rest) * step)); [|lia|nia].
        reflexivity.
      * constructor; [|exact Hall]. cbn. split; [done|]. split; [|done].
        apply unique_ips_le.
    + inversion Hrun; subst. cbn.
      split; [done|]. split; [lia|]. split; [done|]. split; [|constructor].
      rewrite within_empty; [done|lia].
Qed.

(** The loop of [generateTimeline] is given enough rounds. *)
Lemma generateTimeline_run (events : list ClickEvent) (timeRange : TimeRange)
    (granularity : string) (tl : list TimelineEntry) :
  generateTimeline events timeRange granularity = JS.Normal tl ->
  exists n : nat,
    0 < interval_of granularity
    /\ endTime timeRange - startTime timeRange <= Z.of_nat n * interval_of granularity
    /\ timeline_from n events (startTime timeRange) (endTime timeRange)
         (interval_of granularity) = JS.Normal tl.
Proof.
  unfold generateTimeline. intros Hrun. cbv zeta in Hrun.
  fold (interval_of granularity) in Hrun.
  assert (Hstep : 0 < interval_of granularity).
  { unfold interval_of. destruct (String.eqb _ _); lia. }
  eexists. split; [exact Hstep|]. split; [|exact Hrun].
  set (d := endTime timeRange - startTime timeRange).
  pose proof (Z.mod_pos_bound d (interval_of granularity) Hstep) as Hmod.
  pose proof (Z.div_mod d (interval_of granularity) ltac:(lia)) as Hdiv.
  assert (Hfuel : Z.of_nat (Z.to_nat (d / interval_of granularity + 1))
                  = Z.max 0 (d / interval_of granularity + 1)) by lia.
  rewrite Hfuel. nia.
Qed.

(** With every bucket start a valid date, the loop returns. *)
Lemma timeline_from_returns (events : list ClickEvent) (endTime step : Z) :
  0 < step ->
  endTime <= JS.MAX_TIME_VALUE ->
  forall (n : nat) (time : Z),
    - JS.MAX_TIME_VALUE <= time ->
    exists tl, timeline_from n events time endTime step = JS.Normal tl.
Proof.
  intros Hstep Hend. induction n as [|n IH]; intros time Htime.
  - by exists [].
  - cbn [timeline_from].
    destruct (Z.ltb_spec time endTime) as [Hlt|Hge]; [|by exists []].
    unfold JS.Date_toISOString.
    destruct (Z.leb_spec (Z.abs time) JS.MAX_TIME_VALUE) as [_|Hout]; [|lia].
    cbn [and_then].
    destruct (IH (time + step) ltac:(lia)) as [rest ->].
    cbn [and_then]. by eexists.
Qed.

(** A range within the valid dates gives a timeline. *)
Lemma generateTimeline_returns (events : list ClickEvent) (timeRange : TimeRange)
    (granularity : string) :
  - JS.MAX_TIME_VALUE <= startTime timeRange ->
  endTime timeRange <= JS.MAX_TIME_VALUE ->
  exists tl, generateTimeline events timeRange granularity = JS.Normal tl.
Proof.
  intros Hfrom Hto. unfold generateTimeline. cbv zeta.
  apply timeline_from_returns; [|exact Hto|exact Hfrom].
  destruct (String.eqb _ _); lia.
Qed.

(** X23: the timeline.  A time range within the valid dates always gives
    one.  Its buckets start at [startTime] and follow each other at the
    granularity's width ([hour]: 3600000 ms, anything else a day); there
    are [ceil ((endTime - startTime) / width)] of them, none when the range
    is empty; each counts the events stamped in its half-open interval,
    with unique clicks between 0 and clicks, and is labelled with its
    start; so together they count each event from [startTime] up to the
    end of the last bucket exactly once. *)
Theorem timeline_buckets (events : list ClickEvent) (timeRange : TimeRange)
    (granularity : string) :
  let step := interval_of granularity in
  let from := startTime timeRange in
  (- JS.MAX_TIME_VALUE <= from -> endTime timeRange <= JS.MAX_TIME_VALUE ->
   exists tl, generateTimeline events timeRange granularity = JS.Normal tl)
  /\ forall tl : list TimelineEntry,
       generateTimeline events timeRange granularity = JS.Normal tl ->
       map t_timestamp tl
       = map (fun i => from + Z.of_nat i * step) (seq 0 (length tl))
       /\ (from < endTime timeRange ->
           Z.of_nat (length tl) = (endTime timeRange - from + step - 1) / step)
       /\ (endTime timeRange <= from -> tl = [])
       /\ total_of t_clicks tl
          = Z.of_nat (length (within from (from + Z.of_nat (length tl) * step)
                                events))
       /\ Forall (fun entry =>
                    t_clicks entry
                    = Z.of_nat (length (within (t_timestamp entry)
                                               (t_timestamp entry + step) events))
                    /\ 0 <= t_uniqueClicks entry <= t_clicks entry
                    /\ t_period entry = JS.ISO (t_timestamp entry)) tl.
Proof.
  cbv zeta. split.
  - apply generateTimeline_returns.
  - intros tl Hrun.
    destruct (generateTimeline_run _ _ _ _ Hrun) as (n & Hstep & Hfuel & Hloop).
    exact (timeline_from_buckets events (endTime timeRange) _ Hstep n _ tl
             Hfuel Hloop).
Qed.

Lemma timeline_buckets_witness :
  exists tl,
    generateTimeline demo_events (calculateTimeRange 1700003600000 "24h") "hour"
    = JS.Normal tl
    /\ length tl = 24%nat
    /\ total_of t_clicks tl
       = Z.of_nat (length (within 1699917200000 1700003600000 demo_events)).
Proof.
  destruct (timeline_buckets demo_events
              (calculateTimeRange 1700003600000 "24h") "hour")
    as [Hreturns Hbuckets].
  destruct Hreturns as [tl Hrun]; [vm_compute; discriminate..|].
  exists tl. split; [exact Hrun|].
  destruct (Hbuckets tl Hrun) as (_ & Hlen & _ & Hsum & _).
  specialize (Hlen ltac:(vm_compute; reflexivity)).
  assert (Hn : length tl = 24%nat).
  { apply Nat2Z.inj. rewrite Hlen. vm_compute. reflexivity. }
  split; [exact Hn|].
  rewrite Hsum, Hn. reflexivity.
Defined.

End EventLogFacts.

(** ** Ranking of the breakdowns *)

Module RankingFacts.
Import Store Analytics CountingSpec CountingFacts BreakdownSpec RankingSpec.

Lemma ordered_take (le : Z -> Z -> Prop) (n : nat) (l : list Z) :
  ordered le l -> ordered le (firstn n l).
Proof.
  revert n. induction l as [|x l IH]; intros [|n] Hl; cbn; try done.
  destruct Hl as [Hx Hl]. split; [by apply Forall_take|by apply IH].
Qed.

Lemma ordered_app (le : Z -> Z -> Prop) (l k : list Z) :
  ordered le (l ++ k) -> forall x y, In x l -> In y k -> le x y.
Proof.
  induction l as [|z l IH]; intros Hl x y Hx Hy; [done|].
  destruct Hl as [Hz Hl]. destruct Hx as [<-|Hx]; [|by eapply IH].
  apply Forall_app in Hz as [_ Hz].
  exact (proj1 (List.Forall_forall _ _) Hz y Hy).
Qed.

Lemma descending_opp (l : list Z) : ascending (map Z.opp l) -> descending l.
Proof.
  induction l as [|x l IH]; cbn; [done|]. intros [Hx Hl]. split; [|by apply IH].
  apply Forall_forall. intros y Hy.
  apply (proj1 (Forall_forall _ _)) with (x := - y) in Hx; [lia|].
  apply list_elem_of_fmap. by exists y.
Qed.

Section Sorting.
Context {A : Type} (key : A -> Z) (cmp : A -> A -> Z).
Hypothesis cmp_key : forall a b, cmp a b = key a - key b.

Lemma sort_insert_ascending (x : A) (l : list A) :
  ascending (map key l) -> ascending (map key (JS.sort_insert cmp x l)).
Proof.
  induction l as [|y l IH]; cbn [JS.sort_insert]; [done|].
  intros [Hy Hl]. rewrite cmp_key.
  destruct (Z.gtb_spec (key x - key y) 0) as [Hgt|Hle].
  - split; [|by apply IH].
    apply Forall_forall. intros z Hz.
    apply list_elem_of_fmap in Hz as (a & -> & Ha).
    rewrite (sort_insert_perm cmp x l) in Ha.
    apply elem_of_cons in Ha as [->|Ha]; [lia|].
    apply (proj1 (Forall_forall _ _) Hy). apply list_elem_of_fmap. by exists a.
  - split; [|done]. constructor; [lia|].
    eapply Forall_impl; [exact Hy|]. cbn. intros z Hz. lia.
Qed.

Lemma sort_ascending (l : list A) : ascending (map key (JS.sort cmp l)).
Proof.
  induction l as [|x l IH]; cbn [JS.sort]; [done|].
  by apply sort_insert_ascending.
Qed.

End Sorting.

Lemma sort_descending {A} (clicks : A -> Z) (l : list A) :
  descending (map clicks (JS.sort (by_clicks_desc clicks) l)).
Proof.
  apply descending_opp. rewrite map_map.
  apply (sort_ascending (fun a => - clicks a)).
  intros a b. unfold by_clicks_desc. lia.
Qed.

(** *** What a tally holds *)

Lemma get_set (o : JS.Counts) (k k' : string) (v : Z) :
  JS.get (JS.set o k v) k' = if String.eqb k k' then Some v else JS.get o k'.
Proof.
  induction o as [|[k0 v0] o IH]; cbn.
  - by destruct (String.eqb k k').
  - destruct (String.eqb_spec k0 k) as [->|Hne]; cbn.
    + by destruct (String.eqb k k').
    + rewrite IH. destruct (String.eqb_spec k0 k') as [->|Hne'].
      * destruct (String.eqb_spec k k'); [congruence|done].
      * done.
Qed.

Lemma occurrences_cons (k x : string) (keys : list string) :
  occurrences k (x :: keys)
  = (if String.eqb k x then 1 else 0) + occurrences k keys.
Proof.
  unfold occurrences. cbn [List.filter].
  destruct (String.eqb k x); cbn [length]; lia.
Qed.

Lemma get_tally (keys : list string) (k : string) :
  forall o : JS.Counts,
    default 0 (JS.get (fold_left bump keys o) k)
    = default 0 (JS.get o k) + occurrences k keys.
Proof.
  induction keys as [|x keys IH]; intros o; cbn [fold_left].
  - unfold occurrences. cbn. lia.
  - rewrite IH, occurrences_cons. unfold bump. rewrite get_set, or_num_default.
    rewrite (String.eqb_sym k x).
    destruct (String.eqb_spec x k) as [->|Hne]; cbn; lia.
Qed.

Lemma get_entry (o : JS.Counts) (k : string) (v : Z) :
  NoDup (map fst o) -> In (k, v) o -> JS.get o k = Some v.
Proof.
  induction o as [|[k0 v0] o IH]; cbn [map fst JS.get In]; [done|].
  intros Hnd [Heq|Hin].
  - inversion Heq; subst. by rewrite String.eqb_refl.
  - apply NoDup_cons in Hnd as [Hk0 Hnd].
    destruct (String.eqb_spec k0 k) as [->|Hne]; [|by apply IH].
    exfalso. apply Hk0. apply list_elem_of_fmap. exists (k, v).
    split; [done|]. by apply list_elem_of_In.
Qed.

Lemma occurrences_pos (k : string) (keys : list string) :
  In k keys -> 0 < occurrences k keys.
Proof.
  induction keys as [|x keys IH]; [done|].
  rewrite occurrences_cons. intros [->|Hin].
  - rewrite String.eqb_refl. unfold occurrences. lia.
  - specialize (IH Hin). destruct (String.eqb k x); lia.
Qed.

(** An entry of the tally of [keys]: its count is the number of its
    key's occurrences. *)
Lemma tally_entry (keys : list string) (k : string) (v : Z) :
  In (k, v) (fold_left bump keys []) -> In k keys /\ v = occurrences k keys.
Proof.
  intros Hin.
  destruct (tally_keys keys [] (NoDup_nil_2)) as [Hnd Hel].
  split.
  - assert (Hk : k ∈ map fst (fold_left bump keys [])).
    { apply list_elem_of_fmap. exists (k, v). split; [done|].
      by apply list_elem_of_In. }
    apply Hel in Hk as [Hk|Hk]; [by apply elem_of_nil in Hk|].
    by apply list_elem_of_In.
  - pose proof (get_tally keys k []) as Hget.
    rewrite (get_entry _ k v Hnd Hin) in Hget. cbn in Hget. lia.
Qed.

Section Ranked.
Context {S : Type} (mk : string * Z -> S) (label : S -> string) (clicks : S -> Z).
Hypothesis clicks_mk : forall kv, clicks (mk kv) = snd kv.
Hypothesis label_mk : forall kv, label (mk kv) = fst kv.
Variable keys : list string.

Let sorted : list S :=
  JS.sort (by_clicks_desc clicks) (map mk (JS.entries (fold_left bump keys []))).

Lemma sorted_rows (row : S) :
  In row sorted <-> exists kv, In kv (fold_left bump keys []) /\ row = mk kv.
Proof.
  unfold sorted. rewrite <- !list_elem_of_In.
  rewrite (sort_perm (by_clicks_desc clicks)), list_elem_of_fmap.
  split; intros (kv & Hrow & Hkv); exists kv.
  - split; [|done]. apply list_elem_of_In. by rewrite <- (entries_perm _).
  - split; [done|]. rewrite (entries_perm _). by apply list_elem_of_In.
Qed.

Lemma ranked_ranks : ranks label clicks keys (ranked mk clicks keys).
Proof.
  unfold ranked. fold sorted.
  assert (Hsub : forall row, In row (firstn 10 sorted) -> In row sorted).
  { intros row Hrow. rewrite <- (firstn_skipn 10 sorted).
    apply in_or_app. by left. }
  repeat split.
  - rewrite <- firstn_map. apply ordered_take, sort_descending.
  - assert (Hnd : NoDup (map label sorted)).
    { destruct (tally_keys keys [] (NoDup_nil_2)) as [Hnd _].
      unfold sorted.
      rewrite (sort_perm (by_clicks_desc clicks)), map_map.
      rewrite (map_ext (fun kv => label (mk kv)) fst label_mk).
      by rewrite (entries_perm _). }
    eapply sublist_NoDup; [exact Hnd|].
    apply (fmap_sublist label), sublist_take.
  - apply Hsub, sorted_rows in H as (kv & Hkv & ->).
    destruct kv as [k v]. apply tally_entry in Hkv as [_ ->].
    by rewrite clicks_mk, label_mk.
  - apply Hsub, sorted_rows in H as (kv & Hkv & ->).
    destruct kv as [k v]. apply tally_entry in Hkv as [Hk ->].
    rewrite clicks_mk. by apply occurrences_pos.
  - intros k Hk.
    destruct (tally_keys keys [] (NoDup_nil_2)) as [_ Hel].
    assert (Hin : k ∈ map fst (fold_left bump keys [])).
    { apply Hel. right. by apply list_elem_of_In. }
    apply list_elem_of_fmap in Hin as ([k' v] & Hk' & Hin). cbn in Hk'. subst k'.
    apply list_elem_of_In in Hin.
    assert (Hrow : In (mk (k, v)) sorted).
    { apply sorted_rows. by exists (k, v). }
    destruct (tally_entry keys k v Hin) as [_ Hv].
    rewrite <- (firstn_skipn 10 sorted) in Hrow.
    apply in_app_or in Hrow as [Hshown|Hcut].
    + left. apply in_map_iff. exists (mk (k, v)). by rewrite label_mk.
    + right. intros row Hrow.
      pose proof (sort_descending clicks
                    (map mk (JS.entries (fold_left bump keys [])))) as Hdesc.
      fold sorted in Hdesc.
      rewrite <- (firstn_skipn 10 sorted), map_app in Hdesc.
      pose proof (ordered_app _ _ _ Hdesc (clicks row) (clicks (mk (k, v)))
                    (in_map clicks _ _ Hrow) (in_map clicks _ _ Hcut)) as Hle.
      cbn in Hle. rewrite clicks_mk in Hle. cbn in Hle. lia.
Qed.

End Ranked.

Lemma country_ranks (events : list ClickEvent) :
  ranks c_country c_clicks (map country_key events) (calculateCountryStats events).
Proof.
  rewrite BreakdownFacts.calculateCountryStats_ranked.
  by apply ranked_ranks.
Qed.

Lemma browser_descending (events : list ClickEvent) :
  descending (map b_clicks (calculateBrowserStats events)).
Proof.
  rewrite BreakdownFacts.calculateBrowserStats_ranked. unfold ranked.
  rewrite <- firstn_map. apply ordered_take, sort_descending.
Qed.

Section Breakdowns.
Context `{RT : Runtime}.

Lemma referrer_ranks (events : list ClickEvent) (stats : list ReferrerStats) :
  calculateReferrerStats events = JS.Normal stats ->
  ranks r_referrer r_clicks (map referrer_label events) stats.
Proof.
  intros Hstats. apply BreakdownFacts.calculateReferrerStats_ranked in Hstats as ->.
  by apply ranked_ranks.
Qed.

(** X24: for events whose labels are not names an object literal
    inherits, the country and referrer breakdowns rank their labels: rows
    come in descending order of clicks, no label has two rows, a row's
    clicks are exactly the number of aggregated events carrying its label
    (at least one), and a label left out by the cut to ten has no more
    events than any row shown.  Browser rows come in descending order of
    clicks too. *)
Theorem breakdowns_rank_their_labels (events : list ClickEvent)
    (linkCreatedAt : option Z) (period granularity : string)
    (timeRange : TimeRange) (data : AnalyticsData) :
  processAnalyticsData events linkCreatedAt period granularity timeRange
  = JS.Normal data ->
  own_labels (List.filter is_success events) ->
  let aggregated := List.filter is_success events in
  ranks c_country c_clicks (map country_key aggregated) (countries data)
  /\ ranks r_referrer r_clicks (map referrer_label aggregated) (referrers data)
  /\ descending (map b_clicks (browsers data)).
Proof.
  intros Hrun _. cbv zeta.
  destruct (AnalyticsFacts.processAnalyticsData_fields _ _ _ _ _ _ Hrun)
    as (_ & Href & -> & _ & ->).
  split; [apply country_ranks|]. split; [by apply referrer_ranks|].
  apply browser_descending.
Qed.

End Breakdowns.

Lemma breakdowns_rank_their_labels_witness :
  exists data,
    aggregate twelve_countries = JS.Normal data
    /\ map c_clicks (countries data) = [2; 2; 1; 1; 1; 1; 1; 1; 1; 1]
    /\ descending (map c_clicks (countries data))
    /\ NoDup (map c_country (countries data)).
Proof.
  destruct (aggregate twelve_countries) as [data|e] eqn:Hrun;
    [|vm_compute in Hrun; discriminate].
  exists data.
  destruct (breakdowns_rank_their_labels (RT := Demo.runtime) _ _ _ _ _ _ Hrun
              ltac:(vm_compute; repeat constructor))
    as ((Hdesc & Hnd & _) & _).
  split; [reflexivity|].
  vm_compute in Hrun. injection Hrun as <-.
  split; [reflexivity|]. split; [exact Hdesc|exact Hnd].
Defined.

End RankingFacts.

(** ** Summary of an aggregation *)

Module SummaryFacts.
Import Store Analytics AnalyticsSpec CountingSpec CountingFacts EventLogSpec
  EventLogFacts RankingSpec RankingFacts SummarySpec.

Lemma ascending_head (x : Z) (l : list Z) :
  ascending (x :: l) -> forall y, In y (x :: l) -> x <= y.
Proof.
  intros [Hx _] y [<-|Hy]; [lia|].
  exact (proj1 (List.Forall_forall _ _) Hx y Hy).
Qed.

Lemma ascending_last (l : list Z) (z : Z) :
  ascending l -> last l = Some z -> forall y, In y l -> y <= z.
Proof.
  induction l as [|x l IH]; [done|].
  intros [Hx Hl] Hlast y Hy.
  destruct l as [|x' l'].
  - cbn in Hlast. inversion Hlast; subst. destruct Hy as [<-|[]]. lia.
  - change (last (x :: x' :: l')) with (last (x' :: l')) in Hlast.
    destruct Hy as [<-|Hy]; [|by apply IH].
    assert (Hz : In z (x' :: l')).
    { apply last_Some in Hlast as [l'' ->]. apply in_or_app. right. by left. }
    exact (proj1 (List.Forall_forall _ _) Hx z Hz).
Qed.

Lemma last_map {A B} (f : A -> B) (l : list A) : last (map f l) = f <$> last l.
Proof.
  induction l as [|x l IH]; [done|].
  destruct l as [|y l]; [done|].
  change (last (map f (x :: y :: l))) with (last (map f (y :: l))).
  rewrite IH. reflexivity.
Qed.

(** The sort of [generateSummary]: its first event is an earliest one, its
    last event a latest one. *)
Lemma sorted_events (events : list ClickEvent) :
  let sortedEvents := JS.sort (fun a b => timestamp a - timestamp b) events in
  (forall first rest, sortedEvents = first :: rest ->
     earliest (timestamp first) events)
  /\ (forall e, last sortedEvents = Some e -> latest (timestamp e) events).
Proof.
  cbv zeta.
  set (sortedEvents := JS.sort (fun a b => timestamp a - timestamp b) events).
  assert (Hasc : ascending (map timestamp sortedEvents)).
  { apply (sort_ascending timestamp). reflexivity. }
  assert (Hperm : Permutation sortedEvents events) by apply sort_perm.
  assert (Hin : forall t, In t (map timestamp sortedEvents)
                          <-> In t (map timestamp events)).
  { intros t. rewrite <- !list_elem_of_In. by rewrite Hperm. }
  split.
  - intros first rest Heq. rewrite Heq in Hasc, Hin. split.
    + apply Hin. by left.
    + intros event Hev. apply (ascending_head _ _ Hasc). apply Hin.
      by apply in_map.
  - intros e Hlast. split.
    + apply Hin. apply in_map.
      apply last_Some in Hlast as [l ->]. apply in_or_app. right. by left.
    + intros event Hev.
      apply (ascending_last _ _ Hasc).
      * by rewrite last_map, Hlast.
      * apply Hin. by apply in_map.
Qed.

Lemma peak_fold (tl : list TimelineEntry) :
  forall init : option JS.ISOString * Z,
    let result :=
      fold_left (fun max entry =>
                   if t_clicks entry >? snd max
                   then (Some (t_period entry), t_clicks entry) else max)
                tl init in
    snd init <= snd result
    /\ (forall entry, In entry tl -> t_clicks entry <= snd result)
    /\ (result = init
        \/ exists entry, In entry tl
                         /\ result = (Some (t_period entry), t_clicks entry)).
Proof.
  induction tl as [|x tl IH]; intros init; cbn [fold_left].
  - split; [lia|]. split; [done|]. by left.
  - cbv zeta in IH |- *.
    destruct (Z.gtb_spec (t_clicks x) (snd init)) as [Hgt|Hle].
    + destruct (IH (Some (t_period x), t_clicks x)) as (Hge & Hall & Hwho).
      cbn [snd] in Hge. split; [lia|]. split.
      * intros entry [<-|Hin]; [lia|by apply Hall].
      * right. destruct Hwho as [->|(entry & Hin & ->)].
        -- exists x. split; [by left|done].
        -- exists entry. split; [by right|done].
    + destruct (IH init) as (Hge & Hall & Hwho).
      split; [lia|]. split.
      * intros entry [<-|Hin]; [lia|by apply Hall].
      * destruct Hwho as [->|(entry & Hin & ->)]; [by left|].
        right. exists entry. split; [by right|done].
Qed.

Lemma peak_is_highest (tl : list TimelineEntry) :
  (forall entry, In entry tl -> t_clicks entry <= snd (peak tl))
  /\ match tl with
     | [] => peak tl = (None, 0)
     | _ => exists entry, In entry tl
                          /\ peak tl = (Some (t_period entry), t_clicks entry)
     end.
Proof.
  unfold peak. destruct tl as [|first tl]; [by split|].
  pose proof (peak_fold (first :: tl) (Some (t_period first), t_clicks first))
    as (_ & Hall & Hwho).
  cbv zeta in Hall, Hwho. split; [exact Hall|].
  destruct Hwho as [->|Hwho]; [|exact Hwho].
  exists first. split; [by left|done].
Qed.

Lemma summary_parts_peak (events : list ClickEvent) (linkCreatedAt : option Z)
    (tl : list TimelineEntry) (s : AnalyticsSummary) :
  generateSummary events linkCreatedAt tl = JS.Normal s ->
  s_peakClicks s = snd (peak tl).
Proof.
  unfold generateSummary. cbv zeta. intros Hrun.
  destruct (JS.Date_toISOString linkCreatedAt); cbn [and_then] in Hrun;
    [|discriminate].
  match type of Hrun with
  | and_then ?c _ = _ => destruct c; cbn [and_then] in Hrun; [|discriminate]
  end.
  match type of Hrun with
  | and_then ?c _ = _ => destruct c; cbn [and_then] in Hrun; [|discriminate]
  end.
  by inversion Hrun.
Qed.

(** X25: a summary has a creation time only for a link that has one; with
    no events it has no first and no last click, otherwise the first click
    is the stamp of an earliest event and the last click that of a latest
    one; the peak is at least every bucket's clicks and, when there are
    buckets, it is one bucket's clicks with that bucket's period (0 and no
    period otherwise). *)
Theorem summary_bounds (events : list ClickEvent) (linkCreatedAt : option Z)
    (tl : list TimelineEntry) (s : AnalyticsSummary) :
  generateSummary events linkCreatedAt tl = JS.Normal s ->
  (exists created, linkCreatedAt = Some created /\ s_createdAt s = JS.ISO created)
  /\ match events with
     | [] => s_firstClick s = None /\ s_lastClick s = None
     | _ => exists lo hi,
              s_firstClick s = Some (JS.ISO lo) /\ earliest lo events
              /\ s_lastClick s = Some (JS.ISO hi) /\ latest hi events
     end
  /\ (forall entry, In entry tl -> t_clicks entry <= s_peakClicks s)
  /\ match tl with
     | [] => s_peakClicks s = 0 /\ s_peakHour s = None
     | _ => exists entry, In entry tl
                          /\ s_peakClicks s = t_clicks entry
                          /\ s_peakHour s = Some (t_period entry)
     end.
Proof.
  unfold generateSummary. cbv zeta.
  pose proof (sorted_events events) as [Hfirst Hlast]. cbv zeta in Hfirst, Hlast.
  pose proof (sort_perm (fun a b => timestamp a - timestamp b) events) as Hperm.
  set (sortedEvents := JS.sort (fun a b => timestamp a - timestamp b) events) in *.
  intros Hrun.
  destruct linkCreatedAt as [created|]; [|discriminate].
  unfold JS.Date_toISOString at 1 in Hrun.
  destruct (Z.abs created <=? JS.MAX_TIME_VALUE); cbn [and_then] in Hrun;
    [|discriminate].
  destruct sortedEvents as [|first rest] eqn:Hsorted.
  - cbn [and_then last] in Hrun. inversion Hrun; subst; clear Hrun.
    cbn [s_createdAt s_firstClick s_lastClick s_peakClicks s_peakHour].
    apply Permutation_nil in Hperm. subst events.
    split; [by exists created|]. split; [done|].
    pose proof (peak_is_highest tl) as [Hall Hwho].
    split; [exact Hall|].
    destruct tl; [by rewrite Hwho|].
    destruct Hwho as (entry & Hin & ->). by exists entry.
  - unfold JS.Date_toISOString at 1 in Hrun.
    destruct (Z.abs (timestamp first) <=? JS.MAX_TIME_VALUE);
      cbn [and_then] in Hrun; [|discriminate].
    destruct (last (first :: rest)) as [e|] eqn:He.
    2:{ apply last_None in He. discriminate. }
    unfold JS.Date_toISOString at 1 in Hrun.
    destruct (Z.abs (timestamp e) <=? JS.MAX_TIME_VALUE);
      cbn [and_then] in Hrun; [|discriminate].
    inversion Hrun; subst; clear Hrun.
    cbn [s_createdAt s_firstClick s_lastClick s_peakClicks s_peakHour].
    split; [by exists created|]. split.
    + destruct events as [|ev events'].
      { symmetry in Hperm. by apply Permutation_nil in Hperm. }
      exists (timestamp first), (timestamp e).
      split; [done|]. split; [by eapply Hfirst|]. split; [done|].
      by apply Hlast.
    + pose proof (peak_is_highest tl) as [Hall Hwho].
      split; [exact Hall|].
      destruct tl; [by rewrite Hwho|].
      destruct Hwho as (entry & Hin & ->). by exists entry.
Qed.

Lemma summary_bounds_witness :
  exists s,
    generateSummary demo_events (Some 1690000000000) [] = JS.Normal s
    /\ s_firstClick s = Some (JS.ISO 1700000000000)
    /\ s_lastClick s = Some (JS.ISO 1700000300000)
    /\ s_peakClicks s = 0.
Proof.
  destruct (generateSummary demo_events (Some 1690000000000) []) as [s|e] eqn:Hrun;
    [|vm_compute in Hrun; discriminate].
  exists s. split; [reflexivity|].
  destruct (summary_bounds _ _ _ _ Hrun) as (_ & _ & _ & Hpeak & _).
  vm_compute in Hrun. injection Hrun as <-.
  split; [reflexivity|]. split; [reflexivity|]. exact Hpeak.
Defined.

(** *** The parts of an aggregation *)

Section Aggregation.
Context `{RT : Runtime}.

Lemma processAnalyticsData_parts (events : list ClickEvent)
    (linkCreatedAt : option Z) (period granularity : string)
    (timeRange : TimeRange) (data : AnalyticsData) :
  processAnalyticsData events linkCreatedAt period granularity timeRange
  = JS.Normal data ->
  let aggregated := List.filter is_success events in
  totalClicks data = Z.of_nat (length aggregated)
  /\ uniqueClicks data = unique_ips aggregated
  /\ generateTimeline aggregated timeRange granularity = JS.Normal (timeline data)
  /\ generateSummary aggregated linkCreatedAt (timeline data)
     = JS.Normal (summary data)
  /\ Analytics.period data = period
  /\ Analytics.granularity data = granularity.
Proof.
  unfold processAnalyticsData. cbv zeta. intros Hrun.
  destruct (generateTimeline _ _ _) as [tl|e] eqn:Htl; cbn [and_then] in Hrun;
    [|discriminate].
  destruct (calculateReferrerStats _) as [refs|e]; cbn [and_then] in Hrun;
    [|discriminate].
  destruct (generateSummary _ _ _) as [s|e] eqn:Hs; cbn [and_then] in Hrun;
    [|discriminate].
  inversion Hrun; subst. cbn. repeat split. exact Hs.
Qed.

Lemma within_length (from to : Z) (events : list ClickEvent) :
  Z.of_nat (length (within from to events)) <= Z.of_nat (length events).
Proof.
  unfold within. induction events as [|ev events IH]; cbn; [lia|].
  destruct (_ && _); cbn [length]; lia.
Qed.

Lemma within_all (from to : Z) (events : list ClickEvent) :
  (forall event, In event events -> from <= timestamp event < to) ->
  within from to events = events.
Proof.
  unfold within. induction events as [|ev events IH]; intros Hall; cbn; [done|].
  destruct (Hall ev (or_introl eq_refl)) as [Hlo Hhi].
  destruct (Z.geb_spec (timestamp ev) from); [|lia].
  destruct (Z.ltb_spec (timestamp ev) to); [|lia].
  cbn. rewrite IH; [done|]. intros event Hin. apply Hall. by right.
Qed.

Lemma within_wider (from to to' : Z) (events : list ClickEvent) :
  to <= to' ->
  (forall event, In event events -> from <= timestamp event < to) ->
  within from to' events = events.
Proof.
  intros Hle Hall. apply within_all. intros event Hin.
  specialize (Hall event Hin). lia.
Qed.

(** X26: the counts of one aggregation fit together: unique clicks lie
    between 0 and total clicks and are positive when total clicks are; in
    every bucket unique clicks are at most clicks, which are at most total
    clicks; the buckets add up to at most total clicks, and to exactly
    total clicks when every aggregated event is stamped inside the time
    range; and the peak is between 0 and total clicks. *)
Theorem counts_are_consistent (events : list ClickEvent)
    (linkCreatedAt : option Z) (period granularity : string)
    (timeRange : TimeRange) (data : AnalyticsData) :
  processAnalyticsData events linkCreatedAt period granularity timeRange
  = JS.Normal data ->
  let aggregated := List.filter is_success events in
  0 <= uniqueClicks data <= totalClicks data
  /\ (0 < totalClicks data -> 0 < uniqueClicks data)
  /\ Forall (fun entry => 0 <= t_uniqueClicks entry <= t_clicks entry
                          /\ t_clicks entry <= totalClicks data) (timeline data)
  /\ total_of t_clicks (timeline data) <= totalClicks data
  /\ ((forall event, In event aggregated ->
         startTime timeRange <= timestamp event < endTime timeRange) ->
      total_of t_clicks (timeline data) = totalClicks data)
  /\ 0 <= s_peakClicks (summary data) <= totalClicks data.
Proof.
  intros Hrun. cbv zeta.
  destruct (processAnalyticsData_parts _ _ _ _ _ _ Hrun)
    as (Htotal & Hunique & Htl & Hsum & _). cbv zeta in *.
  set (aggregated := List.filter is_success events) in *.
  destruct (generateTimeline_run _ _ _ _ Htl) as (n & Hstep & Hfuel & Hloop).
  destruct (timeline_from_buckets aggregated (endTime timeRange) _ Hstep n _ _
              Hfuel Hloop) as (_ & Hlen & Hnone & Hclicks & Hentries).
  rewrite Htotal, Hunique.
  assert (Hentries' : Forall (fun entry =>
              0 <= t_uniqueClicks entry <= t_clicks entry
              /\ t_clicks entry <= Z.of_nat (length aggregated)) (timeline data)).
  { eapply Forall_impl; [exact Hentries|]. cbn. intros entry (Hc & Hu & _).
    split; [done|]. rewrite Hc. apply within_length. }
  split; [apply unique_ips_le|]. split.
  { intros Hpos. unfold unique_ips.
    destruct aggregated as [|ev rest]; [cbn in Hpos; lia|].
    cbn [map]. cbn. case_decide as Hdup.
    - assert (Hne : remove_dups (map ipHash rest) <> []).
      { intros Hnil. apply elem_of_remove_dups in Hdup. rewrite Hnil in Hdup.
        by apply elem_of_nil in Hdup. }
      destruct (remove_dups (map ipHash rest)); [done|]. cbn. lia.
    - cbn. lia. }
  split; [exact Hentries'|]. split.
  { rewrite Hclicks. apply within_length. }
  split.
  { intros Hall. rewrite Hclicks.
    destruct (Z.lt_ge_cases (startTime timeRange) (endTime timeRange)) as [Hlt|Hge].
    - rewrite (within_wider _ (endTime timeRange)); [done| |exact Hall].
      specialize (Hlen Hlt). rewrite Hlen.
      pose proof (Z.mod_pos_bound
                    (endTime timeRange - startTime timeRange
                     + interval_of granularity - 1)
                    (interval_of granularity) Hstep) as Hmod.
      pose proof (Z.div_mod
                    (endTime timeRange - startTime timeRange
                     + interval_of granularity - 1)
                    (interval_of granularity) ltac:(lia)) as Hdiv.
      nia.
    - destruct aggregated as [|ev rest].
      + rewrite (Hnone Hge). reflexivity.
      + specialize (Hall ev (or_introl eq_refl)). lia. }
  pose proof (peak_is_highest (timeline data)) as [_ Hwho].
  pose proof (summary_parts_peak aggregated linkCreatedAt (timeline data)
                (summary data) Hsum) as Hpeak.
  rewrite Hpeak.
  destruct (timeline data) as [|first tl] eqn:Htimeline.
  - rewrite Hwho. cbn. lia.
  - destruct Hwho as (entry & Hin & ->). cbn [snd].
    pose proof (proj1 (List.Forall_forall _ _) Hentries' entry Hin) as (Hu & Hc).
    lia.
Qed.

(** *** When the aggregation returns *)

Lemma referrer_counts_returns (events : list ClickEvent) :
  Forall digestible events ->
  forall counts, exists result, referrer_counts events counts = JS.Normal result.
Proof.
  induction 1 as [|event events [_ Href] _ IH]; intros counts;
    cbn [referrer_counts]; [by eexists|].
  assert (Hkey : exists key, referrer_key event = JS.Normal key).
  { unfold referrer_key. destruct (referer event) as [r|]; [|by eexists].
    destruct (String.eqb_spec r "direct"); [by eexists|].
    destruct Href as [->|[->|[u Hu]]]; [by eexists|done|].
    destruct r; [by eexists|]. cbn [JS.truthy_str]. rewrite Hu. by eexists. }
  destruct Hkey as [key ->]. apply IH.
Qed.

Lemma generateSummary_returns (events : list ClickEvent) (created : Z)
    (tl : list TimelineEntry) :
  Z.abs created <= JS.MAX_TIME_VALUE ->
  Forall (fun event => Z.abs (timestamp event) <= JS.MAX_TIME_VALUE) events ->
  exists s,
    generateSummary events (Some created) tl = JS.Normal s
    /\ s_createdAt s = JS.ISO created.
Proof.
  intros Hcreated Hstamps. unfold generateSummary. cbv zeta.
  pose proof (sort_perm (fun a b => timestamp a - timestamp b) events) as Hperm.
  set (sortedEvents := JS.sort (fun a b => timestamp a - timestamp b) events) in *.
  assert (Hsorted : Forall (fun event => Z.abs (timestamp event) <= JS.MAX_TIME_VALUE)
                      sortedEvents) by (by rewrite Hperm).
  assert (Hiso : forall event, In event sortedEvents ->
            JS.Date_toISOString (Some (timestamp event))
            = JS.Normal (JS.ISO (timestamp event))).
  { intros event Hin. unfold JS.Date_toISOString.
    pose proof (proj1 (List.Forall_forall _ _) Hsorted event Hin) as Hok.
    cbv beta in Hok.
    by destruct (Z.leb_spec (Z.abs (timestamp event)) JS.MAX_TIME_VALUE); [|lia]. }
  unfold JS.Date_toISOString at 1.
  destruct (Z.leb_spec (Z.abs created) JS.MAX_TIME_VALUE); [|lia].
  cbn [and_then].
  destruct sortedEvents as [|first rest] eqn:Hs.
  - cbn [and_then last]. by eexists.
  - rewrite (Hiso first ltac:(by left)). cbn [and_then].
    destruct (last (first :: rest)) as [e|] eqn:Hlast.
    + rewrite (Hiso e). 2:{ apply last_Some in Hlast as [l ->].
                            apply in_or_app. right. by left. }
      cbn [and_then]. by eexists.
    + cbn [and_then]. by eexists.
Qed.

(** X27: the aggregation returns a report whenever the link's creation
    time is a valid date, the time range lies within the valid dates, and
    every SUCCESS event has a valid date as its stamp and a referer that is
    missing, empty, [direct] or a URL the parser accepts.  The report
    counts the SUCCESS events as total clicks, and repeats the period, the
    granularity and the creation time it was given. *)
Theorem aggregation_returns (events : list ClickEvent) (created : Z)
    (period granularity : string) (timeRange : TimeRange) :
  Z.abs created <= JS.MAX_TIME_VALUE ->
  - JS.MAX_TIME_VALUE <= startTime timeRange ->
  endTime timeRange <= JS.MAX_TIME_VALUE ->
  (forall event, In event events -> eventType event = SUCCESS -> digestible event) ->
  exists data,
    processAnalyticsData events (Some created) period granularity timeRange
    = JS.Normal data
    /\ totalClicks data = Z.of_nat (length (List.filter is_success events))
    /\ Analytics.period data = period
    /\ Analytics.granularity data = granularity
    /\ s_createdAt (summary data) = JS.ISO created.
Proof.
  intros Hcreated Hfrom Hto Hevents.
  set (aggregated := List.filter is_success events).
  assert (Hagg : Forall digestible aggregated).
  { apply List.Forall_forall. intros event Hin.
    apply filter_In in Hin as [Hin Hs]. apply Hevents; [done|].
    unfold is_success in Hs. by destruct (eventType event). }
  destruct (generateTimeline_returns aggregated timeRange granularity Hfrom Hto)
    as [tl Htl].
  destruct (referrer_counts_returns aggregated Hagg []) as [counts Hcounts].
  destruct (generateSummary_returns aggregated created tl Hcreated) as (s & Hs & Hc).
  { eapply Forall_impl; [exact Hagg|]. by intros event [Hstamp _]. }
  unfold processAnalyticsData. cbv zeta. fold aggregated.
  rewrite Htl. cbn [and_then].
  unfold calculateReferrerStats. rewrite Hcounts. cbn [and_then].
  rewrite Hs. cbn [and_then].
  eexists. split; [reflexivity|]. done.
Qed.

(** *** Referers that are not URLs *)

Lemma referrer_counts_throws (events : list ClickEvent) (event : ClickEvent)
    (r : string) :
  In event events ->
  referer event = Some r ->
  unparsable r ->
  forall counts, exists e, referrer_counts events counts = JS.Throw e.
Proof.
  intros Hin Href (Hne & Hnd & Hparse).
  assert (Hkey : referrer_key event = JS.Throw (JS.NamedError "TypeError" "Invalid URL")).
  { unfold referrer_key. rewrite Href.
    destruct (String.eqb_spec r "direct"); [done|].
    destruct r; [done|]. cbn [JS.truthy_str]. by rewrite Hparse. }
  induction events as [|ev events IH]; [done|].
  intros counts. cbn [referrer_counts].
  destruct Hin as [->|Hin].
  - rewrite Hkey. by eexists.
  - destruct (referrer_key ev); [by apply IH|by eexists].
Qed.

(** X28: one SUCCESS event whose referer is neither empty nor [direct]
    and is refused by the URL parser makes the referrer breakdown throw,
    and with it the whole aggregation: no data is returned for any of the
    events. *)
Theorem one_odd_referer_fails_the_aggregation (events : list ClickEvent)
    (event : ClickEvent) (r : string) (linkCreatedAt : option Z)
    (period granularity : string) (timeRange : TimeRange) :
  In event events ->
  eventType event = SUCCESS ->
  referer event = Some r ->
  unparsable r ->
  (exists e, calculateReferrerStats (List.filter is_success events) = JS.Throw e)
  /\ exists e,
       processAnalyticsData events linkCreatedAt period granularity timeRange
       = JS.Throw e.
Proof.
  intros Hin Htype Href Hodd.
  assert (Hagg : In event (List.filter is_success events)).
  { apply filter_In. split; [done|]. unfold is_success. by rewrite Htype. }
  destruct (referrer_counts_throws _ event r Hagg Href Hodd []) as [e He].
  assert (Hstats : calculateReferrerStats (List.filter is_success events) = JS.Throw e).
  { unfold calculateReferrerStats. by rewrite He. }
  split; [by exists e|].
  unfold processAnalyticsData. cbv zeta.
  destruct (generateTimeline _ _ _) as [tl|e']; cbn [and_then]; [|by eexists].
  rewrite Hstats. cbn [and_then]. by eexists.
Qed.

(** The item [trackAnalytics] has built is the last row once its write
    has landed; it holds the referer as it came. *)
Lemma storeAnalytics_last (item : AnalyticsItem) (w : World) :
  RedirectSpec.put_lands w = true ->
  last (analytics (snd (Redirect.storeAnalytics item w))) = Some item.
Proof.
  intros Hlands.
  destruct (RedirectFacts.storeAnalytics_records item w) as (w' & Hrun & Hput & _).
  rewrite Hrun. cbn [snd]. rewrite (Hput Hlands). apply last_snoc.
Qed.

(** X29: the redirect handler stores the [Referer] header as it came, so
    a visit of an active link with a header that is not a URL, once its
    analytics write has landed, leaves the event log in a state in which
    aggregating the link's events throws. *)
Theorem odd_referer_header_reaches_the_aggregation (event : Redirect.Event)
    (code r : string) (w : World) (item : LinkItem) (linkCreatedAt : option Z)
    (period granularity : string) (timeRange : TimeRange) :
  Redirect.pathShortCode event = Some code ->
  code <> EmptyString ->
  outcome (next_reply w) = Answers ->
  ResolveSpec.row_of code w = Some item ->
  ResolveSpec.active (clock (after_reply w)) item ->
  Redirect.header_Referer event = Some r ->
  unparsable r ->
  RedirectSpec.put_lands (snd (Redirect.updateClickCount code (after_reply w))) = true ->
  let w' := snd (Redirect.handler event w) in
  (exists row, last (analytics w') = Some row
               /\ a_eventType row = SUCCESS /\ a_referer row = r)
  /\ exists e,
       processAnalyticsData (map of_item (analytics w')) linkCreatedAt
         period granularity timeRange
       = JS.Throw e.
Proof.
  intros Hpath Hcode Hans Hrow Hactive Hheader Hodd Hlands. cbv zeta.
  rewrite (ResolveFacts.found_active event code w item Hpath Hcode Hans Hrow Hactive).
  cbn [snd].
  pose proof (storeAnalytics_last
                (ResolveSpec.success_item event code (clock (after_reply w)))
                _ Hlands) as Hlast.
  set (row := ResolveSpec.success_item event code (clock (after_reply w))) in *.
  assert (Hr : a_referer row = r).
  { unfold row, ResolveSpec.success_item.
    cbn [Redirect.analyticsItem a_referer Redirect.analytics_event
           Redirect.e_referer].
    unfold Redirect.or_header. rewrite Hheader.
    destruct Hodd as (Hne & _). destruct r; [done|]. reflexivity. }
  split; [by exists row|].
  apply (one_odd_referer_fails_the_aggregation _ (of_item row) r); try done.
  - apply in_map. apply last_Some in Hlast as [rows ->].
    apply in_or_app. right. by left.
  - change (referer (of_item row)) with (Some (a_referer row)). by rewrite Hr.
Qed.

End Aggregation.

Lemma counts_are_consistent_witness :
  exists data,
    BreakdownSpec.aggregate demo_events = JS.Normal data
    /\ total_of t_clicks (timeline data) = totalClicks data
    /\ uniqueClicks data <= totalClicks data.
Proof.
  destruct (BreakdownSpec.aggregate demo_events) as [data|e] eqn:Hrun;
    [|vm_compute in Hrun; discriminate].
  exists data. split; [reflexivity|].
  destruct (counts_are_consistent (RT := Demo.runtime) _ _ _ _ _ _ Hrun)
    as (Hunique & _ & _ & _ & Hall & _).
  split; [|lia].
  apply Hall. intros event Hin. vm_compute in Hin.
  destruct Hin as [<-|[<-|[<-|[]]]]; vm_compute; split; congruence.
Defined.

Lemma aggregation_returns_witness :
  exists data,
    processAnalyticsData (RT := Demo.runtime) demo_events (Some 1699990000000)
      "1h" "hour" demo_range
    = JS.Normal data
    /\ totalClicks data = Z.of_nat (length (List.filter is_success demo_events)).
Proof.
  destruct (aggregation_returns (RT := Demo.runtime) demo_events 1699990000000
              "1h" "hour" demo_range) as (data & Hrun & Htotal & _).
  - vm_compute. discriminate.
  - vm_compute. discriminate.
  - vm_compute. discriminate.
  - intros event Hin _. vm_compute in Hin.
    repeat (destruct Hin as [<-|Hin]; [split; [vm_compute; discriminate|cbn; auto]|]).
    destruct Hin.
  - by exists data.
Defined.

Lemma one_odd_referer_fails_the_aggregation_witness :
  exists e,
    BreakdownSpec.aggregate
      [ {| eventType := SUCCESS; timestamp := 1700000000000; ipHash := Some "a1";
           referer := Some "example.com/page"; country := Some "US";
           device := None; browser := None; browserVersion := None |} ]
    = JS.Throw e.
Proof.
  eapply (one_odd_referer_fails_the_aggregation (RT := Demo.runtime)).
  - by left.
  - reflexivity.
  - reflexivity.
  - repeat split; discriminate || reflexivity.
Defined.

Lemma odd_referer_header_reaches_the_aggregation_witness :
  exists e,
    processAnalyticsData (RT := Demo.runtime)
      (map of_item
         (analytics (snd (Redirect.handler (RT := Demo.runtime) (odd_visit "abc12345")
                            (RedirectSpec.world_with [ResolveSpec.fresh_link]
                               1699999999998)))))
      (Some 1699990000000) "1h" "hour" demo_range
    = JS.Throw e.
Proof.
  eapply (odd_referer_header_reaches_the_aggregation (RT := Demo.runtime)
            (odd_visit "abc12345") "abc12345" "example.com/page"
            (RedirectSpec.world_with [ResolveSpec.fresh_link] 1699999999998)
            ResolveSpec.fresh_link).
  - reflexivity.
  - discriminate.
  - reflexivity.
  - reflexivity.
  - right. cbn. lia.
  - reflexivity.
  - repeat split; discriminate || reflexivity.
  - reflexivity.
Defined.

End SummaryFacts.

(** ** Answers of the analytics handler *)

Module ReportFacts.
Import Store Analytics AnalyticsHandler RunSpec RunFacts EventLogSpec EventLogFacts
  SummarySpec SummaryFacts ReportSpec.

Lemma checkLinkExists_misses (code : string) (w : World) :
  probe_misses code w -> checkLinkExists code w = (Ok false, after_reply w).
Proof.
  intros [[Hans Hrow]|[e Hrej]]; unfold checkLinkExists.
  - apply try_catch_Ok.
    rewrite (bind_Ok _ _ _ _ _ (GetItem_answers _ _ _ Hans)). by rewrite Hrow.
  - rewrite (try_catch_Err _ _ _ (after_reply w) e); [done|].
    by rewrite (bind_Err _ _ _ _ _ (GetItem_rejects _ _ _ e Hrej)).
Qed.

Lemma checkLinkExists_finds (code : string) (item : LinkItem) (w : World) :
  outcome (next_reply w) = Answers ->
  List.find (has_code code) (links w) = Some item ->
  checkLinkExists code w = (Ok true, after_reply w).
Proof.
  intros Hans Hrow. unfold checkLinkExists. apply try_catch_Ok.
  rewrite (bind_Ok _ _ _ _ _ (GetItem_answers _ _ _ Hans)). by rewrite Hrow.
Qed.

Lemma fetchLinkMetadata_rejected (code : string) (e : JS.Error) (w : World) :
  outcome (next_reply w) = Rejects e ->
  fetchLinkMetadata code w = (Err e, after_reply w).
Proof.
  intros Hrej. unfold fetchLinkMetadata.
  rewrite (try_catch_Err _ _ _ (after_reply w) e); [done|].
  by rewrite (bind_Err _ _ _ _ _ (GetItem_rejects _ _ _ e Hrej)).
Qed.

Lemma fetchLinkMetadata_answers (code : string) (item : LinkItem) (w : World) :
  outcome (next_reply w) = Answers ->
  List.find (has_code code) (links w) = Some item ->
  fetchLinkMetadata code w = (Ok (metadata_projection item), after_reply w).
Proof.
  intros Hans Hrow. unfold fetchLinkMetadata. apply try_catch_Ok.
  rewrite (bind_Ok _ _ _ _ _ (GetItem_answers _ _ _ Hans)). by rewrite Hrow.
Qed.

Lemma calculateTimeRange_bounds (now : Z) (period : string) :
  0 <= now <= JS.MAX_TIME_VALUE ->
  - JS.MAX_TIME_VALUE <= startTime (calculateTimeRange now period)
  /\ endTime (calculateTimeRange now period) <= JS.MAX_TIME_VALUE.
Proof.
  intros Hnow. unfold calculateTimeRange, JS.MAX_TIME_VALUE in *. cbv zeta.
  repeat (destruct (String.eqb period _)); cbn [startTime endTime]; lia.
Qed.

Section WithRuntime.
Context `{RT : Runtime}.
Variable wording : list string -> string -> string.

(** The aggregation of no events. *)
Lemma no_events_no_clicks (created : Z) (period granularity : string)
    (timeRange : TimeRange) :
  Z.abs created <= JS.MAX_TIME_VALUE ->
  - JS.MAX_TIME_VALUE <= startTime timeRange ->
  endTime timeRange <= JS.MAX_TIME_VALUE ->
  exists data,
    processAnalyticsData [] (Some created) period granularity timeRange
    = JS.Normal data
    /\ no_clicks data.
Proof.
  intros Hcreated Hfrom Hto.
  destruct (generateTimeline_returns [] timeRange granularity Hfrom Hto)
    as [tl Htl].
  destruct (generateSummary_returns [] created tl Hcreated ltac:(constructor))
    as (s & Hs & _).
  destruct (generateTimeline_run _ _ _ _ Htl) as (n & Hstep & Hfuel & Hloop).
  destruct (timeline_from_buckets [] (endTime timeRange) _ Hstep n _ tl
              Hfuel Hloop) as (_ & _ & _ & _ & Hentries).
  unfold processAnalyticsData. cbv zeta.
  change (List.filter is_success []) with (@nil ClickEvent).
  rewrite Htl. cbn [and_then].
  change (calculateReferrerStats []) with (JS.Normal (@nil ReferrerStats)).
  cbn [and_then]. rewrite Hs. cbn [and_then].
  eexists. split; [reflexivity|].
  unfold no_clicks. cbn.
  repeat split.
  eapply Forall_impl; [exact Hentries|]. cbn. by intros entry [-> _].
Qed.

(** X30: how the analytics handler answers a request it cannot serve in
    full.  Without a short code: 400, nothing read.  With a query parameter
    outside its enum: 400 with the first issue, nothing read.  Otherwise,
    when the existence probe finds no row or fails: 404 [Short link not
    found], whatever the event log holds; when the probe finds the link
    and the read of its metadata fails: 500; and when both reads answer but
    a query of the event log is rejected (at most 10000 events read so
    far): 200 with a report of no clicks.  So a store failure is answered
    404, 500 or 200 depending on the read it hits. *)
Theorem analytics_handler_answers (event : Event) (scan : Scan) (w : World) :
  (pathShortCode event = None \/ pathShortCode event = Some EmptyString ->
   handler wording event scan w
   = (Ok (createErrorResponse 400 "Short code is required"), w))
  /\ forall code : string,
       pathShortCode event = Some code ->
       code <> EmptyString ->
       (forall first others,
          query_issues wording event = first :: others ->
          handler wording event scan w
          = (Ok (createErrorResponse 400 ("Invalid query parameters: " +:+ first)),
             w))
       /\ (query_issues wording event = [] ->
           (probe_misses code w ->
            handler wording event scan w
            = (Ok (createErrorResponse 404 "Short link not found"), after_reply w))
           /\ (forall item name message,
                 outcome (next_reply w) = Answers ->
                 List.find (has_code code) (links w) = Some item ->
                 outcome (next_reply (after_reply w))
                 = Rejects (JS.NamedError name message) ->
                 handler wording event scan w
                 = (Ok (createErrorResponse 500 "Internal server error"),
                    after_reply (after_reply w)))
           /\ (forall item created,
                 link_is_read code item w ->
                 createdAt item = Some created ->
                 Z.abs created <= JS.MAX_TIME_VALUE ->
                 0 <= clock (after_reply w) <= JS.MAX_TIME_VALUE ->
                 completes scan = false ->
                 Z.of_nat (length (handed_out scan)) <= 10000 ->
                 exists data,
                   handler wording event scan w
                   = (Ok (createSuccessResponse data), after_reply (after_reply w))
                   /\ no_clicks data)).
Proof.
  split.
  { intros Hpath. unfold handler. by destruct Hpath as [-> | ->]. }
  intros code Hpath Hcode.
  assert (Hhandler : handler wording event scan w
                     = try_catch (try_block wording code event scan) on_error w).
  { unfold handler. rewrite Hpath. by destruct code. }
  rewrite Hhandler. clear Hhandler.
  split.
  { intros first others Hissues.
    unfold try_catch, try_block, AnalyticsQuerySchema.
    fold (query_issues wording event). by rewrite Hissues. }
  intros Hvalid.
  assert (Hq : exists q, AnalyticsQuerySchema wording event = JS.Normal q).
  { unfold AnalyticsQuerySchema. fold (query_issues wording event).
    rewrite Hvalid. by eexists. }
  destruct Hq as [q Hq].
  split; [|split].
  - intros Hmiss. apply try_catch_Ok. unfold try_block. rewrite Hq.
    cbn [lift]. unfold bind at 1. cbn [ret].
    by rewrite (bind_Ok _ _ _ _ _ (checkLinkExists_misses code w Hmiss)).
  - intros item name message Hans Hrow Hrej.
    rewrite (try_catch_Err _ _ _ (after_reply (after_reply w)) (JS.NamedError name message)); [done|].
    unfold try_block. rewrite Hq. cbn [lift]. unfold bind at 1. cbn [ret].
    rewrite (bind_Ok _ _ _ _ _ (checkLinkExists_finds code item w Hans Hrow)).
    cbn [negb]. unfold Date_now at 1. unfold bind at 1.
    by rewrite (bind_Err _ _ _ _ _ (fetchLinkMetadata_rejected code _ _ Hrej)).
  - intros item created (Hans & Hans' & Hrow) Hcreated Hvalid' Hclock Hcut Hlen.
    destruct (calculateTimeRange_bounds (clock (after_reply w)) (q_period q) Hclock)
      as [Hfrom Hto].
    destruct (no_events_no_clicks created (q_period q) (q_granularity q)
                (calculateTimeRange (clock (after_reply w)) (q_period q))
                Hvalid' Hfrom Hto) as (data & Hdata & Hnone).
    exists data. split; [|exact Hnone].
    apply try_catch_Ok. unfold try_block. rewrite Hq.
    cbn [lift]. unfold bind at 1. cbn [ret].
    rewrite (bind_Ok _ _ _ _ _ (checkLinkExists_finds code item w Hans Hrow)).
    cbn [negb]. unfold Date_now at 1. unfold bind at 1.
    assert (Hrow' : List.find (has_code code) (links (after_reply w)) = Some item)
      by exact Hrow.
    rewrite (bind_Ok _ _ _ _ _
               (fetchLinkMetadata_answers code item (after_reply w) Hans' Hrow')).
    cbn [metadata_projection createdAt]. rewrite Hcreated.
    pose proof (fetchClickEvents_small code scan Hlen) as Hfetch.
    rewrite Hcut in Hfetch. rewrite Hfetch. cbn [fst].
    rewrite Hdata. reflexivity.
Qed.

End WithRuntime.

Lemma analytics_handler_answers_witness :
  exists data,
    handler (RT := Demo.runtime) enum_message (plain_request "abc12345")
      (QueryRejects (JS.NamedError "ServiceUnavailable" "Service Unavailable"))
      (RedirectSpec.world_with [ResolveSpec.fresh_link] 1700000000000)
    = (Ok (createSuccessResponse data),
       RedirectSpec.world_with [ResolveSpec.fresh_link] 1700000000000)
    /\ totalClicks data = 0.
Proof.
  destruct (analytics_handler_answers (RT := Demo.runtime) enum_message
              (plain_request "abc12345")
              (QueryRejects (JS.NamedError "ServiceUnavailable" "Service Unavailable"))
              (RedirectSpec.world_with [ResolveSpec.fresh_link] 1700000000000))
    as [_ Hcode].
  destruct (Hcode "abc12345" eq_refl ltac:(discriminate)) as [_ Hvalid].
  destruct (Hvalid eq_refl) as (_ & _ & Hscan).
  destruct (Hscan ResolveSpec.fresh_link 1699990000000) as (data & Hrun & Hnone).
  - repeat split; reflexivity.
  - reflexivity.
  - vm_compute. discriminate.
  - vm_compute. split; discriminate.
  - reflexivity.
  - vm_compute. discriminate.
  - exists data. split; [exact Hrun|]. apply Hnone.
Defined.

End ReportFacts.
